(** * Fadroma: deployment pipeline, chain/agent/bundle layer, devnet state.

    A shallow embedding of the TypeScript sources, one module per source
    unit:

    - [Connect]   the chain/agent/bundle layer (the [Chain], [Agent] and
                  [Bundle] classes of the client package, as embedded in
                  [packages/client/client-fields.spec.ts.md]);
    - [Client]    the older single-file package [packages/client/client.ts]
                  ([Bundle.instantiate], [Bundle.execute], [Client.getFee]);
    - [Devnet]    the devnet supervisor base class ([unnamed/part_003]);
    - [Contract]  the contract lifecycle ([unnamed/part_006]);
    - [Base64]    the mocknet data helpers.

    JavaScript objects with a fixed shape are records; objects that the code
    indexes by computed key are finite maps from property names to values;
    exceptions and rejected promises are the [Throw] outcome of an error
    monad; mutation is explicit state passing. *)

From Stdlib Require Import ZArith NArith Lia Ascii String.
From stdpp Require Import base option list strings pretty gmap.

Local Open Scope string_scope.
Local Open Scope Z_scope.
Local Open Scope list_scope.

(** ** Values shared by all modules *)

Abbreviation Address := string (only parsing).
Abbreviation ChainId := string (only parsing).
Abbreviation CodeHash := string (only parsing).
Abbreviation CodeId := string (only parsing).
Abbreviation Label := string (only parsing).
Abbreviation TxHash := string (only parsing).
Abbreviation Uint128 := string (only parsing).

(** A JavaScript value as far as the sources look at it: primitives are
    compared by content, objects by identity ([JRef]). *)
Inductive JsVal :=
| JUndefined
| JNull
| JBool (b : bool)
| JNum (n : Z)
| JStr (s : string)
| JRef (loc : nat).

#[global] Instance JsVal_eq_dec : EqDecision JsVal.
Proof. solve_decision. Defined.

(** [if (v)] *)
Definition truthy (v : JsVal) : bool :=
  match v with
  | JUndefined | JNull => false
  | JBool b => b
  | JNum n => negb (n =? 0)
  | JStr s => negb (String.eqb s "")
  | JRef _ => true
  end.

(** [a !== b] on the values above. *)
Definition strict_neq (a b : JsVal) : bool := negb (bool_decide (a = b)).

(** [if (s)] for an optional string: [undefined] and the empty string are
    falsy. *)
Definition truthy_str (s : option string) : bool :=
  match s with
  | Some s => negb (String.eqb s "")
  | None => false
  end.

(** [String(x)] for an optional string. *)
Definition String_ (s : option string) : string := default "undefined" s.

(** [a || b] on optional objects (an object is always truthy). *)
Definition or_else {A} (a b : option A) : option A :=
  match a with Some _ => a | None => b end.

(** A message to a contract: [string | Record<string, unknown>].  The
    object form keeps its keys in enumeration order. *)
Inductive Message :=
| MsgStr (s : string)
| MsgObj (entries : list (string * JsVal)).

Record ICoin := { coin_amount : Uint128; coin_denom : string }.
Record IFee  := { fee_amount : list ICoin; fee_gas : Uint128 }.

Record AgentFees := {
  fees_send   : option IFee;
  fees_upload : option IFee;
  fees_init   : option IFee;
  fees_exec   : option IFee
}.

(** ** Errors and the error monad *)

Inductive Error :=
(* client errors *)
| NoChainId
| NoChain
| NoBundleAgent
| NotInBundle (op : string)
| EmptyBundle
| NameOutsideDevnet
| BalanceNoAddress
| LinkNoAddress
(* contract lifecycle *)
| NoCrate
| NoBuilder
| NoAgent
| NoName
| NoInitLabel
| NoInitMessage
| NoInitCodeId
(* plain [Error] objects and failures of the backend *)
| PlainError (message : string)
| BackendError (message : string).

#[global] Instance Error_eq_dec : EqDecision Error.
Proof. solve_decision. Defined.

(** The outcome of a call: a value, or a thrown error (for an [async]
    function: a rejected promise). *)
Inductive Result (A : Type) :=
| Ok (a : A)
| Throw (e : Error).
Arguments Ok {A} a.
Arguments Throw {A} e.

Definition is_Throw {A} (r : Result A) : bool :=
  match r with Throw _ => true | Ok _ => false end.

(** Stateful, fallible computations over a state [S]. *)
Definition M (S A : Type) : Type := S → Result A * S.

Definition ret {S A} (a : A) : M S A := λ s, (Ok a, s).
Definition throw {S A} (e : Error) : M S A := λ s, (Throw e, s).
Definition bind {S A B} (m : M S A) (k : A → M S B) : M S B :=
  λ s, match m s with
       | (Ok a, s') => k a s'
       | (Throw e, s') => (Throw e, s')
       end.
Definition get {S} : M S S := λ s, (Ok s, s).
Definition modify {S} (f : S → S) : M S unit := λ s, (Ok tt, f s).
Definition lift {S A} (r : Result A) : M S A := λ s, (r, s).

#[global] Instance M_ret {S} : MRet (M S) := λ A, @ret S A.
#[global] Instance M_bind {S} : MBind (M S) := λ A B k m, @bind S A B m k.

(** ** The message log of a bundle *)

(** The records of the message log. *)
Record InitRecord := {
  init_codeId   : string;
  init_codeHash : option CodeHash;
  init_label    : Label;
  init_funds    : list ICoin;
  init_msg      : Message;
  init_sender   : option Address
}.

Record ExecRecord := {
  exec_sender   : option Address;
  exec_contract : option Address;
  exec_codeHash : option CodeHash;
  exec_msg      : Message;
  exec_funds    : option (list ICoin)
}.

Inductive BundleMsg :=
| init (r : InitRecord)
| exec (r : ExecRecord).

(** [arr[i] = x] on a JavaScript array: inside the array the slot is
    overwritten; past its end the array grows, leaving holes. *)
Definition array_set {A} (arr : list (option A)) (i : nat) (x : A) : list (option A) :=
  if decide (i < length arr)%nat
  then <[i := Some x]> arr
  else arr ++ replicate (i - length arr) None ++ [Some x].

(** ** The chain/agent/bundle layer *)

Module Connect.

Inductive ChainMode := Mainnet | Testnet | Devnet | Mocknet.

#[global] Instance ChainMode_eq_dec : EqDecision ChainMode.
Proof. solve_decision. Defined.

(** [DevnetHandle]: the fields the constructor reads; [dh_url] is
    [String(node.url)]. *)
Record DevnetHandle := { dh_chainId : string; dh_url : string }.

(** The abstract methods of [Chain], supplied by the backend subclass. *)
Record ChainApi := {
  api_height     : Result Z;
  api_getBalance : string → Address → Result string;
  api_query      : Address → Message → Result JsVal;
  api_getCodeId  : Address → Result CodeId;
  api_getLabel   : Address → Result string;
  api_getHash    : Address → Result CodeHash
}.

Record ChainOpts := {
  opt_url  : option string;
  opt_mode : option ChainMode;
  opt_node : option DevnetHandle
}.

Record Chain := {
  chain_id   : ChainId;
  chain_url  : string;
  chain_mode : option ChainMode;
  chain_node : option DevnetHandle;
  chain_api  : ChainApi
}.

(** Lines written to the logger. *)
Inductive LogLine :=
| warnUrlOverride (node_url chain_url : string)
| warnIdOverride (node_id chain_id : string)
| warnNodeNonDevnet
| warnNoCodeHashProvided (address : Address) (fetched : CodeHash)
| warnCodeHashMismatch (address : Address) (expected : option CodeHash) (fetched : CodeHash)
| confirmCodeHash (address : Address) (fetched : CodeHash)
| warnNest (depth : Z)
| warnUnnest (depth : Z).

(** The url the constructor starts from: the field is initialised to the
    empty string, and [if (options.url) this.url = options.url]. *)
Definition provided_url (options : ChainOpts) : string :=
  if truthy_str (opt_url options) then default "" (opt_url options) else "".

(** [new Chain(id, options)]: the constructed chain and the log lines, or
    the error thrown.  The field initialiser gives [url = ''] before the
    constructor body runs. *)
Definition Chain_new (api : ChainApi) (id : ChainId) (options : ChainOpts)
  : Result (Chain * list LogLine) :=
  if String.eqb id "" then Throw NoChainId else
  let url0 := provided_url options in
  match opt_node options with
  | Some node =>
      if bool_decide (opt_mode options = Some Devnet) then
        let '(url1, log1) :=
          if negb (String.eqb url0 (dh_url node))
          then (dh_url node, [warnUrlOverride (dh_url node) url0])
          else (url0, []) in
        let '(id1, log2) :=
          if negb (String.eqb id (dh_chainId node))
          then (dh_chainId node, [warnIdOverride (dh_chainId node) id])
          else (id, []) in
        Ok ({| chain_id := id1; chain_url := url1; chain_mode := opt_mode options;
               chain_node := Some node; chain_api := api |}, log1 ++ log2)
      else
        Ok ({| chain_id := id; chain_url := url0; chain_mode := opt_mode options;
               chain_node := None; chain_api := api |}, [warnNodeNonDevnet])
  | None =>
      Ok ({| chain_id := id; chain_url := url0; chain_mode := opt_mode options;
             chain_node := None; chain_api := api |}, [])
  end.

Definition isMainnet (c : Chain) : bool := bool_decide (chain_mode c = Some Mainnet).
Definition isTestnet (c : Chain) : bool := bool_decide (chain_mode c = Some Testnet).
Definition isDevnet  (c : Chain) : bool := bool_decide (chain_mode c = Some Devnet).
Definition isMocknet (c : Chain) : bool := bool_decide (chain_mode c = Some Mocknet).
Definition devMode   (c : Chain) : bool := isDevnet c || isMocknet c.

(** [Chain.checkHash]: soft check; the fetched hash is returned whatever the
    comparison says.  The two [if]s are separate statements in the source. *)
Definition Chain_checkHash (c : Chain) (address : Address) (expected : option CodeHash)
  : Result (CodeHash * list LogLine) :=
  match api_getHash (chain_api c) address with
  | Throw e => Throw e
  | Ok fetched =>
      let log1 := if negb (truthy_str expected)
                  then [warnNoCodeHashProvided address fetched] else [] in
      let log2 := if negb (bool_decide (expected = Some fetched))
                  then [warnCodeHashMismatch address expected fetched]
                  else [confirmCodeHash address fetched] in
      Ok (fetched, log1 ++ log2)
  end.

(** *** Agent *)

Record Agent := {
  agent_chain   : option Chain;
  agent_address : option Address;
  agent_name    : option string;
  agent_fees    : option AgentFees
}.

(** [assertChain(thing)] *)
Definition assertChain (a : Agent) : Result Chain :=
  match agent_chain a with
  | Some c => Ok c
  | None => Throw NoChain
  end.

Definition Agent_getCodeId (a : Agent) (address : Address) : Result CodeId :=
  match assertChain a with
  | Ok c => api_getCodeId (chain_api c) address
  | Throw e => Throw e
  end.

Definition Agent_getLabel (a : Agent) (address : Address) : Result string :=
  match assertChain a with
  | Ok c => api_getLabel (chain_api c) address
  | Throw e => Throw e
  end.

Definition Agent_getHash (a : Agent) (address : Address) : Result CodeHash :=
  match assertChain a with
  | Ok c => api_getHash (chain_api c) address
  | Throw e => Throw e
  end.

Definition Agent_checkHash (a : Agent) (address : Address) (codeHash : option CodeHash)
  : Result (CodeHash * list LogLine) :=
  match assertChain a with
  | Ok c => Chain_checkHash c address codeHash
  | Throw e => Throw e
  end.

(** *** Bundle *)

Record Bundle := {
  agent   : Agent;
  chain   : option Chain;
  address : option Address;
  name    : string;
  fees    : option AgentFees;
  depth   : Z;
  msgs    : list (option BundleMsg);
  id      : nat;
  log     : list LogLine
}.

Definition set_depth (d : Z) (b : Bundle) : Bundle :=
  {| agent := agent b; chain := chain b; address := address b; name := name b;
     fees := fees b;
     depth := d; msgs := msgs b; id := id b; log := log b |}.

Definition set_msgs (m : list (option BundleMsg)) (b : Bundle) : Bundle :=
  {| agent := agent b; chain := chain b; address := address b; name := name b;
     fees := fees b;
     depth := depth b; msgs := m; id := id b; log := log b |}.

Definition set_id (n : nat) (b : Bundle) : Bundle :=
  {| agent := agent b; chain := chain b; address := address b; name := name b;
     fees := fees b;
     depth := depth b; msgs := msgs b; id := n; log := log b |}.

Definition put_log (l : LogLine) (b : Bundle) : Bundle :=
  {| agent := agent b; chain := chain b; address := address b; name := name b;
     fees := fees b;
     depth := depth b; msgs := msgs b; id := id b; log := log b ++ [l] |}.

(** [new Bundle(agent)] *)
Definition Bundle_new (a : option Agent) : Result Bundle :=
  match a with
  | None => Throw NoBundleAgent
  | Some a =>
      Ok {| agent := a;
            chain := agent_chain a;
            address := agent_address a;
            name := String_ (agent_name a) +:+ "@BUNDLE";
            fees := agent_fees a;
            depth := 0; msgs := []; id := 0%nat; log := [] |}
  end.

(** [add (msg)]: [const id = this.id++; this.msgs[id] = msg; return id] *)
Definition add (msg : BundleMsg) : M Bundle nat :=
  b ← get;
  let id0 := id b in
  modify (set_id (S id0));;
  modify (λ b, set_msgs (array_set (msgs b) id0 msg) b);;
  mret id0.

(** What [bundle()] and [run()] hand back. *)
Inductive RunResult :=
| ReturnedNull
| Submit (memo : string)   (* the result of [this.submit(memo)] *)
| Save (memo : string).    (* the result of [this.save(memo)] *)

(** [bundle ()]: [this.log.warn('Nest bundles with care. Depth:', ++this.depth); return this] *)
Definition bundle : M Bundle unit :=
  modify (λ b, set_depth (depth b + 1) b);;
  modify (λ b, put_log (warnNest (depth b)) b).

(** [run (memo, save)].  In the nested branch the depth is decremented once
    by the [--this.depth] that is the argument of the log call and once more
    by the statement [this.depth--]. *)
Definition run (memo : string) (save : bool) : M Bundle RunResult :=
  b ← get;
  if 0 <? depth b then
    modify (λ b, set_depth (depth b - 1) b);;
    modify (λ b, put_log (warnUnnest (depth b)) b);;
    modify (λ b, set_depth (depth b - 1) b);;
    mret ReturnedNull
  else if save then mret (Save memo)
  else mret (Submit memo).

(** [assertMessages ()] *)
Definition assertMessages : M Bundle (list (option BundleMsg)) :=
  b ← get;
  if (length (msgs b) <? 1)%nat then throw EmptyBundle else mret (msgs b).

(** Allowed while building a bundle: answered by the wrapped agent. *)
Definition getCodeId (addr : Address) : M Bundle CodeId :=
  b ← get; lift (Agent_getCodeId (agent b) addr).

Definition getLabel (addr : Address) : M Bundle string :=
  b ← get; lift (Agent_getLabel (agent b) addr).

Definition getHash (addr : Address) : M Bundle CodeHash :=
  b ← get; lift (Agent_getHash (agent b) addr).

Definition checkHash (addr : Address) (codeHash : option CodeHash)
  : M Bundle (CodeHash * list LogLine) :=
  b ← get; lift (Agent_checkHash (agent b) addr codeHash).

(** Disallowed in a bundle. *)
Definition balance : M Bundle string := throw (NotInBundle "query balance").
Definition getBalance (denom : string) : M Bundle string :=
  throw (NotInBundle "query balance").
Definition height : M Bundle Z :=
  throw (NotInBundle "query block height inside bundle").
Definition nextBlock : M Bundle Z := throw (NotInBundle "wait for next block").
Definition send (to : Address) (amounts : list ICoin) : M Bundle JsVal :=
  throw (NotInBundle "send").
Definition sendMany (outputs : list (Address * list ICoin)) : M Bundle JsVal :=
  throw (NotInBundle "send").
Definition query (contract : Address) (msg : Message) : M Bundle JsVal :=
  throw (NotInBundle "query").
Definition upload (code : list Z) : M Bundle JsVal := throw (NotInBundle "upload").
Definition uploadMany (code : list (list Z)) : M Bundle JsVal :=
  throw (NotInBundle "upload").

(** [execute ({ address, codeHash }, msg, { send })] *)
Definition execute (c_address : option Address) (c_codeHash : option CodeHash)
    (msg : Message) (send : option (list ICoin)) : M Bundle unit :=
  b ← get;
  add (exec {| exec_sender := address b; exec_contract := c_address;
               exec_codeHash := c_codeHash; exec_msg := msg; exec_funds := send |});;
  mret tt.

(** *** [Chain.getAgent] *)

(** The methods of [this.node] that [getAgent] calls. *)
Record NodeApi := {
  node_respawn           : Result unit;
  node_getGenesisAccount : JsVal → Result (gmap string JsVal)
}.

Inductive NodeCall :=
| Respawn
| GetGenesisAccount (name : JsVal).

(** [options.key] on an options object. *)
Definition option_of (options : gmap string JsVal) (key : string) : JsVal :=
  default JUndefined (options !! key).

(** [getAgent (options?, _Agent)] (lines 240-254) up to the call
    [new _Agent(options)]: what is handed to the constructor, as the value of
    [options.chain] and the other keys of [options].  The state is the list
    of the calls made on the node. *)
Definition Chain_getAgent (c : Chain) (node : NodeApi)
    (options : option (gmap string JsVal))
  : M (list NodeCall) (Chain * gmap string JsVal) :=
  let options := default ∅ options in
  match chain_node c with
  | Some _ => modify (λ calls, calls ++ [Respawn]);; lift (node_respawn node)
  | None => mret tt
  end;;
  options ←
    (if negb (truthy (option_of options "mnemonic")) && truthy (option_of options "name")
     then match chain_node c with
          | None => throw NameOutsideDevnet
          | Some _ =>
              modify (λ calls, calls ++ [GetGenesisAccount (option_of options "name")]);;
              account ← lift (node_getGenesisAccount node (option_of options "name"));
              (* [{ ...options, ...account }] *)
              mret (account ∪ options)
          end
     else mret options);
  mret (c, delete "chain" options).

(** *** [Bundle.wrap] and sequences of calls on a bundle *)

(** [wrap (cb, opts = { memo: '' }, save = false)] (lines 466-473); [memo] is
    [opts.memo], and [run] defaults it to the empty string. *)
Definition wrap (cb : M Bundle unit) (memo : option string) (save : bool)
  : M Bundle RunResult :=
  cb;; run (default "" memo) save.

(** The arguments of one [execute] call. *)
Record ExecCall := {
  ec_address  : option Address;
  ec_codeHash : option CodeHash;
  ec_msg      : Message;
  ec_send     : option (list ICoin)
}.

(** The record that [execute] writes for a call. *)
Definition exec_of (b : Bundle) (c : ExecCall) : BundleMsg :=
  exec {| exec_sender := address b; exec_contract := ec_address c;
          exec_codeHash := ec_codeHash c; exec_msg := ec_msg c;
          exec_funds := ec_send c |}.

(** A callback that makes the given [execute] calls, one after the other. *)
Fixpoint executes (cs : list ExecCall) : M Bundle unit :=
  match cs with
  | [] => mret tt
  | c :: cs =>
      execute (ec_address c) (ec_codeHash c) (ec_msg c) (ec_send c);;
      executes cs
  end.

(** The calls that can be made on a bundle while it collects messages. *)
Inductive Op :=
| OpAdd (msg : BundleMsg)
| OpExecute (c : ExecCall)
| OpBundle
| OpRun (memo : string) (save : bool).

Definition do_op (o : Op) (b : Bundle) : Bundle :=
  match o with
  | OpAdd msg => (add msg b).2
  | OpExecute c => (execute (ec_address c) (ec_codeHash c) (ec_msg c) (ec_send c) b).2
  | OpBundle => (bundle b).2
  | OpRun memo save => (run memo save b).2
  end.

Definition do_ops (ops : list Op) (b : Bundle) : Bundle :=
  foldl (λ b o, do_op o b) b ops.

(** The message a call leaves in the log, if it leaves one. *)
Definition message_of (b : Bundle) (o : Op) : option BundleMsg :=
  match o with
  | OpAdd msg => Some msg
  | OpExecute c => Some (exec_of b c)
  | OpBundle | OpRun _ _ => None
  end.

(** The bundles on which the next id is the length of the log and the log
    has no holes. *)
Definition dense (b : Bundle) : Prop :=
  id b = length (msgs b) ∧ Forall is_Some (msgs b).

End Connect.

(** ** The single-file client package ([packages/client/client.ts]) *)

Module Client.

Record Template := {
  uploadTx : option TxHash;
  chainId  : option ChainId;
  codeId   : option CodeId;
  codeHash : option CodeHash
}.

(** [Instance extends Template]; [i_address = None] is the [null] address of
    an instance that a bundle has not broadcast yet. *)
Record Instance := {
  i_uploadTx : option TxHash;
  i_chainId  : option ChainId;
  i_codeId   : option CodeId;
  i_codeHash : option CodeHash;
  i_address  : option Address;
  i_label    : option Label
}.

(** The agent as the bundle and the client read it. *)
Record Agent := {
  agent_chain_id : ChainId;
  agent_address  : option Address;
  agent_name     : option string;
  agent_fees     : option AgentFees
}.

Record Bundle := {
  agent : Agent;
  depth : Z;
  id    : nat;
  msgs  : list (option BundleMsg)
}.

Definition Bundle_new (a : Agent) : Bundle :=
  {| agent := a; depth := 0; id := 0%nat; msgs := [] |}.

(** [get address () { return this.agent.address }] *)
Definition address (b : Bundle) : option Address := agent_address (agent b).

(** [add (msg)]: [const id = this.id++; this.msgs[id] = msg; return id] *)
Definition add (msg : BundleMsg) : M Bundle nat :=
  b ← get;
  let id0 := id b in
  modify (λ b, {| agent := agent b; depth := depth b; id := S id0; msgs := msgs b |});;
  modify (λ b, {| agent := agent b; depth := depth b; id := id b;
                  msgs := array_set (msgs b) id0 msg |});;
  mret id0.

(** [init (template, label, msg, funds = [])] *)
Definition init_ (template : Template) (label : Label) (msg : Message)
    (funds : list ICoin) : M Bundle unit :=
  b ← get;
  add (init {| init_sender := address b;
               init_codeId := String_ (codeId template);
               init_codeHash := codeHash template;
               init_label := label;
               init_msg := msg;
               init_funds := funds |});;
  mret tt.

(** [instantiate (template, label, msg, init_funds = [])] *)
Definition instantiate (template : Template) (label : Label) (msg : Message)
    (init_funds : list ICoin) : M Bundle Instance :=
  init_ template label msg init_funds;;
  b ← get;
  mret {| i_uploadTx := None;
          i_chainId := Some (agent_chain_id (agent b));
          i_codeId := codeId template;
          i_codeHash := codeHash template;
          i_address := None;
          i_label := None |}.

(** [execute (instance, msg, { send } = {})] *)
Definition execute (instance : Instance) (msg : Message)
    (send : option (list ICoin)) : M Bundle unit :=
  b ← get;
  add (exec {| exec_sender := address b;
               exec_contract := i_address instance;
               exec_codeHash := i_codeHash instance;
               exec_msg := msg;
               exec_funds := send |});;
  mret tt.

(** What [run()] hands back. *)
Inductive RunResult :=
| ReturnedNull
| Submit (memo : string).  (* the result of [this.submit(memo)] *)

(** [bundle ()]: [console.warn('Nest bundles with care. Depth:', ++this.depth)] *)
Definition bundle : M Bundle unit :=
  modify (λ b, {| agent := agent b; depth := depth b + 1; id := id b; msgs := msgs b |}).

(** [run (memo)]; as in the newer class, [--this.depth] in the log call and
    then [this.depth--]. *)
Definition run (memo : string) : M Bundle RunResult :=
  b ← get;
  if 0 <? depth b then
    modify (λ b, {| agent := agent b; depth := depth b - 1; id := id b; msgs := msgs b |});;
    modify (λ b, {| agent := agent b; depth := depth b - 1; id := id b; msgs := msgs b |});;
    mret ReturnedNull
  else mret (Submit memo).

(** The calls made on a bundle while it collects messages. *)
Inductive Call :=
| CallInstantiate (template : Template) (label : Label) (msg : Message) (funds : list ICoin)
| CallExecute (instance : Instance) (msg : Message) (send : option (list ICoin))
| CallBundle
| CallRun (memo : string).

(** The record a call is expected to leave in the log of bundle [b]:
    [instantiate] and [execute] leave one, nesting leaves none. *)
Definition record_of (b : Bundle) (c : Call) : option BundleMsg :=
  match c with
  | CallInstantiate t l m f =>
      Some (init {| init_sender := address b; init_codeId := String_ (codeId t);
                    init_codeHash := codeHash t; init_label := l; init_msg := m;
                    init_funds := f |})
  | CallExecute i m s =>
      Some (exec {| exec_sender := address b; exec_contract := i_address i;
                    exec_codeHash := i_codeHash i; exec_msg := m; exec_funds := s |})
  | CallBundle | CallRun _ => None
  end.

Definition do_call (c : Call) (b : Bundle) : Bundle :=
  match c with
  | CallInstantiate t l m f => (instantiate t l m f b).2
  | CallExecute i m s => (execute i m s b).2
  | CallBundle => (bundle b).2
  | CallRun memo => (run memo b).2
  end.

Definition do_calls (cs : list Call) (b : Bundle) : Bundle :=
  foldl (λ b c, do_call c b) b cs.

(** *** [Client] *)

Record Client := {
  c_agent_fees : option AgentFees;     (* [this.agent.fees] *)
  c_name       : option string;
  c_label      : option Label;
  c_address    : option Address;
  c_codeHash   : option CodeHash;
  c_codeId     : option CodeId;
  c_fee        : option IFee;
  c_fees       : gmap string IFee      (* the own properties of [this.fees] *)
}.

(** What [this.fees[key]] gives: a fee of the map, or a member that the fees
    object inherits.  The class makes [fees] a plain object ([fees = {}],
    line 496, filled by [Object.assign], line 476), so a key that is no own
    property is looked up in [Object.prototype]. *)
Inductive FeeVal :=
| Fee (fee : IFee)
| Inherited (member : string).

(** The names of the members of [Object.prototype].  Each of them is a
    function, or for [__proto__] the prototype itself: a truthy value. *)
Definition Object_prototype : list string :=
  ["constructor"; "__defineGetter__"; "__defineSetter__"; "hasOwnProperty";
   "__lookupGetter__"; "__lookupSetter__"; "isPrototypeOf";
   "propertyIsEnumerable"; "toString"; "valueOf"; "__proto__";
   "toLocaleString"].

(** [fees[key]]: an own property first, then the prototype, else
    [undefined]. *)
Definition fees_get (fees : gmap string IFee) (key : string) : option FeeVal :=
  match fees !! key with
  | Some fee => Some (Fee fee)
  | None => if bool_decide (key ∈ Object_prototype) then Some (Inherited key) else None
  end.

(** [getFee (msg?)] (lines 498-510).  A message is a string or an object,
    as the parameter is typed; a fee object is truthy, and so is an inherited
    member. *)
Definition getFee (c : Client) (msg : option Message) : Result (option FeeVal) :=
  let defaultFee := Fee <$> or_else (c_fee c) (c_agent_fees c ≫= fees_exec) in
  match msg with
  | Some (MsgStr s) => Ok (or_else (fees_get (c_fees c) s) defaultFee)
  | Some (MsgObj entries) =>
      let keys := entries.*1 in
      if negb (length keys =? 1)%nat
      then Throw (PlainError "Client#getFee: messages must have exactly 1 root key")
      else Ok (or_else (fees_get (c_fees c) (String_ (head keys))) defaultFee)
  | None => Ok (or_else (Fee <$> c_fee c) defaultFee)
  end.

(** *** More of [Bundle] *)

(** [instantiateMany (configs)] (lines 350-353): [configs.map] calls
    [this.instantiate] on each triple in turn, and each call writes its record
    before the next one is made; [Promise.all] keeps the order of the
    results. *)
Fixpoint instantiateMany (configs : list (Template * Label * Message))
  : M Bundle (list Instance) :=
  match configs with
  | [] => mret []
  | (template, label, initMsg) :: rest =>
      instance ← instantiate template label initMsg [];
      instances ← instantiateMany rest;
      mret (instance :: instances)
  end.

(** The record that [instantiateMany] is expected to leave for a triple. *)
Definition init_of (b : Bundle) (config : Template * Label * Message) : BundleMsg :=
  let '(template, label, initMsg) := config in
  init {| init_sender := address b; init_codeId := String_ (codeId template);
          init_codeHash := codeHash template; init_label := label;
          init_msg := initMsg; init_funds := [] |}.

(** The instance that [instantiate] returns for a triple on a bundle of
    agent [a]. *)
Definition provisional (a : Agent) (config : Template * Label * Message) : Instance :=
  {| i_uploadTx := None; i_chainId := Some (agent_chain_id a);
     i_codeId := codeId config.1.1; i_codeHash := codeHash config.1.1;
     i_address := None; i_label := None |}.

(** *** More of [Client] *)

(** [ClientOptions extends Instance]: the object form of the argument of the
    constructor. *)
Record ClientOptions := {
  co_address  : option Address;
  co_name     : option string;
  co_label    : option Label;
  co_codeHash : option CodeHash;
  co_codeId   : option CodeId;
  co_fee      : option IFee;
  co_fees     : option (gmap string IFee)
}.

Inductive ClientArg :=
| ArgAddress (address : Address)
| ArgOptions (options : ClientOptions).

(** [a || b] on optional strings. *)
Definition or_str (a b : option string) : option string :=
  if truthy_str a then a else b.

(** [Object.assign(target, source)] on fees objects, the target being
    plain.  Every own property of the source is assigned to the target.
    Assigning [__proto__] to a target that has no such property of its own
    runs the setter of [Object.prototype], which makes the fee the prototype
    of the target instead of adding a property; the target is then no plain
    object any more, which [None] stands for. *)
Definition assign (target source : gmap string IFee) : option (gmap string IFee) :=
  match source !! "__proto__", target !! "__proto__" with
  | Some _, None => None
  | _, _ => Some (source ∪ target)
  end.

(** [new Client(agent, arg)] (lines 466-478).  Of the agent the record keeps
    what [getFee] reads, [agent.fees].  When the body of the constructor
    runs, the fields without initialiser are [undefined] and [fees] is the
    empty object.  The result is [None] when [fees] ends up with another
    prototype (see [assign]). *)
Definition Client_new (agent_fees : option AgentFees) (arg : ClientArg) : option Client :=
  match arg with
  | ArgAddress address =>
      Some {| c_agent_fees := agent_fees; c_name := None; c_label := None;
              c_address := Some address; c_codeHash := None; c_codeId := None;
              c_fee := None; c_fees := ∅ |}
  | ArgOptions arg =>
      (* [Object.assign(this.fees||{}, arg.fees||{})] *)
      fees ← assign ∅ (default ∅ (co_fees arg));
      Some {| c_agent_fees := agent_fees;
              c_address  := co_address arg;
              c_name     := or_str (co_name arg) None;
              c_label    := or_str (co_label arg) None;
              c_codeHash := or_str (co_codeHash arg) None;
              c_codeId   := or_str (co_codeId arg) None;
              c_fee      := or_else (co_fee arg) None;
              c_fees     := fees |}
  end.

(** [{...this}]: the own properties of a client that the constructor reads
    back. *)
Definition spread (c : Client) : ClientOptions :=
  {| co_address := c_address c; co_name := c_name c; co_label := c_label c;
     co_codeHash := c_codeHash c; co_codeId := c_codeId c; co_fee := c_fee c;
     co_fees := Some (c_fees c) |}.

Definition with_fee (fee : option IFee) (fees : gmap string IFee)
    (o : ClientOptions) : ClientOptions :=
  {| co_address := co_address o; co_name := co_name o; co_label := co_label o;
     co_codeHash := co_codeHash o; co_codeId := co_codeId o; co_fee := fee;
     co_fees := Some fees |}.

(** [withFee (fee)] (lines 537-544) *)
Definition withFee (fee : option IFee) (c : Client) : option Client :=
  match fee with
  | Some fee => Client_new (c_agent_fees c) (ArgOptions (with_fee (Some fee) ∅ (spread c)))
  | None => Client_new (c_agent_fees c)
              (ArgOptions (with_fee (c_fee c) (c_fees c) (spread c)))
  end.

(** [withAgent (agent)] (lines 546-549) *)
Definition withAgent (agent : Agent) (c : Client) : option Client :=
  Client_new (agent_fees agent) (ArgOptions (spread c)).

(** [ExecOpts].  The fee is typed [IFee]; what [execute] puts there is what
    [getFee] returned. *)
Record ExecOpts := {
  eo_fee  : option FeeVal;
  eo_send : option (list ICoin);
  eo_memo : option string
}.

(** [execute (msg, opt = {})] (lines 516-519).  [agent_execute] is the
    [execute] of the agent; the state is the list of the transactions handed
    to it. *)
Definition Client_execute
    (agent_execute : Client → Message → ExecOpts → Result JsVal)
    (c : Client) (msg : Message) (opt : ExecOpts)
  : M (list (Message * ExecOpts)) JsVal :=
  (* [opt.fee = opt.fee || this.getFee(msg)] *)
  fee ← match eo_fee opt with
        | Some fee => mret (Some fee)
        | None => lift (getFee c (Some msg))
        end;
  let opt := {| eo_fee := fee; eo_send := eo_send opt; eo_memo := eo_memo opt |} in
  modify (λ sent, sent ++ [(msg, opt)]);;
  lift (agent_execute c msg opt).

End Client.

(** ** The devnet supervisor ([Devnet], base class) *)

Module Devnet.

(** A stored port is [number|string]. *)
Inductive PortVal := PortNum (n : Z) | PortStr (s : string).

(** [DevnetState]: the content of [devnet.json]. *)
Record DevnetState := {
  st_containerId : option string;
  st_chainId     : string;
  st_host        : option string;
  st_port        : PortVal
}.

(** A file of the state directory: one that [JSONFile.load] reads into a
    state, or one on which it throws. *)
Inductive File :=
| Json (data : DevnetState)
| Unreadable (e : Error).

(** The state directory: absent, or a directory of named files. *)
Record FS := { stateRoot : option (gmap string File) }.

Inductive LogLine :=
| loadingState (stored configured : string)
| loadingFailed
| loadingRejected.

Record Devnet := {
  ephemeral : bool;
  chainId   : ChainId;
  protocol  : string;
  host      : string;
  port      : PortVal;
  portMode  : option string;
  genesisAccounts : list string
}.

Definition set_port (p : PortVal) (d : Devnet) : Devnet :=
  {| ephemeral := ephemeral d; chainId := chainId d; protocol := protocol d;
     host := host d; port := p; portMode := portMode d;
     genesisAccounts := genesisAccounts d |}.

(** The devnet object together with the file system it works on. *)
Record World := { dev : Devnet; fs : FS; log : list LogLine }.

Definition put_log (l : LogLine) (w : World) : World :=
  {| dev := dev w; fs := fs w; log := log w ++ [l] |}.

(** [this.nodeState]: the file [devnet.json] under the state root. *)
Definition nodeState (w : World) : option File :=
  stateRoot (fs w) ≫= λ dir, dir !! "devnet.json".

(** [this.stateRoot.delete()] *)
Definition delete_stateRoot (w : World) : World :=
  {| dev := dev w; fs := {| stateRoot := None |}; log := log w |}.

(** [JSONFile.load()]: reading a file that is not there throws as well. *)
Definition JSONFile_load (f : option File) : Result DevnetState :=
  match f with
  | Some (Json data) => Ok data
  | Some (Unreadable e) => Throw e
  | None => Throw (BackendError "ENOENT")
  end.

(** [async load (): Promise<DevnetState|null>] *)
Definition load : M World (option DevnetState) :=
  w ← get;
  if bool_decide (is_Some (stateRoot (fs w))) && bool_decide (is_Some (nodeState w)) then
    (* try *)
    match JSONFile_load (nodeState w) with
    | Ok data =>
        (if negb (String.eqb (chainId (dev w)) (st_chainId data))
         then modify (put_log (loadingState (st_chainId data) (chainId (dev w))))
         else mret tt);;
        modify (λ w, {| dev := set_port (st_port data) (dev w); fs := fs w; log := log w |});;
        mret (Some data)
    | Throw e =>
        (* catch (e) *)
        modify (put_log loadingFailed);;
        modify delete_stateRoot;;
        throw e
    end
  else
    modify (put_log loadingRejected);;
    mret None.

(** *** Construction and [save] *)

(** [DevnetOpts] *)
Record DevnetOpts := {
  o_chainId    : option string;
  o_identities : option (list string);
  o_stateRoot  : option string;
  o_host       : option string;
  o_port       : option Z;
  o_portMode   : option string;
  o_ephemeral  : option bool
}.

(** Where the state is kept: the given path, or [$('state', chainId)]. *)
Inductive StatePath :=
| PathGiven (path : string)
| PathDefault (chainId : string).

(** [Error.Devnet.NoChainId] of the ops package (not the [NoChainId] of the
    client package). *)
Definition DevnetNoChainId : Error := PlainError "Devnet.NoChainId".

(** [new Devnet(options?)] (lines 559-578): the object and the place of its
    state directory.  [env_host] is [process.env.FADROMA_DEVNET_HOST]. *)
Definition Devnet_new (env_host : option string) (options : option DevnetOpts)
  : Result (Devnet * StatePath) :=
  let get {A} (f : DevnetOpts → option A) : option A := options ≫= f in
  let chainId := default "fadroma-devnet" (get o_chainId) in
  if negb (truthy_str (Some chainId)) then Throw DevnetNoChainId else
  let portMode := get o_portMode in
  Ok ({| ephemeral := default false (get o_ephemeral);
         chainId := chainId;
         protocol := "http";
         host := default (default "localhost" env_host) (get o_host);
         portMode := portMode;
         port := PortNum (default (if bool_decide (portMode = Some "lcp")
                                   then 1317 else 9091) (get o_port));
         genesisAccounts := default ["Admin"; "Alice"; "Bob"; "Charlie"; "Mallory"]
                                    (get o_identities) |},
      if truthy_str (get o_stateRoot)
      then PathGiven (default "" (get o_stateRoot))
      else PathDefault chainId).

(** The [extraData] of [save], as far as it has fields of [DevnetState]. *)
Record ExtraData := {
  x_containerId : option string;
  x_chainId     : option string;
  x_host        : option string;
  x_port        : option PortVal
}.

(** [JSONFile.save(data)] of the file library (a dependency, not among the
    sources): the parent directory is made if it is missing, and the file is
    written, replacing what was there. *)
Definition JSONFile_save (data : DevnetState) (w : World) : World :=
  {| dev := dev w;
     fs := {| stateRoot := Some (<["devnet.json" := Json data]>
                                   (default ∅ (stateRoot (fs w)))) |};
     log := log w |}.

(** [save (extraData = {})] (lines 624-628):
    [{ chainId: this.chainId, port: this.port, ...extraData }] *)
Definition save (extraData : ExtraData) : M World unit :=
  w ← get;
  let data := {| st_containerId := x_containerId extraData;
                 st_chainId := default (chainId (dev w)) (x_chainId extraData);
                 st_host := x_host extraData;
                 st_port := default (port (dev w)) (x_port extraData) |} in
  modify (JSONFile_save data).

Definition no_extra : ExtraData :=
  {| x_containerId := None; x_chainId := None; x_host := None; x_port := None |}.

(** The empty options object. *)
Definition no_options : DevnetOpts :=
  {| o_chainId := None; o_identities := None; o_stateRoot := None; o_host := None;
     o_port := None; o_portMode := None; o_ephemeral := None |}.

End Devnet.

(** ** The contract lifecycle ([ContractTemplate], [Contract]) *)

Module Contract.

(** A contract object is indexed by computed keys ([override], [matches]),
    so it is a finite map from property names to values. *)
Definition prop (o : gmap string JsVal) (key : string) : JsVal :=
  default JUndefined (o !! key).

(** [x ?? y] *)
Definition nullish (v : JsVal) : bool :=
  match v with JUndefined | JNull => true | _ => false end.
Definition coalesce (x y : JsVal) : JsVal := if nullish x then y else x.

(** [`${v}`] *)
Definition to_string (v : JsVal) : string :=
  match v with
  | JUndefined => "undefined"
  | JNull => "null"
  | JBool true => "true"
  | JBool false => "false"
  | JNum n => pretty n
  | JStr s => s
  | JRef _ => "[object Object]"
  end.

(** The two classes: [ContractTemplate] (part_006, lines 35-163) and
    [Contract] (lines 599-763; the getters and [deploy] of the [Contract] of
    lines 173-345 read the same). *)
Inductive Class := ClsTemplate | ClsContract.

#[global] Instance Class_eq_dec : EqDecision Class.
Proof. solve_decision. Defined.

Inductive Stage := StBuild | StUpload | StDeploy.

#[global] Instance Stage_eq_dec : EqDecision Stage.
Proof. solve_decision. Defined.

(** What a task or a getter resolves to: the object itself, or a client
    [new $C(agent, address, codeHash, this)]. *)
Record ClientVal := { cl_agent : JsVal; cl_address : JsVal; cl_codeHash : JsVal }.

Inductive Value :=
| VThis
| VClient (c : ClientVal).

(** Modelled from the spec: the task object made by [defineTask] (module
    [core-fields] and the task library are missing).  The spec has a task as
    a memoized promise: its body runs at most once, when the task is first
    awaited, and the outcome is kept for every later caller. *)
Record Task := {
  task_name   : string;
  task_stage  : Stage;
  task_arg    : JsVal;                    (* [initMsg] captured by [deploy] *)
  task_result : option (Result Value)
}.

(** Calls that leave the object: the work of the three stages, and the
    registration with the deployment. *)
Inductive Call :=
| CBuild
| CUpload
| CInstantiate
| CRegister (id : JsVal).

#[global] Instance Call_eq_dec : EqDecision Call.
Proof. solve_decision. Defined.

(** The object and what hangs off it.  [own_uploaded] and [own_deployed] are
    the accessors that [Object.defineProperty] installs on the object; they
    shadow the getters of the class. *)
Record World := {
  cls          : Class;
  this         : gmap string JsVal;
  own_uploaded : option nat;
  own_deployed : option nat;
  tasks        : list Task;
  calls        : list Call
}.

Definition set_this (o : gmap string JsVal) (w : World) : World :=
  {| cls := cls w; this := o; own_uploaded := own_uploaded w;
     own_deployed := own_deployed w; tasks := tasks w; calls := calls w |}.
Definition set_own_uploaded (t : nat) (w : World) : World :=
  {| cls := cls w; this := this w; own_uploaded := Some t;
     own_deployed := own_deployed w; tasks := tasks w; calls := calls w |}.
Definition set_own_deployed (t : nat) (w : World) : World :=
  {| cls := cls w; this := this w; own_uploaded := own_uploaded w;
     own_deployed := Some t; tasks := tasks w; calls := calls w |}.
Definition set_tasks (ts : list Task) (w : World) : World :=
  {| cls := cls w; this := this w; own_uploaded := own_uploaded w;
     own_deployed := own_deployed w; tasks := ts; calls := calls w |}.
Definition put_call (c : Call) (w : World) : World :=
  {| cls := cls w; this := this w; own_uploaded := own_uploaded w;
     own_deployed := own_deployed w; tasks := tasks w; calls := calls w ++ [c] |}.

(** A newly constructed object: nothing installed, nothing started. *)
Definition World_new (c : Class) (fields : gmap string JsVal) : World :=
  {| cls := c; this := fields; own_uploaded := None; own_deployed := None;
     tasks := []; calls := [] |}.

(** What a getter returns: an already resolved promise, or a task. *)
Inductive Thenable :=
| Resolved (v : Value)
| Pending (t : nat).

(** Modelled from the spec: [defineTask(name, body, this)] of the missing
    module [core-fields] makes a new task object and runs nothing yet. *)
Definition defineTask (name : string) (stage : Stage) (arg : JsVal) : M World nat :=
  w ← get;
  let t := length (tasks w) in
  modify (set_tasks (tasks w ++ [{| task_name := name; task_stage := stage;
                                    task_arg := arg; task_result := None |}]));;
  mret t.

(** [build ()] *)
Definition build : M World nat :=
  w ← get;
  defineTask ("compile " +:+ to_string (coalesce (prop (this w) "crate") (JStr "contract")))
             StBuild JUndefined.

(** [get compiled ()] *)
Definition compiled : M World Thenable :=
  w ← get;
  if truthy (prop (this w) "artifact") then mret (Resolved VThis)
  else t ← build; mret (Pending t).

(** [upload ()] *)
Definition upload : M World nat :=
  w ← get;
  defineTask ("upload " +:+ to_string (coalesce (prop (this w) "artifact")
                             (coalesce (prop (this w) "crate") (JStr "contract"))))
             StUpload JUndefined.

(** [get uploaded ()] *)
Definition uploaded : M World Thenable :=
  w ← get;
  match own_uploaded w with
  | Some uploading => mret (Pending uploading)
  | None =>
      if truthy (prop (this w) "codeId") then mret (Resolved VThis)
      else
        uploading ← upload;
        modify (set_own_uploaded uploading);;
        mret (Pending uploading)
  end.

(** [new $C(this.agent, this.address, this.codeHash, this)] *)
Definition client_of (o : gmap string JsVal) : ClientVal :=
  {| cl_agent := prop o "agent"; cl_address := prop o "address";
     cl_codeHash := prop o "codeHash" |}.

(** A parameter with a default value: the default stands in for a missing
    or [undefined] argument. *)
Definition default_param (arg dflt : JsVal) : JsVal :=
  if bool_decide (arg = JUndefined) then dflt else arg.

(** [deploy (initMsg = this.initMsg)] (lines 287-288) *)
Definition deploy (initMsg : JsVal) : M World nat :=
  w ← get;
  defineTask ("deploy " +:+ to_string (coalesce (prop (this w) "id") (JStr "contract")))
             StDeploy (default_param initMsg (prop (this w) "initMsg")).

(** [get deployed ()] *)
Definition deployed : M World Thenable :=
  w ← get;
  match own_deployed w with
  | Some deploying => mret (Pending deploying)
  | None =>
      if truthy (prop (this w) "address")
      then mret (Resolved (VClient (client_of (this w))))
      else
        deploying ← deploy JUndefined;
        modify (set_own_deployed deploying);;
        mret (Pending deploying)
  end.

(** The collaborators of the lifecycle that live in other source units
    ([core-fields], [core-labels], [core-build], [core-upload]) and the
    backend objects (builder, agent). *)
Record Env := {
  override          : gmap string JsVal → gmap string JsVal → gmap string JsVal;
  writeLabel        : gmap string JsVal → JsVal;
  into              : JsVal → Result JsVal;
  assertBuilder     : gmap string JsVal → Result JsVal;
  Builder_build     : JsVal → gmap string JsVal → Result (gmap string JsVal);
  core_upload       : gmap string JsVal → Result (gmap string JsVal);
  Agent_instantiate : JsVal → gmap string JsVal → Result (gmap string JsVal)
}.

Section Lifecycle.
Variable E : Env.

(** [define (options)]: [return override(this, options)] *)
Definition define (options : gmap string JsVal) : M World unit :=
  modify (λ w, set_this (override E (this w) options) w).

(** Record the outcome of task [t]. *)
Definition settle (t : nat) (r : Result Value) (w : World) : World :=
  set_tasks (alter (λ task, {| task_name := task_name task;
                               task_stage := task_stage task;
                               task_arg := task_arg task;
                               task_result := Some r |}) t (tasks w)) w.

(** Modelled from the spec: [await task] for the tasks of the missing task
    library.  A settled task hands back its outcome; a new one runs its body
    first.  What the body changed before throwing stays changed. *)
Definition await_task (body : JsVal → M World Value) (t : nat) : M World Value :=
  λ w, match tasks w !! t with
       | None => (Throw (PlainError "not a task"), w)
       | Some task =>
           match task_result task with
           | Some r => (r, w)
           | None => let '(r, w') := body (task_arg task) w in (r, settle t r w')
           end
       end.

Definition await (body : JsVal → M World Value) (th : Thenable) : M World Value :=
  match th with
  | Resolved v => mret v
  | Pending t => await_task body t
  end.

(** [buildContract]: the body of the task of [build()].  Only
    [ContractTemplate.build] checks the crate (lines 114-120); the body in
    [Contract] (lines 687-692) starts at [assertBuilder]. *)
Definition buildContract : M World Value :=
  w ← get;
  (if bool_decide (cls w = ClsTemplate) && negb (truthy (prop (this w) "crate"))
   then throw NoCrate else mret tt);;
  builder ← lift (assertBuilder E (this w));
  modify (put_call CBuild);;
  result ← lift (Builder_build E builder (this w));
  define result;;
  mret VThis.

(** [await this.compiled] *)
Definition await_compiled : M World Value :=
  th ← compiled; await (λ _, buildContract) th.

(** [uploadContract]: the body of the task of [upload()]. *)
Definition uploadContract : M World Value :=
  await_compiled;;
  w ← get;
  modify (put_call CUpload);;
  result ← lift (core_upload E (this w));
  define result;;
  mret VThis.

(** [await this.uploaded] *)
Definition await_uploaded : M World Value :=
  th ← uploaded; await (λ _, uploadContract) th.

(** [deployContract]: the body of the task of [deploy(initMsg)]. *)
Definition deployContract (initMsg : JsVal) : M World Value :=
  w ← get;
  if negb (truthy (prop (this w) "agent")) then throw NoAgent else
  if negb (truthy (prop (this w) "id")) then throw NoName else
  modify (λ w, set_this (<["label" := writeLabel E (this w)]> (this w)) w);;
  w ← get;
  if negb (truthy (prop (this w) "label")) then throw NoInitLabel else
  if negb (truthy (prop (this w) "initMsg")) then throw NoInitMessage else
  await_uploaded;;
  w ← get;
  if negb (truthy (prop (this w) "codeId")) then throw NoInitCodeId else
  (if nullish (prop (this w) "initMsg")
   then v ← lift (into E initMsg);
        modify (λ w, set_this (<["initMsg" := v]> (this w)) w)
   else mret tt);;
  w ← get;
  modify (put_call CInstantiate);;
  contract ← lift (Agent_instantiate E (prop (this w) "agent") (this w));
  define contract;;
  w ← get;
  (if truthy (prop (this w) "context")
   then modify (put_call (CRegister (prop (this w) "id")))
   else mret tt);;
  w ← get;
  mret (VClient (client_of (this w))).

(** The three stage properties, read ([x.p]) or read and awaited
    ([await x.p]). *)
Inductive Property := Compiled | Uploaded | Deployed.

Definition read (p : Property) : M World Thenable :=
  match p with
  | Compiled => compiled
  | Uploaded => uploaded
  | Deployed => deployed
  end.

(** [await this.deployed] *)
Definition await_deployed : M World Value :=
  th ← deployed; await deployContract th.

Definition read_await (p : Property) : M World Value :=
  match p with
  | Compiled => await_compiled
  | Uploaded => await_uploaded
  | Deployed => await_deployed
  end.

Inductive Op :=
| Read (p : Property)
| Await (p : Property).

Definition step (w : World) (op : Op) : World :=
  match op with
  | Read p => (read p w).2
  | Await p => (read_await p w).2
  end.

Definition steps (ops : list Op) (w : World) : World := foldl step w ops.

(** [x.build()] (resp. [x.deploy()]) followed by [await] of the task. *)
Definition build_await : M World Value :=
  t ← build; await_task (λ _, buildContract) t.

Definition deploy_await (initMsg : JsVal) : M World Value :=
  t ← deploy initMsg; await_task deployContract t.

(** The world in which the task of [deploy(initMsg)] awaits the upload
    stage: the task is there and the label is written. *)
Definition at_upload (initMsg : JsVal) (w : World) : World :=
  set_this (<["label" := writeLabel E (this w)]> (this w)) (deploy initMsg w).2.

End Lifecycle.

(** *** Counting the work of a stage *)

Definition stages (w : World) : list Stage := task_stage <$> tasks w.

(** The number of tasks of stage [s] made so far, and the number of calls
    of kind [c] made so far. *)
Definition cnt_stage (s : Stage) (w : World) : nat :=
  length (filter (λ s', s' = s) (stages w)).

Definition cnt_call (c : Call) (w : World) : nat :=
  length (filter (λ c', c' = c) (calls w)).

Definition settled (t : nat) (w : World) : Prop :=
  ∃ task r, tasks w !! t = Some task ∧ task_result task = Some r.

(** The two memoized stages, each with its accessor, the stage of its task
    and the call its task makes. *)
Inductive Side := SideUpload | SideDeploy.

Definition own_of (side : Side) (w : World) : option nat :=
  match side with
  | SideUpload => own_uploaded w
  | SideDeploy => own_deployed w
  end.

Definition stage_of (side : Side) : Stage :=
  match side with
  | SideUpload => StUpload
  | SideDeploy => StDeploy
  end.

Definition call_of (side : Side) : Call :=
  match side with
  | SideUpload => CUpload
  | SideDeploy => CInstantiate
  end.

(** What holds of a stage in every world reached by reading and awaiting
    the stage properties of a new object: no task and no call while the
    accessor is not installed; afterwards the one task the accessor holds,
    and no call before that task has run, one call at most after. *)
Definition side_inv (side : Side) (w : World) : Prop :=
  match own_of side w with
  | None => cnt_stage (stage_of side) w = 0%nat ∧ cnt_call (call_of side) w = 0%nat
  | Some t =>
      stages w !! t = Some (stage_of side) ∧
      cnt_stage (stage_of side) w = 1%nat ∧
      (cnt_call (call_of side) w = 0%nat ∨
       (cnt_call (call_of side) w = 1%nat ∧ settled t w))
  end.

Definition Inv (w : World) : Prop := ∀ side, side_inv side w.

(** A step that leaves a stage alone. *)
Definition side_frame (side : Side) (w w' : World) : Prop :=
  own_of side w' = own_of side w ∧
  cnt_stage (stage_of side) w' = cnt_stage (stage_of side) w ∧
  cnt_call (call_of side) w' = cnt_call (call_of side) w ∧
  (∀ t, stages w !! t = Some (stage_of side) → tasks w' !! t = tasks w !! t).

(** A step that makes at most one call of a stage and leaves its tasks
    alone. *)
Definition side_step (side : Side) (w w' : World) : Prop :=
  own_of side w' = own_of side w ∧
  cnt_stage (stage_of side) w' = cnt_stage (stage_of side) w ∧
  (cnt_call (call_of side) w' = cnt_call (call_of side) w ∨
   cnt_call (call_of side) w' = S (cnt_call (call_of side) w)) ∧
  (∀ t, stages w !! t = Some (stage_of side) → tasks w' !! t = tasks w !! t).

(** An installed accessor stays installed. *)
Definition own_mono (w w' : World) : Prop :=
  ∀ side t, own_of side w = Some t → own_of side w' = Some t.

(** *** [matches] *)

(** What [this[key]] and [predicate[key]] hold, as far as [!==] tells them
    apart: a primitive or an object held by a field, the task object [t], a
    method of the class, or an object that the read itself makes (a promise,
    a link, a new task), which is identical to nothing that was there
    before. *)
Inductive Member :=
| MVal (v : JsVal)
| MTask (t : nat)
| MMethod (name : string)
| MFresh.

(** [a !== b] *)
Definition differs (a b : Member) : bool :=
  match a, b with
  | MVal x, MVal y => strict_neq x y
  | MTask t, MTask t' => negb (bool_decide (t = t'))
  | MMethod n, MMethod n' => negb (bool_decide (n = n'))
  | _, _ => true
  end.

(** The methods of the class [Contract] of lines 173-345. *)
Definition methods : list string := ["constructor"; "deploy"; "matches"; "many"].

(** [assertAddress] ([client-fields], lines 71-74) *)
Definition assertAddress (o : gmap string JsVal) : Result JsVal :=
  if negb (truthy (prop o "address")) then Throw LinkNoAddress
  else Ok (prop o "address").

Section Matches.
(** [codeHashOf] of the missing module [core-code], and the members that the
    object inherits from the bases that are not among the sources (the
    callable of [defineCallable], [Metadata]): [None] for a name that they
    do not have. *)
Variable codeHashOf : gmap string JsVal → Result JsVal.
Variable base : string → option (M World Member).

(** [get asLink ()] (lines 320-322) with [linkStruct] (lines 510-513): the
    address is asserted first, then the code hash is taken; the link is a
    new object. *)
Definition asLink : M World Member :=
  w ← get;
  lift (assertAddress (this w));;
  lift (codeHashOf (this w));;
  mret MFresh.

(** [this[key]]: an own property first (a field, or the accessor that the
    getter [deployed] has installed), then the getters and methods of the
    class, then the bases.  The getter [deployed] returns the task of the
    installed accessor, or else something new: a promise or a new task. *)
Definition member (key : string) : M World Member :=
  w ← get;
  match this w !! key with
  | Some v => mret (MVal v)
  | None =>
      if String.eqb key "deployed" then
        deployed;;
        mret (match own_deployed w with Some t => MTask t | None => MFresh end)
      else if String.eqb key "asLink" then asLink
      else if bool_decide (key ∈ methods) then mret (MMethod key)
      else match base key with
           | Some read => read
           | None => mret (MVal JUndefined)
           end
  end.

(** [matches (predicate)] (lines 311-318): the [for ... in] loop over the
    keys of the predicate, in enumeration order.  Of the two operands of
    [!==] the property of the contract is read first; the predicate is a
    plain record of values. *)
Fixpoint matches (predicate : list (string * Member)) : M World bool :=
  match predicate with
  | [] => mret true
  | (key, v) :: rest =>
      m ← member key;
      if differs m v then mret true else matches rest
  end.

End Matches.

(** The keys of [l] are fields of the contract, and hold what [l] holds for
    them. *)
Definition equal_fields (w : World) (l : list (string * Member)) : Prop :=
  Forall (λ kv, ∃ x, this w !! kv.1 = Some x ∧ kv.2 = MVal x) l.

(** A task that is there stays there, and an outcome that is recorded stays
    as recorded. *)
Definition task_mono (w w' : World) : Prop :=
  ∀ t task, tasks w !! t = Some task →
    ∃ task', tasks w' !! t = Some task' ∧
             (∀ r, task_result task = Some r → task_result task' = Some r).

End Contract.

(** ** The mocknet data helpers *)

Module Base64.

(** The helpers [utf8toB64] and [b64toUtf8] live in the module
    [mocknet-data], which is not among the sources: only its tests are
    ([packages/mocknet/mocknet-data.spec.ts.md], [packages/mocknet/SPEC.ts.md]).
    The spec describes them as the base64 encoding of the UTF-8 bytes of a
    string and its inverse.  They are modelled as the codec of RFC 4648
    section 4, with padding, over the bytes of the string; a [string] is the
    sequence of its UTF-8 bytes. *)

Local Open Scope N_scope.

Definition alphabet : list ascii :=
  list_ascii_of_string
    "ABCDEFGHIJKLMNOPQRSTUVWXYZabcdefghijklmnopqrstuvwxyz0123456789+/".

Definition pad : ascii := "="%char.

(** The character of a 6-bit group. *)
Definition char_of_sextet (n : N) : ascii :=
  nth (N.to_nat n) alphabet pad.

(** The 6-bit group of a character of the alphabet. *)
Fixpoint index_of (c : ascii) (l : list ascii) (i : N) : option N :=
  match l with
  | [] => None
  | x :: l' => if Ascii.eqb x c then Some i else index_of c l' (i + 1)
  end.

Definition sextet_of_char (c : ascii) : option N := index_of c alphabet 0.

(** Modelled from the spec: the base64 encoding behind [utf8toB64]
    (module [mocknet-data] is missing).  Three bytes make four characters;
    one or two remaining bytes make a padded group. *)
Fixpoint encode (bytes : list N) : list ascii :=
  match bytes with
  | [] => []
  | [a] =>
      [char_of_sextet (a / 4); char_of_sextet ((a mod 4) * 16); pad; pad]
  | [a; b] =>
      [char_of_sextet (a / 4); char_of_sextet ((a mod 4) * 16 + b / 16);
       char_of_sextet ((b mod 16) * 4); pad]
  | a :: b :: c :: rest =>
      char_of_sextet (a / 4) ::
      char_of_sextet ((a mod 4) * 16 + b / 16) ::
      char_of_sextet ((b mod 16) * 4 + c / 64) ::
      char_of_sextet (c mod 64) :: encode rest
  end.

(** Modelled from the spec: the base64 decoding behind [b64toUtf8] (module
    [mocknet-data] is missing).  Four characters make three bytes; padding is
    accepted in the last group only, and the bits it leaves unused must be
    zero. *)
Fixpoint decode (chars : list ascii) : option (list N) :=
  match chars with
  | [] => Some []
  | c1 :: c2 :: c3 :: c4 :: rest =>
      s1 ← sextet_of_char c1;
      s2 ← sextet_of_char c2;
      if Ascii.eqb c4 pad then
        match rest with
        | [] =>
            if Ascii.eqb c3 pad then
              if s2 mod 16 =? 0 then Some [s1 * 4 + s2 / 16] else None
            else
              s3 ← sextet_of_char c3;
              if s3 mod 4 =? 0
              then Some [s1 * 4 + s2 / 16; (s2 mod 16) * 16 + s3 / 4]
              else None
        | _ :: _ => None
        end
      else
        s3 ← sextet_of_char c3;
        s4 ← sextet_of_char c4;
        bytes ← decode rest;
        Some (s1 * 4 + s2 / 16 :: (s2 mod 16) * 16 + s3 / 4 :: (s3 mod 4) * 64 + s4 :: bytes)
  | _ => None
  end.

(** Well-formed base64 text: full groups of four characters of the alphabet,
    [=] only as the last one or two characters, unused bits zero. *)
Definition in_alphabet (c : ascii) : bool := bool_decide (c ∈ alphabet).

Definition low_bits_zero (c : ascii) (k : N) : bool :=
  match sextet_of_char c with
  | Some s => s mod k =? 0
  | None => false
  end.

Definition valid_last (c1 c2 c3 c4 : ascii) : bool :=
  in_alphabet c1 && in_alphabet c2 &&
  (if Ascii.eqb c4 pad
   then (if Ascii.eqb c3 pad then low_bits_zero c2 16
         else in_alphabet c3 && low_bits_zero c3 4)
   else in_alphabet c3 && in_alphabet c4).

Fixpoint valid (chars : list ascii) : bool :=
  match chars with
  | [] => true
  | c1 :: c2 :: c3 :: c4 :: rest =>
      match rest with
      | [] => valid_last c1 c2 c3 c4
      | _ :: _ =>
          in_alphabet c1 && in_alphabet c2 && in_alphabet c3 && in_alphabet c4 &&
          valid rest
      end
  | _ => false
  end.

(** A byte. *)
Definition byte (b : N) : Prop := b < 256.

Definition bytes_of_string (s : string) : list N :=
  N_of_ascii <$> list_ascii_of_string s.

Definition string_of_bytes (bytes : list N) : string :=
  string_of_list_ascii (ascii_of_N <$> bytes).

(** Modelled from the spec: [utf8toB64 (str)] of the missing module
    [mocknet-data], the base64 text of the UTF-8 bytes of [str]. *)
Definition utf8toB64 (str : string) : string :=
  string_of_list_ascii (encode (bytes_of_string str)).

(** Modelled from the spec: [b64toUtf8 (str)] of the missing module
    [mocknet-data], the string whose UTF-8 bytes the base64 text [str]
    encodes; [None] when [str] is not base64 text. *)
Definition b64toUtf8 (str : string) : option string :=
  string_of_bytes <$> decode (list_ascii_of_string str).

Definition valid_base64 (str : string) : bool := valid (list_ascii_of_string str).

(** The string [Echo] between two double quotes. *)
Definition quoted_Echo : string :=
  String "034"%char ("Echo" +:+ String "034"%char EmptyString).

End Base64.

(** ** Receipts ([toBuildReceipt], [toUploadReceipt], [toInstanceReceipt]) *)

Module Receipts.

(** The object that the receipt functions read: its scalar properties, and
    the properties that they look into ([features] is a list of strings,
    [builder] and [uploader] are objects, [artifact] is a string or a URL,
    here as [toString()] gives it). *)
Record Source := {
  fields   : gmap string JsVal;
  features : option (list string);
  builder  : option (gmap string JsVal);
  uploader : option (gmap string JsVal);
  artifact : option string
}.

Definition field (s : Source) (key : string) : JsVal := Contract.prop (fields s) key.

(** [xs.join(sep)] *)
Fixpoint join (sep : string) (xs : list string) : string :=
  match xs with
  | [] => ""
  | [x] => x
  | x :: xs => x +:+ sep +:+ join sep xs
  end.

(** [o?.id] *)
Definition id_of (o : option (gmap string JsVal)) : JsVal :=
  match o with
  | Some o => Contract.prop o "id"
  | None => JUndefined
  end.

Definition opt_str (s : option string) : JsVal :=
  match s with
  | Some s => JStr s
  | None => JUndefined
  end.

(** [toBuildReceipt (s)] (part_006 lines 420-433) *)
Definition toBuildReceipt (s : Source) : gmap string JsVal :=
  <["codeHash" := field s "codeHash"]> (
  <["artifact" := opt_str (artifact s)]> (
  <["builderId" := id_of (builder s)]> (
  <["builder" := JUndefined]> (
  <["features" := opt_str (join ", " <$> features s)]> (
  <["crate" := field s "crate"]> (
  <["workspace" := field s "workspace"]> (
  <["dirty" := field s "dirty"]> (
  <["revision" := field s "revision"]> (
  <["repository" := field s "repository"]> ∅))))))))).

(** [toUploadReceipt (t)] (lines 453-465) *)
Definition toUploadReceipt (t : Source) : gmap string JsVal :=
  <["codeId" := field t "codeId"]> (
  <["uploadTx" := field t "uploadTx"]> (
  <["uploadBy" := field t "uploadBy"]> (
  <["uploader" := JUndefined]> (
  <["uploaderId" := id_of (uploader t)]> (
  <["chainId" := field t "chainId"]> (toBuildReceipt t)))))).

(** [toInstanceReceipt (c)] (lines 493-507) *)
Definition toInstanceReceipt (c : Source) : gmap string JsVal :=
  <["suffix" := field c "suffix"]> (
  <["name" := field c "name"]> (
  <["prefix" := field c "prefix"]> (
  <["label" := field c "label"]> (
  <["address" := field c "address"]> (
  <["initTx" := field c "initTx"]> (
  <["initMsg" := field c "initMsg"]> (
  <["initBy" := field c "initBy"]> (toUploadReceipt c)))))))).

End Receipts.

(** ** The build script of the build container ([unnamed/part_003]) *)

Module BuildScript.




(** [env (key, def)] *)
Definition env (process_env : gmap string string) (key : string) (def : JsVal) : JsVal :=
  let val := match process_env !! key with Some v => JStr v | None => def end in
  let val := if bool_decide (val = JStr "0") then JNum 0 else val in
  let val := if bool_decide (val = JStr "false") then JBool false else val in
  val.

(** [const verbose = Boolean(env('_VERBOSE', false))] *)
Definition verbose (process_env : gmap string string) : bool :=
  truthy (env process_env "_VERBOSE" (JBool false)).



(** The characters of a string. *)
Definition chars (x : string) : list ascii := list_ascii_of_string x.


End BuildScript.

(** ** The configuration read from the environment ([packages/ops/Config.ts]) *)

Module Config.









End Config.

(** ** Sample values *)

Module Samples.

Definition api : Connect.ChainApi :=
  {| Connect.api_height := Ok 1;
     Connect.api_getBalance := λ _ _, Ok "0";
     Connect.api_query := λ _ _, Ok JNull;
     Connect.api_getCodeId := λ _, Ok "1";
     Connect.api_getLabel := λ _, Ok "label";
     Connect.api_getHash := λ _, Ok "hash" |}.

(** An [override] that copies the properties the object already has. *)
Definition override_existing (self options : gmap string JsVal) : gmap string JsVal :=
  map_imap (λ key v, Some (default v (options !! key))) self.

(** Collaborators for the examples: the label is the name; the builder
    reports an artifact; the uploader reports no code id; the agent reports
    an address. *)
Definition env : Contract.Env :=
  {| Contract.override := override_existing;
     Contract.writeLabel := λ o, Contract.prop o "id";
     Contract.into := Ok;
     Contract.assertBuilder :=
       λ o, if truthy (Contract.prop o "builder")
            then Ok (Contract.prop o "builder") else Throw NoBuilder;
     Contract.Builder_build := λ _ _, Ok {[ "artifact" := JStr "contract@HEAD.wasm" ]};
     Contract.core_upload := λ _, Ok ∅;
     Contract.Agent_instantiate := λ _ _, Ok {[ "address" := JStr "secret1address" ]} |}.

(** The same collaborators, with a [writeLabel] that composes nothing. *)
Definition env_unlabelled : Contract.Env :=
  {| Contract.override := override_existing;
     Contract.writeLabel := λ _, JStr "";
     Contract.into := Ok;
     Contract.assertBuilder := Contract.assertBuilder env;
     Contract.Builder_build := Contract.Builder_build env;
     Contract.core_upload := Contract.core_upload env;
     Contract.Agent_instantiate := Contract.Agent_instantiate env |}.

(** The fields of a contract as its class declares them, all undefined. *)
Definition blank : gmap string JsVal :=
  list_to_map ((λ key, (key, JUndefined)) <$>
    ["context"; "repository"; "revision"; "dirty"; "workspace"; "crate";
     "features"; "builder"; "builderId"; "artifact"; "codeHash"; "chainId";
     "uploaderId"; "uploader"; "uploadBy"; "uploadTx"; "codeId"; "agent";
     "client"; "initBy"; "initMsg"; "initTx"; "address"; "label"; "prefix";
     "id"; "suffix"]).

(** A contract that is configured for deployment and already built. *)
Definition configured : gmap string JsVal :=
  <["agent" := JRef 1]> (<["id" := JStr "name"]> (<["initMsg" := JRef 2]>
    (<["artifact" := JStr "contract@HEAD.wasm"]> blank))).

(** A contract that is already deployed. *)
Definition deployed : gmap string JsVal :=
  <["codeId" := JStr "7"]> (<["address" := JStr "secret1address"]> configured).

(** A contract in source form: a crate and a builder, nothing built. *)
Definition source : gmap string JsVal :=
  <["builder" := JRef 3]> (<["crate" := JStr "echo"]> blank).

(** A contract that is configured and uploaded, and not deployed. *)
Definition uploaded : gmap string JsVal := <["codeId" := JStr "7"]> configured.

(** The same collaborators, with an uploader that fails. *)
Definition env_upload_fails : Contract.Env :=
  {| Contract.override := override_existing;
     Contract.writeLabel := Contract.writeLabel env;
     Contract.into := Ok;
     Contract.assertBuilder := Contract.assertBuilder env;
     Contract.Builder_build := Contract.Builder_build env;
     Contract.core_upload := λ _, Throw (BackendError "upload failed");
     Contract.Agent_instantiate := Contract.Agent_instantiate env |}.

(** A devnet object with the defaults of the class, and a stored state of
    another chain id and port. *)
Definition devnet : Devnet.Devnet :=
  {| Devnet.ephemeral := false; Devnet.chainId := "fadroma-devnet";
     Devnet.protocol := "http"; Devnet.host := "localhost";
     Devnet.port := Devnet.PortNum 1317; Devnet.portMode := Some "lcp";
     Devnet.genesisAccounts := ["Admin"; "Alice"; "Bob"; "Charlie"; "Mallory"] |}.

Definition stored : Devnet.DevnetState :=
  {| Devnet.st_containerId := Some "c0ffee"; Devnet.st_chainId := "other-devnet";
     Devnet.st_host := None; Devnet.st_port := Devnet.PortNum 9091 |}.

(** A contract object whose bases add no members, and whose code hash is
    the one it holds. *)
Definition codeHashOf (o : gmap string JsVal) : Result JsVal :=
  Ok (Contract.prop o "codeHash").

Definition no_base (key : string) : option (M Contract.World Contract.Member) := None.

(** A contract with a builder and no crate. *)
Definition crateless : gmap string JsVal := <["builder" := JRef 3]> blank.

(** Fees, and a client with a default fee and one fee by key; its name is
    the empty string. *)
Definition fee_default : IFee :=
  {| fee_amount := [{| coin_amount := "1000"; coin_denom := "uscrt" |}];
     fee_gas := "100000" |}.

Definition fee_transfer : IFee :=
  {| fee_amount := [{| coin_amount := "2000"; coin_denom := "uscrt" |}];
     fee_gas := "200000" |}.

Definition fee_high : IFee :=
  {| fee_amount := [{| coin_amount := "9000"; coin_denom := "uscrt" |}];
     fee_gas := "900000" |}.

Definition client : Client.Client :=
  {| Client.c_agent_fees := None; Client.c_name := Some "";
     Client.c_label := Some "token"; Client.c_address := Some "secret1address";
     Client.c_codeHash := None; Client.c_codeId := Some "7";
     Client.c_fee := Some fee_default;
     Client.c_fees := <["transfer" := fee_transfer]> ∅ |}.

Definition devnet_world (root : option (gmap string Devnet.File)) : Devnet.World :=
  {| Devnet.dev := devnet; Devnet.fs := {| Devnet.stateRoot := root |};
     Devnet.log := [] |}.

End Samples.

(** * Properties *)

(** Membership in an explicit list. *)
Ltac in_list := repeat first [apply list_elem_of_here | apply list_elem_of_further].

(** Run a monadic computation on a given state. *)
Ltac m_simpl :=
  repeat (unfold mbind, M_bind, bind, mret, M_ret, ret, get, modify, lift, throw in *;
          cbn in *).

(** ** Bundle: nesting *)

Section BundleNesting.
Import Connect.

Lemma bundle_increments (b : Bundle) :
  ∃ b', bundle b = (Ok tt, b') ∧ depth b' = depth b + 1 ∧
        msgs b' = msgs b ∧ id b' = id b ∧ agent b' = agent b.
Proof. eexists. split; [reflexivity|]. cbn. auto. Qed.

(** One [run()] of a nested bundle returns null and takes two off the depth
    counter. *)
Lemma run_nested_takes_two (memo : string) (save : bool) (b : Bundle) :
  0 < depth b →
  ∃ b', run memo save b = (Ok ReturnedNull, b') ∧ depth b' = depth b - 2 ∧
        msgs b' = msgs b ∧ id b' = id b.
Proof.
  intros Hd. unfold run. m_simpl.
  destruct (0 <? depth b) eqn:E; [|apply Z.ltb_ge in E; lia].
  m_simpl. eexists. split; [reflexivity|]. cbn. repeat split; lia.
Qed.

Lemma run_flat_submits (memo : string) (b : Bundle) :
  depth b ≤ 0 → run memo false b = (Ok (Submit memo), b).
Proof.
  intros Hd. unfold run. m_simpl.
  destruct (0 <? depth b) eqn:E; [apply Z.ltb_lt in E; lia|]. reflexivity.
Qed.

(** C1, on the code: after two nested [bundle()] calls the depth is 2; the
    first [run()] returns null and leaves the depth at 0 (it decrements
    twice), so the second [run()] already calls [submit(memo)] instead of
    returning null. *)
Theorem bundle_two_nested_second_run_submits (a : Agent) (memo : string) :
  ∃ b0 b1 b2 b3,
    Bundle_new (Some a) = Ok b0 ∧
    bundle b0 = (Ok tt, b1) ∧ bundle b1 = (Ok tt, b2) ∧ depth b2 = 2 ∧
    run memo false b2 = (Ok ReturnedNull, b3) ∧ depth b3 = 0 ∧
    run memo false b3 = (Ok (Submit memo), b3).
Proof.
  do 4 eexists. split; [reflexivity|].
  split; [reflexivity|]. split; [reflexivity|]. split; [reflexivity|].
  split; [reflexivity|]. split; reflexivity.
Qed.

End BundleNesting.

(** ** Bundle: operations that are refused, operations that are delegated *)

Section BundleDiscipline.
Import Connect.

(** C4: in a bundle, [query], [upload], [uploadMany], [getBalance], [send],
    [sendMany] and the properties [height] and [nextBlock] fail with
    [NotInBundle] and leave the bundle, its message log included, as it was;
    [getCodeId], [getLabel], [getHash] and [checkHash] return what the same
    call on the wrapped agent returns, and leave the bundle as it was. *)
Theorem bundle_refuses_chain_state_and_delegates_lookups (b : Bundle) :
  (∀ contract msg, ∃ op, query contract msg b = (Throw (NotInBundle op), b)) ∧
  (∀ code, ∃ op, upload code b = (Throw (NotInBundle op), b)) ∧
  (∀ code, ∃ op, uploadMany code b = (Throw (NotInBundle op), b)) ∧
  (∀ denom, ∃ op, getBalance denom b = (Throw (NotInBundle op), b)) ∧
  (∀ to amounts, ∃ op, send to amounts b = (Throw (NotInBundle op), b)) ∧
  (∀ outputs, ∃ op, sendMany outputs b = (Throw (NotInBundle op), b)) ∧
  (∃ op, height b = (Throw (NotInBundle op), b)) ∧
  (∃ op, nextBlock b = (Throw (NotInBundle op), b)) ∧
  (∀ addr, getCodeId addr b = (Agent_getCodeId (agent b) addr, b)) ∧
  (∀ addr, getLabel addr b = (Agent_getLabel (agent b) addr, b)) ∧
  (∀ addr, getHash addr b = (Agent_getHash (agent b) addr, b)) ∧
  (∀ addr h, checkHash addr h b = (Agent_checkHash (agent b) addr h, b)).
Proof.
  repeat split; intros; try (eexists; reflexivity);
    unfold getCodeId, getLabel, getHash, checkHash; m_simpl;
    match goal with |- context [match ?r with _ => _ end] => destruct r end; reflexivity.
Qed.

(** The delegated lookups reach the backend of the agent's chain. *)
Lemma bundle_lookups_reach_the_chain (b : Bundle) (c : Chain) (addr : Address) :
  agent_chain (agent b) = Some c →
  (getCodeId addr b).1 = api_getCodeId (chain_api c) addr ∧
  (getLabel addr b).1 = api_getLabel (chain_api c) addr ∧
  (getHash addr b).1 = api_getHash (chain_api c) addr.
Proof.
  intros Hc. unfold getCodeId, getLabel, getHash, Agent_getCodeId, Agent_getLabel,
    Agent_getHash, assertChain. m_simpl. rewrite Hc.
  repeat split;
    match goal with |- context [match ?r with _ => _ end] => destruct r end; reflexivity.
Qed.

End BundleDiscipline.

(** ** Bundle: the message log *)

Section BundleLog.
Import Client.

Lemma array_set_at_end {A} (arr : list (option A)) (x : A) :
  array_set arr (length arr) x = arr ++ [Some x].
Proof.
  unfold array_set. destruct (decide _) as [H|_]; [lia|].
  by rewrite Nat.sub_diag.
Qed.

(** On a bundle whose next id is the length of its log, [add] writes the
    record behind the last one. *)
Lemma add_appends (msg : BundleMsg) (b : Bundle) :
  id b = length (msgs b) →
  add msg b = (Ok (id b),
               {| agent := agent b; depth := depth b; id := S (id b);
                  msgs := msgs b ++ [Some msg] |}).
Proof.
  intros Hid. unfold add. m_simpl. by rewrite Hid, array_set_at_end.
Qed.

(** A call leaves the record it is expected to leave, behind the records
    already there, and nothing else in the log. *)
Lemma do_call_appends (c : Call) (b : Bundle) :
  id b = length (msgs b) →
  agent (do_call c b) = agent b ∧
  id (do_call c b) = length (msgs (do_call c b)) ∧
  msgs (do_call c b) = msgs b ++ (Some <$> option_list (record_of b c)).
Proof.
  intros Hid. destruct c; unfold do_call, instantiate, init_, execute, bundle, run.
  - m_simpl. rewrite add_appends by done. cbn. rewrite length_app. cbn.
    split; [done|]. split; [lia|done].
  - m_simpl. rewrite add_appends by done. cbn. rewrite length_app. cbn.
    split; [done|]. split; [lia|done].
  - m_simpl. by rewrite app_nil_r.
  - m_simpl. destruct (0 <? depth b); m_simpl; by rewrite app_nil_r.
Qed.

(** The log of a bundle is the list of the records of the calls made on it,
    in the order of the calls, and the next id is their number. *)
Lemma do_calls_log (a : Agent) (cs : list Call) :
  agent (do_calls cs (Bundle_new a)) = a ∧
  id (do_calls cs (Bundle_new a)) = length (msgs (do_calls cs (Bundle_new a))) ∧
  msgs (do_calls cs (Bundle_new a)) = Some <$> omap (record_of (Bundle_new a)) cs.
Proof.
  induction cs as [|c cs IH] using rev_ind; [done|].
  destruct IH as (Ha & Hid & Hm). unfold do_calls in *. rewrite foldl_snoc.
  destruct (do_call_appends c _ Hid) as (Ha' & Hid' & Hm').
  split; [congruence|]. split; [done|].
  rewrite Hm', Hm, omap_app, fmap_app. f_equal. cbn.
  replace (record_of (foldl (λ b c0, do_call c0 b) (Bundle_new a) cs) c)
    with (record_of (Bundle_new a) c)
    by (destruct c; cbn; unfold address; by rewrite ?Ha).
  by destruct (record_of (Bundle_new a) c).
Qed.

(** C5: on a bundle that has served any sequence of calls ([instantiate],
    [execute], and nesting by [bundle] and [run]), the log holds exactly the
    records of the [instantiate] and [execute] calls, in the order of the
    calls, and the next id is their number; one more [instantiate] (resp.
    [execute]) writes exactly one [init] (resp. [exec]) record, at the next
    id, behind the records already there; and [instantiate] returns an
    instance with the code id and code hash of the template and a null
    address. *)
Theorem bundle_log_follows_call_order (a : Agent) (cs : list Call) :
  let b := do_calls cs (Bundle_new a) in
  msgs b = Some <$> omap (record_of b) cs ∧
  id b = length (omap (record_of b) cs) ∧
  (∀ t l m f, ∃ b' inst record,
      record_of b (CallInstantiate t l m f) = Some (init record) ∧
      instantiate t l m f b = (Ok inst, b') ∧
      msgs b' = msgs b ++ [Some (init record)] ∧
      msgs b' !! id b = Some (Some (init record)) ∧
      id b' = S (id b) ∧
      i_codeId inst = codeId t ∧ i_codeHash inst = codeHash t ∧
      i_address inst = None) ∧
  (∀ i m s, ∃ b' record,
      record_of b (CallExecute i m s) = Some (exec record) ∧
      execute i m s b = (Ok tt, b') ∧
      msgs b' = msgs b ++ [Some (exec record)] ∧
      msgs b' !! id b = Some (Some (exec record)) ∧
      id b' = S (id b)).
Proof.
  intros b. destruct (do_calls_log a cs) as (Ha & Hid & Hm). fold b in Ha, Hid, Hm.
  assert (Hrec : ∀ c, record_of b c = record_of (Bundle_new a) c).
  { intros []; cbn; unfold address; by rewrite ?Ha. }
  assert (Homap : omap (record_of b) cs = omap (record_of (Bundle_new a)) cs).
  { apply list_omap_ext, Forall2_same_length_lookup_2; [done|].
    intros ??? -> [= ->]. apply Hrec. }
  split; [by rewrite Homap|].
  split; [by rewrite Homap, Hid, Hm, length_fmap|].
  split.
  - intros t l m f. unfold instantiate, init_. m_simpl.
    rewrite add_appends by done. m_simpl. do 3 eexists.
    split; [reflexivity|]. split; [reflexivity|]. cbn. repeat split.
    rewrite Hid. by rewrite lookup_app_r, Nat.sub_diag.
  - intros i m s. unfold execute. m_simpl.
    rewrite add_appends by done. m_simpl. do 2 eexists.
    split; [reflexivity|]. split; [reflexivity|]. cbn. repeat split.
    rewrite Hid. by rewrite lookup_app_r, Nat.sub_diag.
Qed.

End BundleLog.

(** ** Client: fees *)

Section ClientFees.
Import Client.

Lemma fees_get_own (fees : gmap string IFee) (key : string) (fee : IFee) :
  fees !! key = Some fee → fees_get fees key = Some (Fee fee).
Proof. unfold fees_get. by intros ->. Qed.

Lemma fees_get_inherited (fees : gmap string IFee) (key : string) :
  fees !! key = None → key ∈ Object_prototype → fees_get fees key = Some (Inherited key).
Proof. unfold fees_get. intros -> Hin. by rewrite bool_decide_eq_true_2. Qed.

Lemma fees_get_none (fees : gmap string IFee) (key : string) :
  fees !! key = None → key ∉ Object_prototype → fees_get fees key = None.
Proof. unfold fees_get. intros -> Hin. by rewrite bool_decide_eq_false_2. Qed.

(** [getFee] throws exactly for an object message whose number of root keys
    is not one. *)
Lemma getFee_throws (c : Client) (msg : option Message) :
  is_Throw (getFee c msg) = true ↔
  ∃ entries, msg = Some (MsgObj entries) ∧ length entries ≠ 1%nat.
Proof.
  split.
  - destruct msg as [[s|entries]|]; cbn; try discriminate.
    rewrite length_fmap. destruct (Nat.eqb_spec (length entries) 1); cbn; [discriminate|].
    intros _. by exists entries.
  - intros (entries & -> & Hlen). cbn. rewrite length_fmap.
    by destruct (Nat.eqb_spec (length entries) 1).
Qed.

(** A string and an object with that one root key are answered alike. *)
Lemma getFee_one_key (c : Client) (key : string) (v : JsVal) :
  getFee c (Some (MsgObj [(key, v)])) = getFee c (Some (MsgStr key)).
Proof. reflexivity. Qed.

(** C10, on the code: for a message whose key is the name of a member of
    [Object.prototype] and under which no fee is registered, [getFee]
    returns that inherited member, whatever the default fee of the client
    and the fees of the agent are; it returns neither of them. *)
Theorem getFee_returns_inherited_member (c : Client) (member : string) :
  member ∈ Object_prototype →
  c_fees c !! member = None →
  getFee c (Some (MsgStr member)) = Ok (Some (Inherited member)) ∧
  (∀ v, getFee c (Some (MsgObj [(member, v)])) = Ok (Some (Inherited member))) ∧
  (∀ fee, getFee c (Some (MsgStr member)) ≠ Ok (Some (Fee fee))).
Proof.
  intros Hin Hown.
  assert (H : getFee c (Some (MsgStr member)) = Ok (Some (Inherited member))).
  { unfold getFee. by rewrite (fees_get_inherited _ _ Hown Hin). }
  split; [exact H|]. split; [intros v; by rewrite getFee_one_key|].
  intros fee. by rewrite H.
Qed.

End ClientFees.

Lemma getFee_returns_inherited_member_witness :
  Client.c_fee Samples.client = Some Samples.fee_default ∧
  Client.getFee Samples.client (Some (MsgStr "toString"))
    = Ok (Some (Client.Inherited "toString")) ∧
  Client.getFee Samples.client (Some (MsgObj [("toString", JNull)]))
    = Ok (Some (Client.Inherited "toString")).
Proof.
  assert (Hin : "toString" ∈ Client.Object_prototype) by in_list.
  assert (Hown : Client.c_fees Samples.client !! "toString" = None)
    by (vm_compute; reflexivity).
  destruct (getFee_returns_inherited_member Samples.client "toString" Hin Hown)
    as (Hs & Ho & _).
  split; [reflexivity|]. split; [exact Hs|exact (Ho JNull)].
Defined.

(** ** Chain: construction *)

Section ChainConstruction.
Import Connect.

Lemma devMode_iff (c : Chain) :
  devMode c = true ↔ chain_mode c = Some Devnet ∨ chain_mode c = Some Mocknet.
Proof.
  unfold devMode, isDevnet, isMocknet.
  rewrite orb_true_iff, !bool_decide_eq_true. tauto.
Qed.

(** C6: for a chain constructed with a [node] option: under a mode other
    than Devnet the node is not kept and the warning is logged, id and url
    staying as provided; under Devnet the node is kept, the chain takes the
    url and the chain id of the node, and each of the two that differed from
    what was provided is reported by a warning.  [devMode] holds exactly
    under the modes Devnet and Mocknet. *)
Theorem chain_node_option (api : ChainApi) (id : ChainId) (options : ChainOpts)
    (node : DevnetHandle) (c : Chain) (log : list LogLine) :
  opt_node options = Some node →
  Chain_new api id options = Ok (c, log) →
  (opt_mode options ≠ Some Devnet →
     chain_node c = None ∧ warnNodeNonDevnet ∈ log ∧
     chain_id c = id ∧ chain_url c = provided_url options) ∧
  (opt_mode options = Some Devnet →
     chain_node c = Some node ∧
     chain_url c = dh_url node ∧ chain_id c = dh_chainId node ∧
     (provided_url options ≠ dh_url node →
        warnUrlOverride (dh_url node) (provided_url options) ∈ log) ∧
     (id ≠ dh_chainId node → warnIdOverride (dh_chainId node) id ∈ log)) ∧
  (devMode c = true ↔ chain_mode c = Some Devnet ∨ chain_mode c = Some Mocknet).
Proof.
  intros Hnode Hnew. split; [|split; [|apply devMode_iff]];
    unfold Chain_new in Hnew;
    (destruct (String.eqb id "") eqn:Hid; [discriminate|]); rewrite Hnode in Hnew;
    case_bool_decide as Hmode; intros Hm; try congruence.
  - injection Hnew as Hc Hl. subst c log. cbn. repeat split.
    apply list_elem_of_here.
  - destruct (String.eqb_spec (provided_url options) (dh_url node)) as [Hu|Hu];
      destruct (String.eqb_spec id (dh_chainId node)) as [Hi|Hi];
      cbn in Hnew; injection Hnew as Hc Hl; subst c log; cbn;
      repeat split; try done; intros; try apply list_elem_of_here;
      try (apply list_elem_of_further, list_elem_of_here).
Qed.

Lemma chain_node_option_witness :
  let node := {| dh_chainId := "fadroma-devnet"; dh_url := "http://localhost:1317/" |} in
  let options := {| opt_url := Some "example.com"; opt_mode := Some Devnet;
                    opt_node := Some node |} in
  let c := {| chain_id := "fadroma-devnet"; chain_url := "http://localhost:1317/";
              chain_mode := Some Devnet; chain_node := Some node;
              chain_api := Samples.api |} in
  let log := [warnUrlOverride "http://localhost:1317/" "example.com";
              warnIdOverride "fadroma-devnet" "dev"] in
  Chain_new Samples.api "dev" options = Ok (c, log) ∧
  chain_node c = Some node ∧ devMode c = true.
Proof.
  intros node options c log.
  pose proof (chain_node_option Samples.api "dev" options node c log
                eq_refl eq_refl) as (_ & Hdevnet & Hmode).
  split; [reflexivity|]. split; [exact (proj1 (Hdevnet eq_refl))|].
  apply Hmode. by left.
Defined.

End ChainConstruction.

(** ** Devnet: restoring the stored state *)

Section DevnetLoad.
Import Devnet.

(** C8: [load()] returns null and touches neither the devnet object nor the
    files when the state directory or [devnet.json] is missing; when
    [devnet.json] loads it returns the stored data and sets the port of the
    devnet object to the stored port, changing nothing else of the object
    and nothing of the files, and a stored chain id other than the
    configured one only adds a line to the log; when [devnet.json] is there
    and loading it throws, the state directory is deleted and the same error
    is thrown. *)
Theorem devnet_load_cases (w : World) :
  (stateRoot (fs w) = None ∨ nodeState w = None →
     ∃ w', load w = (Ok None, w') ∧ dev w' = dev w ∧ fs w' = fs w) ∧
  (∀ data, nodeState w = Some (Json data) →
     ∃ w', load w = (Ok (Some data), w') ∧
           dev w' = set_port (st_port data) (dev w) ∧ port (dev w') = st_port data ∧
           fs w' = fs w ∧
           log w' = log w ++
                    (if bool_decide (chainId (dev w) = st_chainId data) then []
                     else [loadingState (st_chainId data) (chainId (dev w))])) ∧
  (∀ e, nodeState w = Some (Unreadable e) →
     ∃ w', load w = (Throw e, w') ∧ stateRoot (fs w') = None ∧ dev w' = dev w).
Proof.
  assert (Hroot : ∀ f, nodeState w = Some f → is_Some (stateRoot (fs w))).
  { unfold nodeState. destruct (stateRoot (fs w)); [eauto|discriminate]. }
  repeat split.
  - intros Hnone.
    assert (Hn : nodeState w = None).
    { destruct Hnone as [Hr|]; [|done]. unfold nodeState. by rewrite Hr. }
    unfold load. m_simpl. rewrite Hn.
    rewrite (bool_decide_eq_false_2 (is_Some None)) by (intros []; discriminate).
    rewrite andb_false_r. m_simpl. eexists. split; [reflexivity|]. done.
  - intros data Hdata. unfold load. m_simpl. rewrite Hdata.
    rewrite !bool_decide_eq_true_2 by eauto. m_simpl.
    destruct (String.eqb_spec (chainId (dev w)) (st_chainId data)) as [Heq|Hne];
      m_simpl; eexists; (split; [reflexivity|]); cbn.
    + rewrite bool_decide_eq_true_2 by done. by rewrite app_nil_r.
    + by rewrite bool_decide_eq_false_2.
  - intros e He. unfold load. m_simpl. rewrite He.
    rewrite !bool_decide_eq_true_2 by eauto. m_simpl.
    eexists. split; [reflexivity|]. done.
Qed.

End DevnetLoad.

Lemma devnet_load_cases_witness :
  let stored_file := {[ "devnet.json" := Devnet.Json Samples.stored ]} in
  let broken_file :=
    {[ "devnet.json" := Devnet.Unreadable (BackendError "Unexpected end of JSON input") ]} in
  (Devnet.load (Samples.devnet_world None)).1 = Ok None ∧
  (Devnet.load (Samples.devnet_world (Some ∅))).1 = Ok None ∧
  (Devnet.load (Samples.devnet_world (Some stored_file))).1 = Ok (Some Samples.stored) ∧
  Devnet.port (Devnet.dev (Devnet.load (Samples.devnet_world (Some stored_file))).2)
    = Devnet.PortNum 9091 ∧
  (Devnet.load (Samples.devnet_world (Some broken_file))).1
    = Throw (BackendError "Unexpected end of JSON input") ∧
  Devnet.stateRoot (Devnet.fs (Devnet.load (Samples.devnet_world (Some broken_file))).2)
    = None.
Proof.
  intros stored_file broken_file.
  destruct (devnet_load_cases (Samples.devnet_world None)) as (H1 & _).
  destruct (devnet_load_cases (Samples.devnet_world (Some ∅))) as (H2 & _).
  destruct (devnet_load_cases (Samples.devnet_world (Some stored_file))) as (_ & H3 & _).
  destruct (devnet_load_cases (Samples.devnet_world (Some broken_file))) as (_ & _ & H4).
  destruct (H1 (or_introl eq_refl)) as (w1 & E1 & _).
  destruct (H2 (or_intror eq_refl)) as (w2 & E2 & _).
  destruct (H3 Samples.stored eq_refl) as (w3 & E3 & _ & Hport & _).
  destruct (H4 _ eq_refl) as (w4 & E4 & Hroot & _).
  rewrite E1, E2, E3, E4. cbn. repeat split; assumption.
Defined.

(** ** Contract: [matches] *)

Section ContractMatches.
Import Contract.
Variable codeHashOf : gmap string JsVal → Result JsVal.
Variable base : string → option (M World Member).

Lemma differs_MVal (u : JsVal) (v : Member) : differs (MVal u) v = true ↔ v ≠ MVal u.
Proof.
  destruct v as [x| | |]; cbn; try (split; [discriminate|done]).
  unfold strict_neq. rewrite negb_true_iff, bool_decide_eq_false. split; congruence.
Qed.

(** Reading a field gives what it holds and changes nothing. *)
Lemma member_field (w : World) (key : string) (v : JsVal) :
  this w !! key = Some v → member codeHashOf base key w = (Ok (MVal v), w).
Proof. intros H. unfold member. m_simpl. by rewrite H. Qed.

Lemma matches_cons (key : string) (v : Member) (rest : list (string * Member)) (w : World) :
  matches codeHashOf base ((key, v) :: rest) w =
  match member codeHashOf base key w with
  | (Ok m, w') => if differs m v then (Ok true, w') else matches codeHashOf base rest w'
  | (Throw e, w') => (Throw e, w')
  end.
Proof.
  cbn [matches]. unfold mbind, M_bind, bind.
  destruct (member codeHashOf base key w) as [[m|e] w']; [|done].
  by destruct (differs m v).
Qed.

(** Each key of the predicate is compared until one differs: on a prefix of
    equal fields the loop goes on with the rest. *)
Lemma matches_skips_equal_keys (w : World) (before rest : list (string * Member)) :
  equal_fields w before →
  matches codeHashOf base (before ++ rest) w = matches codeHashOf base rest w.
Proof.
  induction 1 as [|[key v] before (x & Hx & Hv) _ IH]; [done|].
  cbn [app]. rewrite matches_cons. cbn in Hx, Hv. rewrite (member_field _ _ _ Hx).
  subst v. assert (differs (MVal x) (MVal x) = false) as ->; [|exact IH].
  apply not_true_is_false. rewrite differs_MVal. congruence.
Qed.

(** What [matches] returns, if it returns, is true. *)
Lemma matches_never_false (predicate : list (string * Member)) (w : World) :
  (matches codeHashOf base predicate w).1 = Ok true ∨
  ∃ e, (matches codeHashOf base predicate w).1 = Throw e.
Proof.
  revert w. induction predicate as [|[key v] rest IH]; intros w; [by left|].
  rewrite matches_cons.
  destruct (member codeHashOf base key w) as [[m|e] w']; [|right; by exists e].
  destruct (differs m v); [by left|apply IH].
Qed.

(** C9, as the code has it: [matches] returns true for the empty predicate;
    it returns true at the first key whose value differs from the field of
    the contract, whatever follows; it returns true, and changes nothing,
    for every predicate over fields of the contract; and for every contract
    and every predicate it returns true unless reading a key on the contract
    throws.  Reading the key [asLink] runs the getter, which throws
    [LinkNoAddress] when the contract has no address; reading the key
    [deployed] runs the getter, which starts the deploy task of a contract
    that has no address. *)
Theorem matches_true_unless_a_read_throws (w : World) :
  matches codeHashOf base [] w = (Ok true, w) ∧
  (∀ before key u v after,
     equal_fields w before →
     this w !! key = Some u → v ≠ MVal u →
     matches codeHashOf base (before ++ (key, v) :: after) w = (Ok true, w)) ∧
  (∀ predicate,
     Forall (λ kv : string * Member, is_Some (this w !! kv.1)) predicate →
     matches codeHashOf base predicate w = (Ok true, w)) ∧
  (∀ predicate,
     (matches codeHashOf base predicate w).1 = Ok true ∨
     ∃ e, (matches codeHashOf base predicate w).1 = Throw e) ∧
  (∀ before v after,
     equal_fields w before →
     this w !! "asLink" = None → truthy (prop (this w) "address") = false →
     matches codeHashOf base (before ++ ("asLink", v) :: after) w
       = (Throw LinkNoAddress, w)) ∧
  (∀ before v after,
     equal_fields w before →
     this w !! "deployed" = None → own_deployed w = None →
     matches codeHashOf base (before ++ ("deployed", v) :: after) w
       = (Ok true, (deployed w).2)).
Proof.
  split; [done|]. split; [|split; [|split; [|split]]].
  - intros before key u v after Hbefore Hkey Hne.
    rewrite (matches_skips_equal_keys _ _ _ Hbefore), matches_cons.
    rewrite (member_field _ _ _ Hkey).
    by apply differs_MVal in Hne as ->.
  - induction 1 as [|[key v] rest [u Hu] _ IH]; [done|].
    rewrite matches_cons. cbn in Hu. rewrite (member_field _ _ _ Hu).
    by destruct (differs (MVal u) v).
  - intros predicate. apply matches_never_false.
  - intros before v after Hbefore Hkey Haddr.
    rewrite (matches_skips_equal_keys _ _ _ Hbefore), matches_cons.
    unfold member, asLink, assertAddress. m_simpl. by rewrite Hkey, Haddr.
  - intros before v after Hbefore Hkey Hown.
    rewrite (matches_skips_equal_keys _ _ _ Hbefore), matches_cons.
    unfold member. m_simpl. rewrite Hkey. cbn.
    unfold deployed, deploy, defineTask. m_simpl. rewrite Hown.
    by destruct (truthy (prop (this w) "address")).
Qed.

End ContractMatches.

Lemma matches_true_unless_a_read_throws_witness :
  let w := Contract.World_new Contract.ClsContract Samples.deployed in
  let matches := Contract.matches Samples.codeHashOf Samples.no_base in
  matches [] w = (Ok true, w) ∧
  matches [("id", Contract.MVal (JStr "name")); ("codeId", Contract.MVal (JStr "8"));
           ("asLink", Contract.MFresh)] w = (Ok true, w) ∧
  matches [("id", Contract.MVal (JStr "another"))] w = (Ok true, w) ∧
  matches [("id", Contract.MVal (JStr "name"))] w = (Ok true, w).
Proof.
  intros w matches.
  destruct (matches_true_unless_a_read_throws Samples.codeHashOf Samples.no_base w)
    as (H0 & Hfirst & Hfields & _).
  split; [exact H0|]. split; [|split].
  - apply (Hfirst [("id", Contract.MVal (JStr "name"))] "codeId" (JStr "7")
             (Contract.MVal (JStr "8")) [("asLink", Contract.MFresh)]).
    + constructor; [|constructor]. exists (JStr "name").
      split; [vm_compute; reflexivity|reflexivity].
    + vm_compute; reflexivity.
    + discriminate.
  - apply Hfields. constructor; [|constructor]. exists (JStr "name"). vm_compute; reflexivity.
  - apply Hfields. constructor; [|constructor]. exists (JStr "name"). vm_compute; reflexivity.
Defined.

(** C9, as the claim has it, fails: on a contract without an address the
    predicate [{asLink: x}] makes [matches] throw [LinkNoAddress], and so
    does a predicate that reaches [asLink] after an equal key. *)
Lemma matches_asLink_without_address_throws :
  let w := Contract.World_new Contract.ClsContract Samples.configured in
  (Contract.matches Samples.codeHashOf Samples.no_base
     [("asLink", Contract.MVal (JRef 9))] w).1 = Throw LinkNoAddress ∧
  (Contract.matches Samples.codeHashOf Samples.no_base
     [("id", Contract.MVal (JStr "name")); ("asLink", Contract.MVal (JRef 9))] w).1
    = Throw LinkNoAddress ∧
  (Contract.matches Samples.codeHashOf Samples.no_base
     [("asLink", Contract.MVal (JRef 9))] w).1 ≠ Ok true.
Proof. intros w. split; [|split]; [vm_compute; reflexivity..|discriminate]. Qed.

(** ** Contract: the memoized stages *)

Section ContractStages.
Import Contract.
Variable E : Env.

(** *** Steps that leave a stage alone *)

Lemma stages_settle (t : nat) (r : Result Value) (w : World) :
  stages (settle t r w) = stages w.
Proof.
  unfold stages, settle. cbn. apply list_eq. intros i.
  rewrite !list_lookup_fmap. destruct (decide (t = i)) as [->|Hne].
  - rewrite list_lookup_alter_eq. by destruct (tasks w !! i).
  - by rewrite list_lookup_alter_ne.
Qed.

Lemma side_frame_refl (side : Side) (w : World) : side_frame side w w.
Proof. by unfold side_frame. Qed.

Lemma stages_lookup_frame (side : Side) (w w' : World) (t : nat) :
  side_frame side w w' →
  stages w !! t = Some (stage_of side) → stages w' !! t = Some (stage_of side).
Proof.
  intros (_ & _ & _ & Hent) Ht. unfold stages in *.
  rewrite list_lookup_fmap in *. by rewrite Hent by (by rewrite list_lookup_fmap).
Qed.

Lemma side_frame_trans (side : Side) (w1 w2 w3 : World) :
  side_frame side w1 w2 → side_frame side w2 w3 → side_frame side w1 w3.
Proof.
  intros H12 H23. pose proof (stages_lookup_frame side w1 w2) as Hl.
  specialize (λ t, Hl t H12).
  destruct H12 as (Ho & Hs & Hc & Hent), H23 as (Ho' & Hs' & Hc' & Hent').
  repeat split; [congruence..|]. intros t Ht.
  rewrite Hent' by (by apply Hl). by apply Hent.
Qed.

Lemma side_frame_set_this (side : Side) (o : gmap string JsVal) (w : World) :
  side_frame side w (set_this o w).
Proof. by destruct side. Qed.

Lemma cnt_call_put_call (c c' : Call) (w : World) :
  cnt_call c (put_call c' w) = (cnt_call c w + if decide (c' = c) then 1 else 0)%nat.
Proof.
  unfold cnt_call, put_call. cbn. rewrite filter_app, length_app. f_equal.
  rewrite filter_cons, filter_nil. by destruct (decide (c' = c)).
Qed.

Lemma side_frame_put_call (side : Side) (c : Call) (w : World) :
  c ≠ call_of side → side_frame side w (put_call c w).
Proof.
  intros Hne. split; [by destruct side|]. split; [done|]. split; [|done].
  rewrite cnt_call_put_call. destruct (decide _); [done|lia].
Qed.

Lemma cnt_stage_add_task (s : Stage) (task : Task) (w : World) :
  cnt_stage s (set_tasks (tasks w ++ [task]) w) =
  (cnt_stage s w + if decide (task_stage task = s) then 1 else 0)%nat.
Proof.
  unfold cnt_stage, stages. cbn. rewrite fmap_app, filter_app, length_app. f_equal.
  cbn. by destruct (decide _).
Qed.

Lemma lookup_add_task (task : Task) (w : World) (t : nat) :
  is_Some (stages w !! t) →
  tasks (set_tasks (tasks w ++ [task]) w) !! t = tasks w !! t.
Proof.
  intros Ht. cbn. apply lookup_app_l. apply lookup_lt_is_Some in Ht.
  unfold stages in Ht. by rewrite length_fmap in Ht.
Qed.

Lemma side_frame_add_task (side : Side) (task : Task) (w : World) :
  task_stage task ≠ stage_of side →
  side_frame side w (set_tasks (tasks w ++ [task]) w).
Proof.
  intros Hne. split; [by destruct side|]. split; [|split; [done|]].
  - rewrite cnt_stage_add_task. destruct (decide _); [done|lia].
  - intros t Ht. apply lookup_add_task. eauto.
Qed.

Lemma side_frame_settle (side : Side) (t : nat) (r : Result Value) (w : World) :
  stages w !! t ≠ Some (stage_of side) →
  side_frame side w (settle t r w).
Proof.
  intros Hne. split; [by destruct side|]. split; [|split; [done|]].
  - unfold cnt_stage. by rewrite stages_settle.
  - intros t' Ht'. unfold settle. cbn. apply list_lookup_alter_ne. congruence.
Qed.

Lemma side_frame_step (side : Side) (w w' : World) :
  side_frame side w w' → side_step side w w'.
Proof. intros (? & ? & ? & ?). repeat split; auto. Qed.

(** A stage that was left alone is as sound as before. *)
Lemma side_inv_frame (side : Side) (w w' : World) :
  side_inv side w → side_frame side w w' → side_inv side w'.
Proof.
  intros Hinv Hfr. pose proof (stages_lookup_frame side w w' ) as Hl.
  specialize (λ t, Hl t Hfr).
  destruct Hfr as (Ho & Hs & Hc & Hent). unfold side_inv in *. rewrite Ho, Hs, Hc.
  destruct (own_of side w) as [t|]; [|done].
  destruct Hinv as (Ht & Hone & Hcalls).
  split; [by apply Hl|]. split; [done|].
  destruct Hcalls as [?|[? (task & r & Htask & Hr)]]; [by left|right].
  split; [done|]. exists task, r. by rewrite Hent.
Qed.

(** *** How a computation runs *)

Lemma bind_run {A B} (m : M World A) (k : A → M World B) (w : World) :
  (m ≫= k) w = match m w with
               | (Ok a, w') => k a w'
               | (Throw e, w') => (Throw e, w')
               end.
Proof. reflexivity. Qed.

Lemma await_task_fresh (body : JsVal → M World Value) (t : nat) (w : World) (task : Task) :
  tasks w !! t = Some task → task_result task = None →
  await_task body t w = ((body (task_arg task) w).1,
                         settle t (body (task_arg task) w).1 (body (task_arg task) w).2).
Proof.
  intros Ht Hr. unfold await_task. rewrite Ht, Hr. by destruct (body _ _).
Qed.

Lemma await_task_settled (body : JsVal → M World Value) (t : nat) (w : World)
    (task : Task) (r : Result Value) :
  tasks w !! t = Some task → task_result task = Some r →
  await_task body t w = (r, w).
Proof. intros Ht Hr. unfold await_task. by rewrite Ht, Hr. Qed.

Lemma await_task_missing (body : JsVal → M World Value) (t : nat) (w : World) :
  tasks w !! t = None → (await_task body t w).2 = w.
Proof. intros Ht. unfold await_task. by rewrite Ht. Qed.

(** *** The build stage leaves the two memoized stages alone *)

Lemma side_frame_put_build (side : Side) (w : World) :
  side_frame side w (put_call CBuild w).
Proof. apply side_frame_put_call. by destruct side. Qed.

Lemma buildContract_tasks (w : World) : tasks (buildContract E w).2 = tasks w.
Proof.
  unfold buildContract, define. m_simpl. repeat case_match; by simplify_eq/=.
Qed.

Lemma buildContract_frame (side : Side) (w : World) :
  side_frame side w (buildContract E w).2.
Proof.
  unfold buildContract, define. m_simpl. repeat case_match; simplify_eq/=;
    eauto using side_frame_refl, side_frame_trans, side_frame_set_this,
      side_frame_put_build.
Qed.

Lemma await_compiled_frame (side : Side) (w : World) :
  side_frame side w (await_compiled E w).2.
Proof.
  unfold await_compiled. rewrite bind_run. unfold compiled, build, defineTask. m_simpl.
  destruct (truthy (prop (this w) "artifact")); m_simpl; first apply side_frame_refl.
  match goal with |- context [set_tasks (tasks w ++ [?task]) w] =>
    set (bt := task); set (w1 := set_tasks (tasks w ++ [bt]) w) end.
  assert (Hbt : tasks w1 !! length (tasks w) = Some bt).
  { cbn. by rewrite lookup_app_r, Nat.sub_diag. }
  rewrite (await_task_fresh _ _ _ bt) by done. cbn.
  apply (side_frame_trans _ _ w1); [apply side_frame_add_task; by destruct side|].
  eapply side_frame_trans; [apply buildContract_frame|].
  apply side_frame_settle. unfold stages.
  rewrite buildContract_tasks, list_lookup_fmap, Hbt. cbn. by destruct side.
Qed.

(** *** The upload stage *)

Lemma side_step_refl (side : Side) (w : World) : side_step side w w.
Proof. apply side_frame_step, side_frame_refl. Qed.

Lemma side_frame_step_trans (side : Side) (w1 w2 w3 : World) :
  side_frame side w1 w2 → side_step side w2 w3 → side_step side w1 w3.
Proof.
  intros H12 H23. pose proof (stages_lookup_frame side w1 w2) as Hl.
  specialize (λ t, Hl t H12).
  destruct H12 as (Ho & Hs & Hc & Hent), H23 as (Ho' & Hs' & Hc' & Hent').
  split; [congruence|]. split; [congruence|]. split; [rewrite <- Hc; done|].
  intros t Ht. rewrite Hent' by (by apply Hl). by apply Hent.
Qed.

Lemma side_step_frame_trans (side : Side) (w1 w2 w3 : World) :
  side_step side w1 w2 → side_frame side w2 w3 → side_step side w1 w3.
Proof.
  intros H12 H23.
  assert (Hl : ∀ t, stages w1 !! t = Some (stage_of side) →
                    stages w2 !! t = Some (stage_of side)).
  { intros t Ht. destruct H12 as (_ & _ & _ & Hent). unfold stages in *.
    rewrite list_lookup_fmap in *. by rewrite Hent by (by rewrite list_lookup_fmap). }
  destruct H12 as (Ho & Hs & Hc & Hent), H23 as (Ho' & Hs' & Hc' & Hent').
  split; [congruence|]. split; [congruence|]. split; [rewrite Hc'; done|].
  intros t Ht. rewrite Hent' by (by apply Hl). by apply Hent.
Qed.

Lemma side_step_put_call (side : Side) (c : Call) (w : World) :
  side_step side w (put_call c w).
Proof.
  split; [by destruct side|]. split; [done|]. split; [|done].
  rewrite cnt_call_put_call. destruct (decide _); [right|left]; lia.
Qed.

(** The body of the upload task makes at most one upload call and leaves
    the deploy stage alone. *)
Lemma uploadContract_run (w : World) :
  side_step SideUpload w (uploadContract E w).2 ∧
  side_frame SideDeploy w (uploadContract E w).2.
Proof.
  unfold uploadContract. rewrite bind_run.
  pose proof (await_compiled_frame SideUpload w) as HU.
  pose proof (await_compiled_frame SideDeploy w) as HD.
  destruct (await_compiled E w) as [[v|e] w1]; cbn in HU, HD;
    [|split; [by apply side_frame_step|done]].
  unfold define. m_simpl. destruct (core_upload E (this w1)); cbn.
  - split.
    + eapply side_frame_step_trans; [exact HU|].
      eapply side_step_frame_trans; [|apply side_frame_set_this].
      apply side_step_put_call.
    + eapply side_frame_trans; [exact HD|].
      eapply side_frame_trans; [|apply side_frame_set_this].
      apply side_frame_put_call; cbn; congruence.
  - split.
    + eapply side_frame_step_trans; [exact HU|]. apply side_step_put_call.
    + eapply side_frame_trans; [exact HD|]. apply side_frame_put_call; cbn; congruence.
Qed.

(** Awaiting the task that the accessor of a stage holds: the stage stays
    sound if the body of the task makes at most one call of the stage. *)
Lemma await_own_task_inv (side : Side) (body : JsVal → M World Value)
    (t : nat) (w : World) :
  (∀ a, side_step side w (body a w).2) →
  side_inv side w → own_of side w = Some t →
  side_inv side (await_task body t w).2.
Proof.
  intros Hbody Hinv Hown. pose proof Hinv as Hinv0.
  unfold side_inv in Hinv. rewrite Hown in Hinv.
  destruct Hinv as (Ht & Hone & Hcalls).
  pose proof Ht as Ht'. unfold stages in Ht'. rewrite list_lookup_fmap in Ht'.
  destruct (tasks w !! t) as [task|] eqn:Htask; [|discriminate].
  destruct (task_result task) as [r|] eqn:Hr.
  { by rewrite (await_task_settled _ _ _ task r). }
  rewrite (await_task_fresh _ _ _ task) by done. cbn.
  destruct Hcalls as [Hzero|(_ & task' & r' & Htask' & Hr')]; [|congruence].
  specialize (Hbody (task_arg task)).
  set (w2 := (body (task_arg task) w).2) in *.
  set (r := (body (task_arg task) w).1).
  destruct Hbody as (Ho & Hs & Hc & Hent).
  assert (Htask2 : tasks w2 !! t = Some task) by (by rewrite Hent).
  unfold side_inv.
  replace (own_of side (settle t r w2)) with (Some t)
    by (rewrite <- Hown, <- Ho; by destruct side).
  split; [|split].
  - rewrite stages_settle. unfold stages. by rewrite list_lookup_fmap, Htask2.
  - unfold cnt_stage. rewrite stages_settle. fold (cnt_stage (stage_of side) w2). lia.
  - change (cnt_call (call_of side) (settle t r w2)) with (cnt_call (call_of side) w2).
    destruct Hc as [Hc|Hc]; [left; lia|right]. split; [lia|].
    unfold settled, settle. cbn. rewrite list_lookup_alter_eq, Htask2. cbn. eauto.
Qed.

(** Awaiting a task of another stage. *)
Lemma await_task_frame_other (side : Side) (body : JsVal → M World Value)
    (t : nat) (w : World) (s : Stage) :
  (∀ a w0, side_frame side w0 (body a w0).2) →
  (∀ a w0, stages w0 !! t = Some s → stages (body a w0).2 !! t = Some s) →
  stages w !! t = Some s → s ≠ stage_of side →
  side_frame side w (await_task body t w).2.
Proof.
  intros Hbody Hkeep Ht Hne.
  pose proof Ht as Ht'. unfold stages in Ht'. rewrite list_lookup_fmap in Ht'.
  destruct (tasks w !! t) as [task|] eqn:Htask; [|discriminate].
  destruct (task_result task) as [r|] eqn:Hr.
  { rewrite (await_task_settled _ _ _ task r) by done. apply side_frame_refl. }
  rewrite (await_task_fresh _ _ _ task) by done. cbn.
  eapply side_frame_trans; [apply Hbody|]. apply side_frame_settle.
  rewrite (Hkeep _ _ Ht). congruence.
Qed.

Lemma side_step_stage_lookup (side : Side) (w w' : World) (t : nat) :
  side_step side w w' →
  stages w !! t = Some (stage_of side) → stages w' !! t = Some (stage_of side).
Proof.
  intros (_ & _ & _ & Hent) Ht. unfold stages in *.
  rewrite list_lookup_fmap in *. by rewrite Hent by (by rewrite list_lookup_fmap).
Qed.

Lemma side_frame_set_own_uploaded (t : nat) (w : World) :
  side_frame SideDeploy w (set_own_uploaded t w).
Proof. done. Qed.

Lemma side_frame_set_own_deployed (t : nat) (w : World) :
  side_frame SideUpload w (set_own_deployed t w).
Proof. done. Qed.

(** Reading [uploaded]: never throws; installs the accessor when it starts
    a task; leaves the deploy stage alone. *)
Lemma uploaded_run (w : World) :
  (∃ th, (uploaded w).1 = Ok th ∧
         ∀ t, th = Pending t → own_uploaded (uploaded w).2 = Some t) ∧
  (side_inv SideUpload w → side_inv SideUpload (uploaded w).2) ∧
  side_frame SideDeploy w (uploaded w).2.
Proof.
  unfold uploaded, upload, defineTask. m_simpl.
  destruct (own_uploaded w) as [t|] eqn:Hown; m_simpl.
  { split; [eexists; split; [done|congruence]|]. split; [done|apply side_frame_refl]. }
  destruct (truthy (prop (this w) "codeId")); m_simpl.
  { split; [eexists; split; [done|congruence]|]. split; [done|apply side_frame_refl]. }
  split; [eexists; split; [done|]; by intros t [= <-]|]. split.
  - unfold side_inv. cbn. rewrite Hown. intros [Hs Hc]. split; [|split].
    + unfold stages. cbn. rewrite list_lookup_fmap, lookup_app_r by done.
      by rewrite Nat.sub_diag.
    + etrans; [apply (cnt_stage_add_task StUpload _ w)|]. cbn. rewrite Hs.
      by destruct (decide _).
    + by left.
  - eapply side_frame_trans; [|apply side_frame_set_own_uploaded].
    by apply side_frame_add_task.
Qed.

Lemma await_uploaded_run (w : World) :
  (side_inv SideUpload w → side_inv SideUpload (await_uploaded E w).2) ∧
  (side_inv SideUpload w → side_frame SideDeploy w (await_uploaded E w).2).
Proof.
  unfold await_uploaded. rewrite bind_run.
  destruct (uploaded_run w) as ((th & Hth & Hown) & Hinv & Hfr).
  destruct (uploaded w) as [r w1]. cbn in *. subst r.
  destruct th as [v|t]; [by split|]. cbn.
  specialize (Hown t eq_refl).
  split; intros HI; specialize (Hinv HI).
  - apply await_own_task_inv; [intros; apply uploadContract_run|done..].
  - eapply side_frame_trans; [exact Hfr|].
    pose proof Hinv as Hinv'. unfold side_inv in Hinv'. cbn in Hinv'.
    rewrite Hown in Hinv'. destruct Hinv' as (Ht & _).
    eapply (await_task_frame_other _ _ _ _ StUpload); [| |done..].
    + intros. apply uploadContract_run.
    + intros _ w0. apply (side_step_stage_lookup SideUpload), uploadContract_run.
Qed.

(** *** The deploy stage *)

Local Arguments await_uploaded : simpl never.

Ltac frame_one :=
  first [ apply side_frame_set_this
        | apply side_frame_put_call; cbn; congruence ].

Ltac peel_frame :=
  repeat first [ assumption | apply side_frame_refl
               | eapply side_frame_trans; [|frame_one] ].

Ltac peel_inv :=
  repeat first [ assumption | eapply side_inv_frame; [|frame_one] ].

Ltac peel_step :=
  repeat first [ assumption
               | apply side_frame_step; assumption
               | eapply side_step_frame_trans; [|frame_one]
               | (eapply side_frame_step_trans; [|apply side_step_put_call]);
                 peel_frame ].

(** The body of the deploy task keeps the upload stage sound, makes at most
    one instantiate call and leaves the deploy task alone. *)
Lemma deployContract_run (arg : JsVal) (w : World) :
  side_inv SideUpload w →
  side_inv SideUpload (deployContract E arg w).2 ∧
  side_step SideDeploy w (deployContract E arg w).2.
Proof.
  intros HI. unfold deployContract, define. m_simpl.
  destruct (truthy (prop (this w) "agent")); cbn;
    [|by split; [|apply side_step_refl]].
  destruct (truthy (prop (this w) "id")); cbn;
    [|by split; [|apply side_step_refl]].
  set (wl := set_this (<["label":=writeLabel E (this w)]> (this w)) w).
  assert (HIl : side_inv SideUpload wl) by peel_inv.
  assert (Hwl : side_frame SideDeploy w wl) by apply side_frame_set_this.
  destruct (truthy (prop _ "label")); cbn; [|split; [done|by apply side_frame_step]].
  destruct (truthy (prop _ "initMsg")); cbn; [|split; [done|by apply side_frame_step]].
  destruct (await_uploaded_run wl) as [Hinv Hfr].
  specialize (Hinv HIl). specialize (Hfr HIl).
  destruct (await_uploaded E wl) as [[v|e] w2]; cbn in *;
    [|split; [done|apply side_frame_step; by eapply side_frame_trans]].
  assert (Hw2 : side_frame SideDeploy w w2) by (by eapply side_frame_trans).
  repeat case_match; simplify_eq/=; (split; [peel_inv|peel_step]).
Qed.

Lemma await_task_inv_other (side : Side) (body : JsVal → M World Value)
    (t : nat) (w : World) (s : Stage) :
  side_inv side w →
  (∀ a, side_inv side (body a w).2) →
  (∀ a, stages (body a w).2 !! t = Some s) →
  s ≠ stage_of side →
  side_inv side (await_task body t w).2.
Proof.
  intros HI Hbody Hkeep Hne.
  destruct (tasks w !! t) as [task|] eqn:Htask;
    [|by rewrite await_task_missing].
  destruct (task_result task) as [r|] eqn:Hr.
  { by rewrite (await_task_settled _ _ _ task r). }
  rewrite (await_task_fresh _ _ _ task) by done. cbn.
  eapply side_inv_frame; [apply Hbody|]. apply side_frame_settle.
  rewrite Hkeep. congruence.
Qed.

(** Reading [deployed]: never throws; installs the accessor when it starts
    a task; leaves the upload stage alone. *)
Lemma deployed_run (w : World) :
  (∃ th, (deployed w).1 = Ok th ∧
         ∀ t, th = Pending t → own_deployed (deployed w).2 = Some t) ∧
  (side_inv SideDeploy w → side_inv SideDeploy (deployed w).2) ∧
  side_frame SideUpload w (deployed w).2.
Proof.
  unfold deployed, deploy, defineTask. m_simpl.
  destruct (own_deployed w) as [t|] eqn:Hown; m_simpl.
  { split; [eexists; split; [done|congruence]|]. split; [done|apply side_frame_refl]. }
  destruct (truthy (prop (this w) "address")); m_simpl.
  { split; [eexists; split; [done|congruence]|]. split; [done|apply side_frame_refl]. }
  split; [eexists; split; [done|]; by intros t [= <-]|]. split.
  - unfold side_inv. cbn. rewrite Hown. intros [Hs Hc]. split; [|split].
    + unfold stages. cbn. rewrite list_lookup_fmap, lookup_app_r by done.
      by rewrite Nat.sub_diag.
    + etrans; [apply (cnt_stage_add_task StDeploy _ w)|]. cbn. rewrite Hs.
      by destruct (decide _).
    + by left.
  - eapply side_frame_trans; [|apply side_frame_set_own_deployed].
    by apply side_frame_add_task.
Qed.

Lemma await_deployed_run (w : World) : Inv w → Inv (await_deployed E w).2.
Proof.
  intros HI. unfold await_deployed. rewrite bind_run.
  destruct (deployed_run w) as ((th & Hth & Hown) & Hinv & Hfr).
  specialize (Hinv (HI SideDeploy)).
  pose proof (side_inv_frame _ _ _ (HI SideUpload) Hfr) as HU.
  destruct (deployed w) as [r w1]. cbn in *. subst r.
  destruct th as [v|t]; cbn; [by intros []|].
  specialize (Hown t eq_refl).
  pose proof Hinv as Hinv'. unfold side_inv in Hinv'. cbn in Hinv'.
  rewrite Hown in Hinv'. destruct Hinv' as (Ht & _).
  intros [].
  - apply (await_task_inv_other _ _ _ _ StDeploy); [done| | |done].
    + intros a. by apply deployContract_run.
    + intros a. apply (side_step_stage_lookup SideDeploy w1); [|done].
      by apply deployContract_run.
  - apply await_own_task_inv; [|done..]. intros a. by apply deployContract_run.
Qed.

Lemma compiled_frame (side : Side) (w : World) : side_frame side w (compiled w).2.
Proof.
  unfold compiled, build, defineTask. m_simpl.
  destruct (truthy (prop (this w) "artifact")); m_simpl; [apply side_frame_refl|].
  apply side_frame_add_task. by destruct side.
Qed.

(** Every read and every awaited read keeps the two stages sound. *)
Lemma step_inv (w : World) (op : Op) : Inv w → Inv (step E w op).
Proof.
  intros HI. destruct op as [[]|[]]; cbn.
  - intros side. eapply side_inv_frame; [apply HI|apply compiled_frame].
  - intros [].
    + by apply uploaded_run.
    + eapply side_inv_frame; [apply HI|apply uploaded_run].
  - intros [].
    + eapply side_inv_frame; [apply HI|apply deployed_run].
    + by apply deployed_run.
  - intros side. eapply side_inv_frame; [apply HI|apply await_compiled_frame].
  - intros [].
    + by apply await_uploaded_run.
    + eapply side_inv_frame; [apply HI|by apply await_uploaded_run].
  - by apply await_deployed_run.
Qed.

Lemma Inv_new (c : Class) (fields : gmap string JsVal) : Inv (World_new c fields).
Proof. by intros []. Qed.

Lemma steps_inv (ops : list Op) (w : World) : Inv w → Inv (steps E ops w).
Proof.
  revert w. induction ops as [|op ops IH]; intros w HI; [done|].
  cbn. apply IH. by apply step_inv.
Qed.

(** *** An installed accessor stays installed *)

Lemma own_mono_refl (w : World) : own_mono w w.
Proof. by intros ??. Qed.

Lemma own_mono_trans (w1 w2 w3 : World) :
  own_mono w1 w2 → own_mono w2 w3 → own_mono w1 w3.
Proof. intros H12 H23 side t Ht. by apply H23, H12. Qed.

Lemma own_mono_frames (w w' : World) :
  (∀ side, own_of side w' = own_of side w) → own_mono w w'.
Proof. intros H side t Ht. by rewrite H. Qed.

Lemma own_mono_await_task (body : JsVal → M World Value) (t : nat) (w : World) :
  (∀ a, own_mono w (body a w).2) → own_mono w (await_task body t w).2.
Proof.
  intros Hbody. unfold await_task. destruct (tasks w !! t) as [task|]; [|by intros ??].
  destruct (task_result task); [by intros ??|].
  specialize (Hbody (task_arg task)). destruct (body _ _) as [r w2]. cbn in *.
  intros side tt Ht. specialize (Hbody side tt Ht). by destruct side.
Qed.

Lemma own_mono_uploadContract (w : World) : own_mono w (uploadContract E w).2.
Proof.
  apply own_mono_frames. intros [].
  - apply (uploadContract_run w).
  - apply (uploadContract_run w).
Qed.

Lemma own_mono_uploaded (w : World) : own_mono w (uploaded w).2.
Proof.
  unfold uploaded, upload, defineTask. m_simpl.
  destruct (own_uploaded w) as [t|] eqn:Hown; m_simpl; [by intros ??|].
  destruct (truthy _); m_simpl; [by intros ??|].
  intros [] t Ht; cbn in *; congruence.
Qed.

Lemma own_mono_await_uploaded (w : World) : own_mono w (await_uploaded E w).2.
Proof.
  unfold await_uploaded. rewrite bind_run.
  pose proof (own_mono_uploaded w) as H1. destruct (uploaded w) as [[[v|t]|e] w1]; cbn in *;
    [done| |done].
  eapply own_mono_trans; [exact H1|]. apply own_mono_await_task.
  intros _. apply own_mono_uploadContract.
Qed.

Lemma own_mono_deployContract (arg : JsVal) (w : World) :
  own_mono w (deployContract E arg w).2.
Proof.
  unfold deployContract, define. m_simpl.
  destruct (truthy (prop (this w) "agent")); cbn; [|apply own_mono_refl].
  destruct (truthy (prop (this w) "id")); cbn; [|apply own_mono_refl].
  set (wl := set_this (<["label":=writeLabel E (this w)]> (this w)) w).
  assert (Hwl : own_mono w wl) by (intros [] ??; done).
  destruct (truthy (prop _ "label")); cbn; [|done].
  destruct (truthy (prop _ "initMsg")); cbn; [|done].
  pose proof (own_mono_await_uploaded wl) as H2.
  destruct (await_uploaded E wl) as [[v|e] w2]; cbn in *;
    [|exact (own_mono_trans _ _ _ Hwl H2)].
  assert (Hw2 : own_mono w w2) by exact (own_mono_trans _ _ _ Hwl H2).
  repeat case_match; simplify_eq/=; intros side t Ht; specialize (Hw2 side t Ht);
    by destruct side.
Qed.

Lemma own_mono_deployed (w : World) : own_mono w (deployed w).2.
Proof.
  unfold deployed, deploy, defineTask. m_simpl.
  destruct (own_deployed w) as [t|] eqn:Hown; m_simpl; [by intros ??|].
  destruct (truthy _); m_simpl; [by intros ??|].
  intros [] t Ht; cbn in *; congruence.
Qed.

Lemma own_mono_await_deployed (w : World) : own_mono w (await_deployed E w).2.
Proof.
  unfold await_deployed. rewrite bind_run.
  pose proof (own_mono_deployed w) as H1. destruct (deployed w) as [[[v|t]|e] w1]; cbn in *;
    [done| |done].
  eapply own_mono_trans; [exact H1|]. apply own_mono_await_task.
  intros a. apply own_mono_deployContract.
Qed.

Lemma own_mono_step (w : World) (op : Op) : own_mono w (step E w op).
Proof.
  destruct op as [[]|[]]; cbn.
  - apply own_mono_frames. intros side. apply compiled_frame.
  - apply own_mono_uploaded.
  - apply own_mono_deployed.
  - apply own_mono_frames. intros side. apply await_compiled_frame.
  - apply own_mono_await_uploaded.
  - apply own_mono_await_deployed.
Qed.

Lemma own_mono_steps (ops : list Op) (w : World) : own_mono w (steps E ops w).
Proof.
  revert w. induction ops as [|op ops IH]; intros w; [apply own_mono_refl|].
  cbn. eapply own_mono_trans; [apply own_mono_step|apply IH].
Qed.

(** Once installed, the accessor answers every read with its task and does
    nothing else. *)
Lemma uploaded_memo (t : nat) (w : World) :
  own_uploaded w = Some t → uploaded w = (Ok (Pending t), w).
Proof. intros H. unfold uploaded. m_simpl. by rewrite H. Qed.

Lemma deployed_memo (t : nat) (w : World) :
  own_deployed w = Some t → deployed w = (Ok (Pending t), w).
Proof. intros H. unfold deployed. m_simpl. by rewrite H. Qed.



End ContractStages.


(** ** Contract: what [deploy] and [build] require *)

Section ContractRequirements.
Import Contract.
Variable E : Env.

Local Arguments await_uploaded : simpl never.

(** [deploy()] makes a task and runs it: the body runs on the world that
    holds the new task, and its outcome is recorded in the task. *)
Lemma deploy_await_run (initMsg : JsVal) (w : World) :
  deploy_await E initMsg w =
  let body := deployContract E (default_param initMsg (prop (this w) "initMsg"))
                (deploy initMsg w).2 in
  (body.1, settle (length (tasks w)) body.1 body.2).
Proof.
  unfold deploy_await. rewrite bind_run. unfold deploy, defineTask. m_simpl.
  match goal with |- context [set_tasks (tasks w ++ [?task]) w] =>
    set (dt := task); set (w1 := set_tasks (tasks w ++ [dt]) w) end.
  assert (Hdt : tasks w1 !! length (tasks w) = Some dt).
  { cbn. by rewrite lookup_app_r, Nat.sub_diag. }
  by rewrite (await_task_fresh _ _ _ dt).
Qed.

Lemma build_await_run (w : World) :
  (build_await E w).1 = (buildContract E (build w).2).1.
Proof.
  unfold build_await. rewrite bind_run. unfold build, defineTask. m_simpl.
  match goal with |- context [set_tasks (tasks w ++ [?task]) w] =>
    set (bt := task); set (w1 := set_tasks (tasks w ++ [bt]) w) end.
  assert (Hbt : tasks w1 !! length (tasks w) = Some bt).
  { cbn. by rewrite lookup_app_r, Nat.sub_diag. }
  by rewrite (await_task_fresh _ _ _ bt).
Qed.

(** C3: neither [deploy()] nor reading [deployed] throws; the task that
    [deploy()] returns fails, when awaited, with [NoAgent] if the agent is
    unset; with [NoName] if (the agent is set and) the id is unset; with
    [NoInitLabel] if (these are set and) no label is composed; with
    [NoInitMessage] if (there is a label and) the init message is unset; and
    with [NoInitCodeId] if (all these are set and) the upload stage completes
    leaving the code id unset.  Whenever one of the first four is missing,
    the task fails with one of these four errors before any call to the
    builder, the uploader or the agent.  The task of [build()] on a contract
    template fails with [NoCrate] if the crate is unset.  The task of
    [build()] on a contract ([Contract], lines 684-693) does not look at the
    crate: whenever there is a builder and it builds, the task succeeds. *)
Theorem deploy_reports_what_is_missing (w : World) (initMsg : JsVal) :
  let r := (deploy_await E initMsg w).1 in
  (∃ t w', deploy initMsg w = (Ok t, w')) ∧
  (∃ th, (deployed w).1 = Ok th) ∧
  (truthy (prop (this w) "agent") = false → r = Throw NoAgent) ∧
  (truthy (prop (this w) "agent") = true →
   truthy (prop (this w) "id") = false → r = Throw NoName) ∧
  (truthy (prop (this w) "agent") = true →
   truthy (prop (this w) "id") = true →
   truthy (writeLabel E (this w)) = false → r = Throw NoInitLabel) ∧
  (truthy (prop (this w) "agent") = true →
   truthy (prop (this w) "id") = true →
   truthy (writeLabel E (this w)) = true →
   truthy (prop (this w) "initMsg") = false → r = Throw NoInitMessage) ∧
  (truthy (prop (this w) "agent") = true →
   truthy (prop (this w) "id") = true →
   truthy (writeLabel E (this w)) = true →
   truthy (prop (this w) "initMsg") = true →
   ∀ v w2, await_uploaded E (at_upload E initMsg w) = (Ok v, w2) →
           truthy (prop (this w2) "codeId") = false → r = Throw NoInitCodeId) ∧
  (truthy (prop (this w) "agent") = false ∨ truthy (prop (this w) "id") = false ∨
   truthy (writeLabel E (this w)) = false ∨ truthy (prop (this w) "initMsg") = false →
   ∃ e, r = Throw e ∧ e ∈ [NoAgent; NoName; NoInitLabel; NoInitMessage] ∧
        calls (deploy_await E initMsg w).2 = calls w) ∧
  (cls w = ClsTemplate → truthy (prop (this w) "crate") = false →
   (build_await E w).1 = Throw NoCrate) ∧
  (cls w = ClsContract →
   ∀ builder result, assertBuilder E (this w) = Ok builder →
                     Builder_build E builder (this w) = Ok result →
     (build_await E w).1 = Ok VThis).
Proof.
  intros r. subst r. rewrite deploy_await_run. cbn zeta.
  assert (Hthis : this (deploy initMsg w).2 = this w) by done.
  assert (Hcalls : calls (deploy initMsg w).2 = calls w) by done.
  assert (Hlabel : ∀ o : gmap string JsVal,
            prop (<["label" := writeLabel E o]> o) "label" = writeLabel E o).
  { intros o. unfold prop. by rewrite lookup_insert_eq. }
  assert (Hother : ∀ (o : gmap string JsVal) key, key ≠ "label" →
            prop (<["label" := writeLabel E o]> o) key = prop o key).
  { intros o key Hne. unfold prop. by rewrite lookup_insert_ne. }
  split; [unfold deploy, defineTask; m_simpl; by do 2 eexists|].
  split; [destruct (deployed_run w) as ((th & Hth & _) & _); eauto|].
  unfold at_upload.
  set (w1 := (deploy initMsg w).2) in *. clearbody w1.
  set (arg := default_param initMsg (prop (this w) "initMsg")). clearbody arg.
  unfold deployContract. m_simpl. rewrite Hthis.
  split; [by intros ->|]. split; [by intros -> ->|].
  split; [|split; [|split; [|split]]].
  - intros -> -> Hl. cbn. by rewrite Hthis, Hlabel, Hl.
  - intros -> -> Hl Hm. cbn. rewrite Hthis, Hlabel, Hl. cbn.
    by rewrite Hother, Hm.
  - intros -> -> Hl Hm v w2 Hup Hcode. cbn. rewrite Hthis, Hlabel, Hl. cbn.
    rewrite Hother, Hm by done. cbn. rewrite Hup. cbn. by rewrite Hcode.
  - intros Hmissing.
    destruct (truthy (prop (this w) "agent")) eqn:Ha; cbn;
      [|exists NoAgent; repeat split; [in_list|done]].
    destruct (truthy (prop (this w) "id")) eqn:Hi; cbn;
      [|exists NoName; repeat split; [in_list|done]].
    rewrite Hthis, Hlabel.
    destruct (truthy (writeLabel E (this w))) eqn:Hl; cbn;
      [|exists NoInitLabel; repeat split; [in_list|done]].
    rewrite Hother by done.
    destruct (truthy (prop (this w) "initMsg")) eqn:Hm; cbn;
      [|exists NoInitMessage; repeat split; [in_list|done]].
    by destruct Hmissing as [?|[?|[?|?]]].
  - split.
    + intros Hcls Hcrate. rewrite build_await_run.
      unfold buildContract, build, defineTask. m_simpl. by rewrite Hcls, Hcrate.
    + intros Hcls builder result Hbuilder Hresult. rewrite build_await_run.
      unfold buildContract, build, defineTask. m_simpl.
      rewrite Hcls. cbn. rewrite Hbuilder. cbn. by rewrite Hresult.
Qed.

End ContractRequirements.

Lemma deploy_reports_what_is_missing_witness :
  let new := Contract.World_new Contract.ClsContract in
  let with_agent := <["agent" := JRef 1]> Samples.blank in
  let with_id := <["id" := JStr "name"]> with_agent in
  (Contract.deploy_await Samples.env JUndefined (new Samples.blank)).1 = Throw NoAgent ∧
  (Contract.deploy_await Samples.env JUndefined (new with_agent)).1 = Throw NoName ∧
  (Contract.deploy_await Samples.env_unlabelled JUndefined (new with_id)).1
    = Throw NoInitLabel ∧
  (Contract.deploy_await Samples.env JUndefined (new with_id)).1 = Throw NoInitMessage ∧
  (Contract.deploy_await Samples.env JUndefined (new Samples.configured)).1
    = Throw NoInitCodeId ∧
  (Contract.build_await Samples.env
     (Contract.World_new Contract.ClsTemplate Samples.blank)).1 = Throw NoCrate.
Proof.
  intros new with_agent with_id.
  pose proof (deploy_reports_what_is_missing Samples.env (new Samples.blank) JUndefined)
    as (_ & _ & H1 & _).
  pose proof (deploy_reports_what_is_missing Samples.env (new with_agent) JUndefined)
    as (_ & _ & _ & H2 & _).
  pose proof (deploy_reports_what_is_missing Samples.env_unlabelled (new with_id) JUndefined)
    as (_ & _ & _ & _ & H3 & _).
  pose proof (deploy_reports_what_is_missing Samples.env (new with_id) JUndefined)
    as (_ & _ & _ & _ & _ & H4 & _).
  pose proof (deploy_reports_what_is_missing Samples.env (new Samples.configured) JUndefined)
    as (_ & _ & _ & _ & _ & _ & H5 & _).
  pose proof (deploy_reports_what_is_missing Samples.env
                (Contract.World_new Contract.ClsTemplate Samples.blank) JUndefined)
    as (_ & _ & _ & _ & _ & _ & _ & _ & H6 & _).
  split; [exact (H1 eq_refl)|]. split; [exact (H2 eq_refl eq_refl)|].
  split; [exact (H3 eq_refl eq_refl eq_refl)|].
  split; [exact (H4 eq_refl eq_refl eq_refl eq_refl)|].
  split; [|exact (H6 eq_refl eq_refl)].
  exact (H5 eq_refl eq_refl eq_refl eq_refl Contract.VThis
           (Contract.await_uploaded Samples.env
              (Contract.at_upload Samples.env JUndefined (new Samples.configured))).2
           eq_refl eq_refl).
Defined.

(** C3, as the claim has it, fails for the build stage: a contract with a
    builder and no crate is built; the task of [build()] does not fail with
    [NoCrate]. *)
Lemma build_of_contract_without_crate :
  let w := Contract.World_new Contract.ClsContract Samples.crateless in
  truthy (Contract.prop (Contract.this w) "crate") = false ∧
  (Contract.build_await Samples.env w).1 = Ok Contract.VThis ∧
  (Contract.build_await Samples.env w).1 ≠ Throw NoCrate.
Proof. intros w. split; [|split]; [vm_compute; reflexivity..|discriminate]. Qed.

(** ** Mocknet: base64 *)

Section Base64RoundTrip.
Import Base64.
Local Open Scope N_scope.

(** Induction over a list three (resp. four) elements at a time. *)
Lemma list_ind3 {A} (P : list A → Prop) :
  P [] → (∀ a, P [a]) → (∀ a b, P [a; b]) →
  (∀ a b c l, P l → P (a :: b :: c :: l)) → ∀ l, P l.
Proof.
  intros H0 H1 H2 H3 l.
  assert (H : P l ∧ (∀ a, P (a :: l)) ∧ (∀ a b, P (a :: b :: l))); [|by destruct H].
  induction l as [|x l (IH0 & IH1 & IH2)]; [by auto|].
  split; [apply IH1|]. split; [intros a; apply IH2|]. intros a b. by apply H3.
Qed.

Lemma list_ind4 {A} (P : list A → Prop) :
  P [] → (∀ a, P [a]) → (∀ a b, P [a; b]) → (∀ a b c, P [a; b; c]) →
  (∀ a b c d l, P l → P (a :: b :: c :: d :: l)) → ∀ l, P l.
Proof.
  intros H0 H1 H2 H3 H4 l.
  assert (H : P l ∧ (∀ a, P (a :: l)) ∧ (∀ a b, P (a :: b :: l)) ∧
              (∀ a b c, P (a :: b :: c :: l))); [|by destruct H].
  induction l as [|x l (IH0 & IH1 & IH2 & IH3)]; [by auto|].
  split; [apply IH1|]. split; [intros a; apply IH2|].
  split; [intros a b; apply IH3|]. intros a b c. by apply H4.
Qed.

(** *** The alphabet *)

Lemma index_of_Some (c : ascii) (l : list ascii) (i n : N) :
  index_of c l i = Some n → ∃ k, n = i + N.of_nat k ∧ l !! k = Some c.
Proof.
  revert i. induction l as [|x l IH]; intros i; [done|]. cbn.
  destruct (Ascii.eqb_spec x c) as [->|Hne].
  - intros [= <-]. exists 0%nat. split; [lia|done].
  - intros (k & -> & Hk)%IH. exists (S k). split; [lia|done].
Qed.

Lemma index_of_lookup (c : ascii) (l : list ascii) (i : N) (k : nat) :
  NoDup l → l !! k = Some c → index_of c l i = Some (i + N.of_nat k).
Proof.
  intros Hnd. revert i k. induction Hnd as [|x l Hx Hnd IH]; intros i k; [done|].
  destruct k as [|k]; cbn.
  - intros [= ->]. rewrite Ascii.eqb_refl. f_equal. lia.
  - intros Hk. destruct (Ascii.eqb_spec x c) as [->|Hne].
    + destruct Hx. by eapply list_elem_of_lookup_2.
    + rewrite (IH _ k) by done. f_equal. lia.
Qed.

Lemma alphabet_NoDup : NoDup alphabet.
Proof. apply (bool_decide_unpack (NoDup alphabet)). by vm_compute. Qed.

Lemma alphabet_length : length alphabet = 64%nat.
Proof. reflexivity. Qed.

Lemma pad_not_in_alphabet : sextet_of_char pad = None.
Proof. reflexivity. Qed.

Lemma sextet_of_char_of_sextet (n : N) :
  n < 64 → sextet_of_char (char_of_sextet n) = Some n.
Proof.
  intros Hn. unfold sextet_of_char, char_of_sextet.
  destruct (alphabet !! N.to_nat n) as [c|] eqn:Hc.
  - rewrite (nth_lookup_Some _ _ _ _ Hc).
    rewrite (index_of_lookup c alphabet 0 (N.to_nat n)) by auto using alphabet_NoDup.
    f_equal. lia.
  - apply lookup_ge_None in Hc. rewrite alphabet_length in Hc. lia.
Qed.

Lemma char_of_sextet_of_char (c : ascii) (n : N) :
  sextet_of_char c = Some n → char_of_sextet n = c ∧ n < 64.
Proof.
  intros (k & -> & Hk)%index_of_Some. unfold char_of_sextet.
  replace (N.to_nat (0 + N.of_nat k)) with k by lia.
  split; [by apply nth_lookup_Some|].
  apply lookup_lt_Some in Hk. rewrite alphabet_length in Hk. lia.
Qed.

Lemma char_of_sextet_not_pad (n : N) :
  n < 64 → Ascii.eqb (char_of_sextet n) pad = false.
Proof.
  intros Hn. destruct (Ascii.eqb_spec (char_of_sextet n) pad) as [Heq|]; [|done].
  pose proof (sextet_of_char_of_sextet n Hn) as H. rewrite Heq in H. discriminate.
Qed.

Lemma in_alphabet_sextet (c : ascii) :
  in_alphabet c = true → ∃ n, sextet_of_char c = Some n.
Proof.
  unfold in_alphabet. rewrite bool_decide_eq_true.
  intros (k & Hk)%list_elem_of_lookup_1. eexists.
  by apply index_of_lookup; [apply alphabet_NoDup|].
Qed.
(** *** Bytes and 6-bit groups *)

Lemma div_high (hi lo k : N) : lo < k → (hi * k + lo) / k = hi.
Proof.
  intros Hlo. rewrite N.div_add_l by lia. rewrite N.div_small by done. lia.
Qed.

Lemma mod_low (hi lo k : N) : lo < k → (hi * k + lo) mod k = lo.
Proof.
  intros Hlo. rewrite N.add_comm, N.Div0.mod_add. by apply N.mod_small.
Qed.

(** [n = q * k + r] with [r < k], for [q = n / k] and [r = n mod k]. *)
Ltac split_at n k :=
  let q := fresh "q" in let r := fresh "r" in
  let Hn := fresh "Hn" in let Hr := fresh "Hr" in
  assert (Hn : n = (n / k) * k + n mod k) by (rewrite N.mul_comm; apply N.div_mod; lia);
  assert (Hr : n mod k < k) by (apply N.mod_lt; lia);
  set (q := n / k) in *; set (r := n mod k) in *;
  clearbody q r.

Lemma sextets_of_bytes (a b c : N) :
  a < 256 → b < 256 → c < 256 →
  a / 4 < 64 ∧ (a mod 4) * 16 + b / 16 < 64 ∧
  (b mod 16) * 4 + c / 64 < 64 ∧ c mod 64 < 64.
Proof.
  intros Ha Hb Hc. split_at a 4. split_at b 16. split_at c 64. lia.
Qed.

Lemma bytes_of_sextets_of_bytes (a b c : N) :
  a < 256 → b < 256 → c < 256 →
  (a / 4) * 4 + ((a mod 4) * 16 + b / 16) / 16 = a ∧
  (((a mod 4) * 16 + b / 16) mod 16) * 16 + ((b mod 16) * 4 + c / 64) / 4 = b ∧
  (((b mod 16) * 4 + c / 64) mod 4) * 64 + c mod 64 = c.
Proof.
  intros Ha Hb Hc. split_at a 4. split_at b 16. split_at c 64.
  rewrite !div_high, !mod_low by lia. lia.
Qed.

Lemma bytes_of_sextets (s1 s2 s3 s4 : N) :
  s1 < 64 → s2 < 64 → s3 < 64 → s4 < 64 →
  s1 * 4 + s2 / 16 < 256 ∧ (s2 mod 16) * 16 + s3 / 4 < 256 ∧
  (s3 mod 4) * 64 + s4 < 256.
Proof.
  intros H1 H2 H3 H4. split_at s2 16. split_at s3 4. lia.
Qed.

Lemma sextets_of_bytes_of_sextets (s1 s2 s3 s4 : N) :
  s1 < 64 → s2 < 64 → s3 < 64 → s4 < 64 →
  (s1 * 4 + s2 / 16) / 4 = s1 ∧
  ((s1 * 4 + s2 / 16) mod 4) * 16 + ((s2 mod 16) * 16 + s3 / 4) / 16 = s2 ∧
  (((s2 mod 16) * 16 + s3 / 4) mod 16) * 4 + ((s3 mod 4) * 64 + s4) / 64 = s3 ∧
  ((s3 mod 4) * 64 + s4) mod 64 = s4.
Proof.
  intros H1 H2 H3 H4. split_at s2 16. split_at s3 4.
  rewrite !div_high, !mod_low by lia. lia.
Qed.

(** *** Decoding what was encoded *)

Local Arguments char_of_sextet : simpl never.
Local Arguments sextet_of_char : simpl never.

Lemma decode_full_group (c1 c2 c3 c4 : ascii) (rest : list ascii) (s1 s2 s3 s4 : N) :
  sextet_of_char c1 = Some s1 → sextet_of_char c2 = Some s2 →
  sextet_of_char c3 = Some s3 → sextet_of_char c4 = Some s4 →
  decode (c1 :: c2 :: c3 :: c4 :: rest) =
  bytes ← decode rest;
  Some (s1 * 4 + s2 / 16 :: (s2 mod 16) * 16 + s3 / 4 :: (s3 mod 4) * 64 + s4 :: bytes).
Proof.
  intros H1 H2 H3 H4. cbn [decode]. rewrite H1, H2, H3, H4. cbn.
  destruct (Ascii.eqb_spec c4 pad) as [->|_]; [|done].
  rewrite pad_not_in_alphabet in H4. discriminate.
Qed.

Lemma decode_encode (bytes : list N) :
  Forall byte bytes → decode (encode bytes) = Some bytes.
Proof.
  induction bytes as [|a|a b|a b c bytes IH] using list_ind3; [done|..].
  - intros [Ha _]%Forall_cons.
    destruct (sextets_of_bytes a 0 0) as (H1 & H2 & _); [done..|].
    destruct (bytes_of_sextets_of_bytes a 0 0) as (Hb1 & _); [done..|].
    cbn [encode decode]. rewrite N.add_0_r in H2, Hb1.
    rewrite !sextet_of_char_of_sextet by done. cbn.
    replace (((a mod 4) * 16) mod 16 =? 0) with true; [by rewrite Hb1|].
    symmetry. apply N.eqb_eq. rewrite <- (N.add_0_r (_ * 16)). by apply mod_low.
  - intros [Ha [Hb _]%Forall_cons]%Forall_cons.
    destruct (sextets_of_bytes a b 0) as (H1 & H2 & H3 & _); [done..|].
    destruct (bytes_of_sextets_of_bytes a b 0) as (Hb1 & Hb2 & _); [done..|].
    cbn [encode decode]. rewrite N.add_0_r in H3, Hb2.
    rewrite !sextet_of_char_of_sextet by done. cbn.
    rewrite char_of_sextet_not_pad by done.
    replace (((b mod 16) * 4) mod 4 =? 0) with true; [by rewrite Hb1, Hb2|].
    symmetry. apply N.eqb_eq. rewrite <- (N.add_0_r (_ * 4)). by apply mod_low.
  - intros [Ha [Hb [Hc Hrest]%Forall_cons]%Forall_cons]%Forall_cons.
    destruct (sextets_of_bytes a b c) as (H1 & H2 & H3 & H4); [done..|].
    destruct (bytes_of_sextets_of_bytes a b c) as (Hb1 & Hb2 & Hb3); [done..|].
    change (encode (a :: b :: c :: bytes)) with
      (char_of_sextet (a / 4) :: char_of_sextet ((a mod 4) * 16 + b / 16) ::
       char_of_sextet ((b mod 16) * 4 + c / 64) :: char_of_sextet (c mod 64) ::
       encode bytes).
    erewrite decode_full_group by (by apply sextet_of_char_of_sextet).
    rewrite IH by done. cbn. by rewrite Hb1, Hb2, Hb3.
Qed.

(** *** Encoding what was decoded *)

Lemma decode_bytes (chars : list ascii) (bytes : list N) :
  decode chars = Some bytes → Forall byte bytes.
Proof.
  revert bytes.
  induction chars as [|c1|c1 c2|c1 c2 c3|c1 c2 c3 c4 rest IH] using list_ind4;
    intros bytes; try done.
  { by intros [= <-]. }
  cbn [decode].
  destruct (sextet_of_char c1) as [s1|] eqn:E1; [|done].
  destruct (sextet_of_char c2) as [s2|] eqn:E2; [|done]. cbn.
  apply char_of_sextet_of_char in E1 as [_ H1], E2 as [_ H2].
  destruct (Ascii.eqb c4 pad).
  - destruct rest; [|done]. destruct (Ascii.eqb c3 pad).
    + destruct (_ =? 0); [|done]. intros [= <-].
      destruct (bytes_of_sextets s1 s2 0 0) as (? & _); [done..|].
      by repeat constructor.
    + destruct (sextet_of_char c3) as [s3|] eqn:E3; [|done]. cbn.
      apply char_of_sextet_of_char in E3 as [_ H3].
      destruct (_ =? 0); [|done]. intros [= <-].
      destruct (bytes_of_sextets s1 s2 s3 0) as (? & ? & _); [done..|].
      by repeat constructor.
  - destruct (sextet_of_char c3) as [s3|] eqn:E3; [|done].
    destruct (sextet_of_char c4) as [s4|] eqn:E4; [|done]. cbn.
    apply char_of_sextet_of_char in E3 as [_ H3], E4 as [_ H4].
    destruct (decode rest) as [bytes'|]; [|done]. cbn. intros [= <-].
    destruct (bytes_of_sextets s1 s2 s3 s4) as (? & ? & ?); [done..|].
    repeat constructor; try done. by apply IH.
Qed.

Lemma encode_decode (chars : list ascii) (bytes : list N) :
  decode chars = Some bytes → encode bytes = chars.
Proof.
  revert bytes.
  induction chars as [|c1|c1 c2|c1 c2 c3|c1 c2 c3 c4 rest IH] using list_ind4;
    intros bytes; try done.
  { by intros [= <-]. }
  cbn [decode].
  destruct (sextet_of_char c1) as [s1|] eqn:E1; [|done].
  destruct (sextet_of_char c2) as [s2|] eqn:E2; [|done]. cbn.
  apply char_of_sextet_of_char in E1 as [<- H1], E2 as [<- H2].
  destruct (Ascii.eqb_spec c4 pad) as [->|Hc4].
  - destruct rest; [|done]. destruct (Ascii.eqb_spec c3 pad) as [->|Hc3].
    + destruct (N.eqb_spec (s2 mod 16) 0) as [Hz|]; [|done]. intros [= <-].
      destruct (sextets_of_bytes_of_sextets s1 s2 0 0) as (Hs1 & Hs2 & _); [done..|].
      cbn [encode]. rewrite Hs1. do 2 f_equal.
      f_equal. rewrite Hz in Hs2. cbn in Hs2. by rewrite N.add_0_r in Hs2.
    + destruct (sextet_of_char c3) as [s3|] eqn:E3; [|done]. cbn.
      apply char_of_sextet_of_char in E3 as [<- H3].
      destruct (N.eqb_spec (s3 mod 4) 0) as [Hz|]; [|done]. intros [= <-].
      destruct (sextets_of_bytes_of_sextets s1 s2 s3 0) as (Hs1 & Hs2 & Hs3 & _);
        [done..|].
      cbn [encode]. rewrite Hs1, Hs2. do 3 f_equal.
      f_equal. rewrite Hz in Hs3. cbn in Hs3. by rewrite N.add_0_r in Hs3.
  - destruct (sextet_of_char c3) as [s3|] eqn:E3; [|done].
    destruct (sextet_of_char c4) as [s4|] eqn:E4; [|done]. cbn.
    apply char_of_sextet_of_char in E3 as [<- H3], E4 as [<- H4].
    destruct (decode rest) as [bytes'|] eqn:Hrest; [|done]. cbn. intros [= <-].
    destruct (sextets_of_bytes_of_sextets s1 s2 s3 s4) as (Hs1 & Hs2 & Hs3 & Hs4);
      [done..|].
    change (encode (?a :: ?b :: ?c :: bytes')) with
      (char_of_sextet (a / 4) :: char_of_sextet ((a mod 4) * 16 + b / 16) ::
       char_of_sextet ((b mod 16) * 4 + c / 64) :: char_of_sextet (c mod 64) ::
       encode bytes').
    rewrite Hs1, Hs2, Hs3, Hs4. do 4 f_equal. by apply IH.
Qed.

(** *** Well-formed text decodes *)

Lemma in_alphabet_not_pad (c : ascii) :
  in_alphabet c = true → Ascii.eqb c pad = false.
Proof.
  intros [n Hn]%in_alphabet_sextet.
  destruct (Ascii.eqb_spec c pad) as [->|]; [|done].
  rewrite pad_not_in_alphabet in Hn. discriminate.
Qed.

Lemma valid_decodes (chars : list ascii) :
  valid chars = true → is_Some (decode chars).
Proof.
  induction chars as [|c1|c1 c2|c1 c2 c3|c1 c2 c3 c4 rest IH] using list_ind4;
    try done.
  destruct rest as [|c5 rest].
  - cbn [valid decode]. unfold valid_last, low_bits_zero. rewrite !andb_true_iff.
    intros [[[s1 ->]%in_alphabet_sextet [s2 ->]%in_alphabet_sextet] Hlast]. cbn.
    destruct (Ascii.eqb c4 pad) eqn:E4.
    + destruct (Ascii.eqb c3 pad).
      * by rewrite Hlast.
      * apply andb_true_iff in Hlast as [[s3 E3]%in_alphabet_sextet Hlow].
        rewrite E3 in *. cbn. by rewrite Hlow.
    + apply andb_true_iff in
        Hlast as [[s3 ->]%in_alphabet_sextet [s4 ->]%in_alphabet_sextet].
      by cbn.
  - change (valid (c1 :: c2 :: c3 :: c4 :: c5 :: rest)) with
      (in_alphabet c1 && in_alphabet c2 && in_alphabet c3 && in_alphabet c4 &&
       valid (c5 :: rest)).
    rewrite !andb_true_iff. intros [[[[H1 H2] H3] H4] Hrest].
    destruct (in_alphabet_sextet _ H1) as [s1 E1].
    destruct (in_alphabet_sextet _ H2) as [s2 E2].
    destruct (in_alphabet_sextet _ H3) as [s3 E3].
    destruct (in_alphabet_sextet _ H4) as [s4 E4].
    rewrite (decode_full_group _ _ _ _ _ _ _ _ _ E1 E2 E3 E4).
    destruct (IH Hrest) as [bytes ->]. by cbn.
Qed.

(** *** Strings and their bytes *)

Lemma bytes_of_string_bytes (s : string) : Forall byte (bytes_of_string s).
Proof.
  unfold bytes_of_string. apply Forall_fmap, Forall_forall. intros c _.
  apply N_ascii_bounded.
Qed.

Lemma string_of_bytes_of_string (s : string) :
  string_of_bytes (bytes_of_string s) = s.
Proof.
  unfold string_of_bytes, bytes_of_string. rewrite <- list_fmap_compose.
  rewrite (list_fmap_ext _ id) by (intros; apply ascii_N_embedding).
  rewrite list_fmap_id. apply string_of_list_ascii_of_string.
Qed.

Lemma bytes_of_string_of_bytes (bytes : list N) :
  Forall byte bytes → bytes_of_string (string_of_bytes bytes) = bytes.
Proof.
  intros Hb. unfold string_of_bytes, bytes_of_string.
  rewrite list_ascii_of_string_of_list_ascii, <- list_fmap_compose.
  rewrite <- (list_fmap_id bytes) at 2. apply Forall_fmap_ext_1.
  eapply Forall_impl; [exact Hb|]. intros b Hlt. by apply N_ascii_embedding.
Qed.

(** C7: [utf8toB64] after [b64toUtf8] gives back every well-formed base64
    text, [b64toUtf8] after [utf8toB64] gives back every string, and the two
    agree on the test vector: the text [IkVjaG8i] and the string [Echo]
    between double quotes. *)
Theorem base64_round_trip :
  (∀ x, valid_base64 x = true → ∃ y, b64toUtf8 x = Some y ∧ utf8toB64 y = x) ∧
  (∀ y, b64toUtf8 (utf8toB64 y) = Some y) ∧
  b64toUtf8 "IkVjaG8i" = Some quoted_Echo ∧
  utf8toB64 quoted_Echo = "IkVjaG8i"%string.
Proof.
  split; [|split; [|split; reflexivity]].
  - intros x [bytes Hdec]%valid_decodes. exists (string_of_bytes bytes).
    unfold b64toUtf8, utf8toB64. rewrite Hdec. split; [done|].
    rewrite bytes_of_string_of_bytes by (by eapply decode_bytes).
    rewrite (encode_decode _ _ Hdec). apply string_of_list_ascii_of_string.
  - intros y. unfold b64toUtf8, utf8toB64.
    rewrite list_ascii_of_string_of_list_ascii.
    rewrite decode_encode by apply bytes_of_string_bytes. cbn.
    by rewrite string_of_bytes_of_string.
Qed.

End Base64RoundTrip.

Lemma base64_round_trip_witness :
  Base64.valid_base64 "IkVjaG8i" = true ∧
  ∃ y, Base64.b64toUtf8 "IkVjaG8i" = Some y ∧ Base64.utf8toB64 y = "IkVjaG8i".
Proof.
  split; [reflexivity|]. exact (proj1 base64_round_trip "IkVjaG8i" eq_refl).
Defined.

(** * More of the code *)

(** ** Chain: the soft code hash check *)

Section ChainCheckHash.
Import Connect.

(** X1: [Chain.checkHash] never fails because of the hash it was given: when
    the chain answers with a hash, that hash is returned whatever was
    expected; the outcome of the comparison only goes to the log
    (confirmation exactly when the expected hash is the fetched one, the
    mismatch warning exactly when it is not, and, the two tests being
    separate statements, the no-hash warning in addition to it whenever no
    hash was given).  Only a failure of the chain's [getHash] makes it
    fail, with the same error. *)
Theorem checkHash_is_soft (c : Chain) (address : Address) (expected : option CodeHash) :
  (∀ e, api_getHash (chain_api c) address = Throw e →
     Chain_checkHash c address expected = Throw e) ∧
  (∀ fetched, api_getHash (chain_api c) address = Ok fetched →
     ∃ log, Chain_checkHash c address expected = Ok (fetched, log) ∧
       (confirmCodeHash address fetched ∈ log ↔ expected = Some fetched) ∧
       (warnCodeHashMismatch address expected fetched ∈ log ↔ expected ≠ Some fetched) ∧
       (warnNoCodeHashProvided address fetched ∈ log ↔ truthy_str expected = false) ∧
       (expected = None →
          log = [warnNoCodeHashProvided address fetched;
                 warnCodeHashMismatch address None fetched])).
Proof.
  split; [by intros e He; unfold Chain_checkHash; rewrite He|].
  intros fetched Hf. unfold Chain_checkHash. rewrite Hf.
  eexists. split; [reflexivity|].
  destruct (truthy_str expected) eqn:Ht; cbn;
    case_bool_decide as He; cbn; rewrite ?elem_of_cons, ?elem_of_nil;
    repeat split; intros; subst; try done;
    repeat match goal with
           | H : _ ∨ _ |- _ => destruct H
           | H : False |- _ => destruct H
           | H : _ = _ |- _ => discriminate H
           | H : confirmCodeHash _ _ = _ |- _ => injection H as ->
           | H : warnCodeHashMismatch _ _ _ = _ |- _ => injection H as ->
           end; try done; auto.
Qed.

End ChainCheckHash.

Lemma checkHash_is_soft_witness :
  let c := {| Connect.chain_id := "dev"; Connect.chain_url := "";
              Connect.chain_mode := Some Connect.Testnet; Connect.chain_node := None;
              Connect.chain_api := Samples.api |} in
  Connect.Chain_checkHash c "secret1address" (Some "another") =
    Ok ("hash", [Connect.warnCodeHashMismatch "secret1address" (Some "another") "hash"]) ∧
  Connect.Chain_checkHash c "secret1address" None =
    Ok ("hash", [Connect.warnNoCodeHashProvided "secret1address" "hash";
                 Connect.warnCodeHashMismatch "secret1address" None "hash"]).
Proof.
  intros c.
  destruct (checkHash_is_soft c "secret1address" (Some "another")) as [_ H1].
  destruct (checkHash_is_soft c "secret1address" None) as [_ H2].
  destruct (H1 "hash" eq_refl) as (log1 & E1 & _).
  destruct (H2 "hash" eq_refl) as (log2 & E2 & _ & _ & _ & Hlog).
  split; [reflexivity|]. rewrite E2, (Hlog eq_refl). reflexivity.
Defined.

(** ** Chain: agents by name *)

Section ChainGetAgent.
Import Connect.

(** A chain keeps a node only if it was constructed in Devnet mode with a
    node. *)
Lemma Chain_new_node (api : ChainApi) (id : ChainId) (opts : ChainOpts)
    (c : Chain) (log : list LogLine) :
  Chain_new api id opts = Ok (c, log) →
  chain_node c = (if bool_decide (opt_mode opts = Some Devnet) then opt_node opts else None).
Proof.
  unfold Chain_new. destruct (String.eqb id ""); [discriminate|].
  destruct (opt_node opts) as [node|]; [|intros [= <- _]; cbn; by case_bool_decide].
  case_bool_decide.
  - destruct (negb (String.eqb _ (dh_url node))), (negb (String.eqb id _)); by intros [= <- _].
  - by intros [= <- _].
Qed.

(** [getAgent] on given options. *)
Lemma Chain_getAgent_options (c : Chain) (node : NodeApi) (options : gmap string JsVal) :
  Chain_getAgent c node (Some options) =
  (match chain_node c with
   | Some _ => modify (λ calls, calls ++ [Respawn]);; lift (node_respawn node)
   | None => mret tt
   end;;
   options' ←
     (if negb (truthy (option_of options "mnemonic")) && truthy (option_of options "name")
      then match chain_node c with
           | None => throw NameOutsideDevnet
           | Some _ =>
               modify (λ calls, calls ++ [GetGenesisAccount (option_of options "name")]);;
               account ← lift (node_getGenesisAccount node (option_of options "name"));
               mret (account ∪ options)
           end
      else mret options);
   mret (c, delete "chain" options')).
Proof. reflexivity. Qed.

(** X2: [getAgent] with a name and no mnemonic needs the node of a devnet.
    On a chain that was constructed in another mode, or without a node, it
    throws [NameOutsideDevnet] and calls nothing.  On a chain constructed
    in Devnet mode with a node it first respawns the node, then asks it for
    the genesis account of that name, and hands to the agent's constructor
    the options overridden by the fields of the account.  Options with a
    mnemonic, or without a name, are handed on as they are.  In every case
    the chain of the new agent is this chain, whatever [options.chain]
    was. *)
Theorem getAgent_by_name_needs_a_devnet_node (api : ChainApi) (id : ChainId)
    (opts : ChainOpts) (c : Chain) (log : list LogLine) (node : NodeApi)
    (options : gmap string JsVal) (calls : list NodeCall) :
  Chain_new api id opts = Ok (c, log) →
  let by_name := negb (truthy (option_of options "mnemonic")) &&
                 truthy (option_of options "name") in
  (by_name = true → opt_mode opts ≠ Some Devnet ∨ opt_node opts = None →
     Chain_getAgent c node (Some options) calls = (Throw NameOutsideDevnet, calls)) ∧
  (by_name = true → opt_mode opts = Some Devnet → is_Some (opt_node opts) →
     node_respawn node = Ok tt →
     ∀ account, node_getGenesisAccount node (option_of options "name") = Ok account →
       Chain_getAgent c node (Some options) calls =
         (Ok (c, delete "chain" (account ∪ options)),
          calls ++ [Respawn; GetGenesisAccount (option_of options "name")]) ∧
       ∀ key v, key ≠ "chain" → account !! key = Some v →
                delete "chain" (account ∪ options) !! key = Some v) ∧
  (by_name = false → node_respawn node = Ok tt →
     Chain_getAgent c node (Some options) calls =
       (Ok (c, delete "chain" options),
        calls ++ match chain_node c with Some _ => [Respawn] | None => [] end)) ∧
  (∀ c' options' calls',
     Chain_getAgent c node (Some options) calls = (Ok (c', options'), calls') →
     c' = c ∧ options' !! "chain" = None).
Proof.
  intros Hnew by_name. apply Chain_new_node in Hnew.
  rewrite Chain_getAgent_options. fold by_name.
  split; [|split; [|split]].
  - intros Hb Hmode.
    assert (Hn : chain_node c = None).
    { rewrite Hnew. case_bool_decide; [|done]. by destruct Hmode. }
    rewrite Hn, Hb. reflexivity.
  - intros Hb Hmode [n Hn] Hre account Hacc.
    rewrite bool_decide_eq_true_2, Hn in Hnew by done.
    rewrite Hnew, Hb. m_simpl. rewrite Hre. m_simpl. rewrite Hacc. m_simpl.
    split; [by rewrite <- app_assoc|].
    intros key v Hne Hk. rewrite lookup_delete_ne by done.
    by apply lookup_union_Some_l.
  - intros Hb Hre. rewrite Hb. destruct (chain_node c); m_simpl.
    + by rewrite Hre.
    + by rewrite app_nil_r.
  - intros c' options' calls'. m_simpl.
    destruct (chain_node c); m_simpl.
    + destruct (node_respawn node); m_simpl; [|done].
      destruct by_name; m_simpl.
      * destruct (node_getGenesisAccount node _); m_simpl; [|done].
        intros [= <- <- _]. by rewrite lookup_delete_eq.
      * intros [= <- <- _]. by rewrite lookup_delete_eq.
    + destruct by_name; m_simpl; [done|].
      intros [= <- <- _]. by rewrite lookup_delete_eq.
Qed.

End ChainGetAgent.

Lemma getAgent_by_name_needs_a_devnet_node_witness :
  let handle := {| Connect.dh_chainId := "fadroma-devnet";
                   Connect.dh_url := "http://localhost:1317/" |} in
  let node := {| Connect.node_respawn := Ok tt;
                 Connect.node_getGenesisAccount :=
                   λ name, Ok (<["mnemonic" := JStr "genesis words"]> ∅) |} in
  let options : gmap string JsVal := <["name" := JStr "Alice"]> ∅ in
  let testnet := {| Connect.chain_id := "pulsar-2"; Connect.chain_url := "";
                    Connect.chain_mode := Some Connect.Testnet;
                    Connect.chain_node := None; Connect.chain_api := Samples.api |} in
  let devnet := {| Connect.chain_id := "fadroma-devnet";
                   Connect.chain_url := "http://localhost:1317/";
                   Connect.chain_mode := Some Connect.Devnet;
                   Connect.chain_node := Some handle; Connect.chain_api := Samples.api |} in
  Connect.Chain_getAgent testnet node (Some options) [] =
    (Throw NameOutsideDevnet, []) ∧
  (Connect.Chain_getAgent devnet node (Some options) []).2 =
    [Connect.Respawn; Connect.GetGenesisAccount (JStr "Alice")].
Proof.
  intros handle node options testnet devnet.
  assert (Hname : negb (truthy (Connect.option_of options "mnemonic")) &&
                  truthy (Connect.option_of options "name") = true)
    by (vm_compute; reflexivity).
  assert (Haccount : Connect.node_getGenesisAccount node
                       (Connect.option_of options "name") =
                     Ok (<["mnemonic" := JStr "genesis words"]> ∅)) by reflexivity.
  pose proof (getAgent_by_name_needs_a_devnet_node Samples.api "pulsar-2"
                {| Connect.opt_url := None; Connect.opt_mode := Some Connect.Testnet;
                   Connect.opt_node := Some handle |}
                testnet [Connect.warnNodeNonDevnet] node options [] eq_refl)
    as (H1 & _).
  pose proof (getAgent_by_name_needs_a_devnet_node Samples.api "fadroma-devnet"
                {| Connect.opt_url := None; Connect.opt_mode := Some Connect.Devnet;
                   Connect.opt_node := Some handle |}
                devnet [Connect.warnUrlOverride "http://localhost:1317/" ""]
                node options [] eq_refl)
    as (_ & H2 & _).
  split; [apply (H1 Hname); by left|].
  destruct (H2 Hname eq_refl (mk_is_Some _ _ eq_refl) eq_refl _ Haccount) as [E _].
  rewrite E. reflexivity.
Defined.
(** ** Bundle: what is submitted *)

Section BundleSubmission.
Import Connect.

Lemma add_dense (msg : BundleMsg) (b : Bundle) :
  dense b →
  add msg b = (Ok (id b), set_msgs (msgs b ++ [Some msg]) (set_id (S (id b)) b)).
Proof.
  intros [Hid _]. unfold add. m_simpl. unfold set_msgs, set_id. cbn.
  by rewrite Hid, array_set_at_end.
Qed.

Lemma do_op_dense (o : Op) (b : Bundle) :
  dense b →
  dense (do_op o b) ∧ agent (do_op o b) = agent b ∧ address (do_op o b) = address b ∧
  msgs (do_op o b) = msgs b ++ (Some <$> option_list (message_of b o)).
Proof.
  intros Hd. pose proof Hd as [Hid Hall].
  assert (Hadd : ∀ msg, dense (set_msgs (msgs b ++ [Some msg]) (set_id (S (id b)) b))).
  { intros msg. split; cbn.
    - rewrite length_app. cbn. lia.
    - apply Forall_app. split; [done|]. by repeat constructor. }
  destruct o as [msg|c| |memo save]; cbn.
  - rewrite add_dense by done. cbn. by split; [apply Hadd|].
  - unfold execute. m_simpl. rewrite add_dense by done. m_simpl.
    by split; [apply Hadd|].
  - unfold bundle. m_simpl. by rewrite app_nil_r.
  - unfold run. m_simpl. destruct (0 <? depth b); destruct save; m_simpl;
      by rewrite app_nil_r.
Qed.

Lemma do_ops_dense (ops : list Op) (b : Bundle) :
  dense b →
  dense (do_ops ops b) ∧ agent (do_ops ops b) = agent b ∧
  address (do_ops ops b) = address b ∧
  msgs (do_ops ops b) = msgs b ++ (Some <$> omap (message_of b) ops).
Proof.
  intros Hd. induction ops as [|o ops IH] using rev_ind.
  { cbn. by rewrite app_nil_r. }
  destruct IH as (Hd' & Ha & Haddr & Hm). unfold do_ops in *. rewrite foldl_snoc.
  destruct (do_op_dense o _ Hd') as (Hd'' & Ha' & Haddr' & Hm').
  split; [done|]. split; [congruence|]. split; [congruence|].
  rewrite Hm', Hm, omap_app, fmap_app, <- app_assoc. do 2 f_equal. cbn.
  replace (message_of (foldl (λ b0 o0, do_op o0 b0) b ops) o) with (message_of b o)
    by (destruct o; cbn; unfold exec_of; by rewrite ?Haddr).
  by destruct (message_of b o).
Qed.

Lemma Bundle_new_dense (a : Agent) (b : Bundle) : Bundle_new (Some a) = Ok b → dense b.
Proof. intros [= <-]. by split. Qed.

(** X3: on a bundle that has served any sequence of [add], [execute],
    [bundle] and [run] calls since it was made, the log holds the messages of
    the [add] and [execute] calls in the order of the calls, without holes;
    [assertMessages] throws exactly when there was no such call, returns
    that log otherwise, and changes nothing. *)
Theorem assertMessages_iff_something_added (a : Agent) (b0 : Bundle) (ops : list Op) :
  Bundle_new (Some a) = Ok b0 →
  let b := do_ops ops b0 in
  msgs b = Some <$> omap (message_of b0) ops ∧
  id b = length (omap (message_of b0) ops) ∧
  assertMessages b =
    (if bool_decide (omap (message_of b0) ops = [])
     then Throw EmptyBundle else Ok (msgs b), b) ∧
  (is_Throw (assertMessages b).1 = true ↔
   ∀ o, o ∈ ops → o = OpBundle ∨ ∃ memo save, o = OpRun memo save).
Proof.
  intros Hnew b. pose proof (Bundle_new_dense _ _ Hnew) as Hd.
  destruct (do_ops_dense ops b0 Hd) as ([Hid _] & _ & _ & Hm). fold b in Hid, Hm.
  assert (Hm0 : msgs b0 = []) by (by injection Hnew as <-).
  rewrite Hm0 in Hm. cbn in Hm.
  assert (Hassert : assertMessages b =
    (if bool_decide (omap (message_of b0) ops = [])
     then Throw EmptyBundle else Ok (msgs b), b)).
  { unfold assertMessages. m_simpl. rewrite Hm, length_fmap.
    destruct (omap (message_of b0) ops); by cbn. }
  split; [done|]. split; [by rewrite Hid, Hm, length_fmap|]. split; [done|].
  rewrite Hassert. cbn. clear. case_bool_decide as He; cbn.
  - split; [|done]. intros _ o Ho.
    assert (Hn : message_of b0 o = None).
    { destruct (message_of b0 o) as [m|] eqn:Hmo; [|done].
      assert (Hin : m ∈ omap (message_of b0) ops) by (apply list_elem_of_omap; eauto).
      rewrite He in Hin. by apply not_elem_of_nil in Hin. }
    destruct o; cbn in Hn; try discriminate; eauto.
  - split; [done|]. intros Hall. destruct He.
    induction ops as [|o ops IH]; [done|]. cbn.
    destruct (Hall o) as [->|(memo & save & ->)]; [by left|..]; cbn;
      apply IH; intros o' Ho'; apply Hall; by right.
Qed.

End BundleSubmission.

(** ** Bundle: [wrap] *)

Section BundleWrap.
Import Connect.

Lemma M_bind_run {S A B} (m : M S A) (k : A → M S B) (s : S) :
  (m ≫= k) s = match m s with
               | (Ok a, s') => k a s'
               | (Throw e, s') => (Throw e, s')
               end.
Proof. reflexivity. Qed.

Lemma execute_run (c : ExecCall) (b : Bundle) :
  execute (ec_address c) (ec_codeHash c) (ec_msg c) (ec_send c) b =
  (Ok tt, do_op (OpExecute c) b).
Proof. reflexivity. Qed.

Lemma bundle_run (b : Bundle) : bundle b = (Ok tt, do_op OpBundle b).
Proof. reflexivity. Qed.

Lemma run_run (memo : string) (save : bool) (b : Bundle) :
  run memo save b =
  (Ok (if 0 <? depth b then ReturnedNull
       else if save then Save memo else Submit memo),
   do_op (OpRun memo save) b).
Proof. unfold do_op, run. m_simpl. by destruct (0 <? depth b), save. Qed.

Lemma run_flat (memo : string) (save : bool) (b : Bundle) :
  depth b ≤ 0 →
  run memo save b = (Ok (if save then Save memo else Submit memo), b).
Proof.
  intros Hd. unfold run. m_simpl.
  destruct (0 <? depth b) eqn:E; [apply Z.ltb_lt in E; lia|]. by destruct save.
Qed.

Lemma do_ops_app (ops1 ops2 : list Op) (b : Bundle) :
  do_ops (ops1 ++ ops2) b = do_ops ops2 (do_ops ops1 b).
Proof. apply foldl_app. Qed.

Lemma executes_run (cs : list ExecCall) (b : Bundle) :
  executes cs b = (Ok tt, do_ops (OpExecute <$> cs) b).
Proof.
  revert b. induction cs as [|c cs IH]; intros b; [done|].
  change (executes (c :: cs)) with
    (execute (ec_address c) (ec_codeHash c) (ec_msg c) (ec_send c) ≫= λ _, executes cs).
  by rewrite M_bind_run, execute_run, IH.
Qed.

Lemma depth_executes (cs : list ExecCall) (b : Bundle) :
  depth (do_ops (OpExecute <$> cs) b) = depth b.
Proof.
  revert b. induction cs as [|c cs IH]; intros b; [done|].
  change (do_ops (OpExecute <$> c :: cs) b)
    with (do_ops (OpExecute <$> cs) (do_op (OpExecute c) b)).
  by rewrite IH.
Qed.

Lemma omap_message_of_executes (b : Bundle) (cs : list ExecCall) :
  omap (message_of b) (OpExecute <$> cs) = exec_of b <$> cs.
Proof. induction cs as [|c cs IH]; [done|]. cbn. by rewrite IH. Qed.

(** X4: [wrap] runs the callback and then [run]: a callback that fails
    makes [wrap] fail with the same error, and nothing is submitted.  A
    [wrap] whose callback opens one nested bundle and wraps further calls in
    it is flattened: the inner [wrap] returns null without submitting, and
    the outer one submits (or saves) once, with the records of the calls made
    before, inside and after the nested bundle, in that order. *)
Theorem wrap_flattens_one_nesting (a : Agent) (b0 : Bundle)
    (pre inner post : list ExecCall) (memo memo' : option string) (save save' : bool) :
  Bundle_new (Some a) = Ok b0 →
  let nested := bundle;; wrap (executes inner) memo' save' in
  let cb := executes pre;; nested;; executes post in
  (∀ (failing : M Bundle unit) e b, failing b0 = (Throw e, b) →
     wrap failing memo save b0 = (Throw e, b)) ∧
  (∃ b1, nested (do_ops (OpExecute <$> pre) b0) = (Ok ReturnedNull, b1)) ∧
  ∃ b', wrap cb memo save b0 =
          (Ok (if save then Save (default "" memo) else Submit (default "" memo)), b') ∧
        msgs b' = Some <$> (exec_of b0 <$> (pre ++ inner ++ post)) ∧
        id b' = length (pre ++ inner ++ post) ∧
        depth b' = -1.
Proof.
  intros Hnew nested cb. pose proof (Bundle_new_dense _ _ Hnew) as Hd.
  assert (Hdepth : depth b0 = 0) by (by injection Hnew as <-).
  assert (Hmsgs : msgs b0 = []) by (by injection Hnew as <-).
  set (m' := default "" memo').
  set (b1 := do_ops (OpExecute <$> pre) b0).
  set (b2 := do_ops (OpExecute <$> inner) (do_op OpBundle b1)).
  assert (Hd2 : depth b2 = 1).
  { unfold b2. rewrite depth_executes.
    change (depth (do_op OpBundle b1)) with (depth b1 + 1).
    unfold b1. rewrite depth_executes. lia. }
  assert (Hnested : nested b1 = (Ok ReturnedNull, do_op (OpRun m' save') b2)).
  { change (nested b1) with ((bundle ≫= λ _, executes inner ≫= λ _, run m' save') b1).
    rewrite M_bind_run, bundle_run. cbv beta iota.
    rewrite M_bind_run, executes_run. cbv beta iota. fold b2.
    by rewrite run_run, Hd2. }
  set (b3 := do_ops (OpExecute <$> post) (do_op (OpRun m' save') b2)).
  assert (Hd3 : depth b3 = -1).
  { unfold b3. rewrite depth_executes. unfold do_op, run. m_simpl. rewrite Hd2.
    m_simpl. lia. }
  set (ops := (OpExecute <$> pre) ++ [OpBundle] ++ (OpExecute <$> inner) ++
              [OpRun m' save'] ++ (OpExecute <$> post)).
  assert (Hb3 : b3 = do_ops ops b0) by (unfold ops; by rewrite !do_ops_app).
  assert (Homap : omap (message_of b0) ops = exec_of b0 <$> (pre ++ inner ++ post)).
  { unfold ops. rewrite !omap_app, !omap_message_of_executes. cbn.
    by rewrite !fmap_app. }
  destruct (do_ops_dense ops b0 Hd) as ([Hid _] & _ & _ & Hm).
  rewrite <- Hb3, Hmsgs, Homap in Hm. cbn [app] in Hm. rewrite <- Hb3 in Hid.
  split; [|split; [by eexists|]].
  - intros failing e b Hf. unfold wrap. by rewrite M_bind_run, Hf.
  - exists b3. split; [|split; [|split; [|done]]].
    + assert (Hcb : cb b0 = (Ok tt, b3)).
      { change (cb b0) with ((executes pre ≫= λ _, nested ≫= λ _, executes post) b0).
        rewrite M_bind_run, executes_run. cbv beta iota. fold b1.
        rewrite M_bind_run, Hnested. cbv beta iota. apply executes_run. }
      unfold wrap. rewrite M_bind_run, Hcb. cbv beta iota.
      rewrite run_flat by lia. by destruct save.
    + done.
    + by rewrite Hid, Hm, !length_fmap.
Qed.

End BundleWrap.

Lemma assertMessages_iff_something_added_witness :
  let a := {| Connect.agent_chain := None; Connect.agent_address := Some "secret1agent";
              Connect.agent_name := Some "Admin"; Connect.agent_fees := None |} in
  let b0 := {| Connect.agent := a; Connect.chain := None;
               Connect.address := Some "secret1agent"; Connect.name := "Admin@BUNDLE";
               Connect.fees := None; Connect.depth := 0; Connect.msgs := [];
               Connect.id := 0%nat; Connect.log := [] |} in
  let call := {| Connect.ec_address := Some "secret1contract";
                 Connect.ec_codeHash := None; Connect.ec_msg := MsgStr "echo";
                 Connect.ec_send := None |} in
  let ops := [Connect.OpBundle; Connect.OpExecute call; Connect.OpRun "" false] in
  (Connect.assertMessages (Connect.do_ops [Connect.OpBundle] b0)).1 = Throw EmptyBundle ∧
  (Connect.assertMessages (Connect.do_ops ops b0)).1 =
    Ok [Some (Connect.exec_of b0 call)].
Proof.
  intros a b0 call ops.
  destruct (assertMessages_iff_something_added a b0 [Connect.OpBundle] eq_refl)
    as (_ & _ & E1 & _).
  destruct (assertMessages_iff_something_added a b0 ops eq_refl)
    as (Hm & _ & E2 & _).
  rewrite E1, E2. cbn [fst]. rewrite Hm. split; reflexivity.
Defined.

Lemma wrap_flattens_one_nesting_witness :
  let a := {| Connect.agent_chain := None; Connect.agent_address := Some "secret1agent";
              Connect.agent_name := Some "Admin"; Connect.agent_fees := None |} in
  let b0 := {| Connect.agent := a; Connect.chain := None;
               Connect.address := Some "secret1agent"; Connect.name := "Admin@BUNDLE";
               Connect.fees := None; Connect.depth := 0; Connect.msgs := [];
               Connect.id := 0%nat; Connect.log := [] |} in
  let call msg := {| Connect.ec_address := Some "secret1contract";
                     Connect.ec_codeHash := None; Connect.ec_msg := MsgStr msg;
                     Connect.ec_send := None |} in
  let nested := Connect.bundle;;
                Connect.wrap (Connect.executes [call "inner"]) None false in
  let cb := Connect.executes [call "before"];; nested;; Connect.executes [call "after"] in
  (Connect.wrap cb (Some "memo") false b0).1 = Ok (Connect.Submit "memo") ∧
  Connect.msgs (Connect.wrap cb (Some "memo") false b0).2 =
    [Some (Connect.exec_of b0 (call "before")); Some (Connect.exec_of b0 (call "inner"));
     Some (Connect.exec_of b0 (call "after"))].
Proof.
  intros a b0 call nested cb.
  destruct (wrap_flattens_one_nesting a b0 [call "before"] [call "inner"] [call "after"]
              (Some "memo") None false false eq_refl)
    as (_ & _ & b' & E & Hm & _).
  fold nested in E. fold cb in E. rewrite E. split; [reflexivity|exact Hm].
Defined.

(** ** Client: fees of a copy *)

Section ClientCopies.
Import Client.

Lemma or_str_None (a : option string) : or_str (or_str a None) None = or_str a None.
Proof. unfold or_str. by destruct (truthy_str a) eqn:E; [rewrite E|]. Qed.

(** The constructor keeps an optional string unless it is the empty string,
    which it drops. *)
Lemma or_str_kept (a : option string) :
  (∀ s, a = Some s → s ≠ "" → or_str a None = Some s) ∧
  (a = None ∨ a = Some "" → or_str a None = None).
Proof.
  split.
  - intros s -> Hs. unfold or_str. cbn.
    by destruct (String.eqb_spec s "").
  - by intros [->| ->].
Qed.

(** [getFee] reads the default fee, the fees by key and the fees of the
    agent, and nothing else. *)
Lemma getFee_ext (c1 c2 : Client) (msg : option Message) :
  c_fee c1 = c_fee c2 → c_fees c1 = c_fees c2 → c_agent_fees c1 = c_agent_fees c2 →
  getFee c1 msg = getFee c2 msg.
Proof. intros Hf Hfs Ha. unfold getFee. by rewrite Hf, Hfs, Ha. Qed.

(** Assigning fees without a key [__proto__] to the empty object copies
    them. *)
Lemma assign_plain (fees : gmap string IFee) :
  fees !! "__proto__" = None → assign ∅ fees = Some fees.
Proof. unfold assign. intros ->. by rewrite (right_id_L ∅ (∪)). Qed.

(** The copy that the constructor makes of the own properties of a client,
    with the given fees. *)
Lemma Client_new_spread (c : Client) (agent_fees : option AgentFees)
    (fee : option IFee) (fees : gmap string IFee) :
  fees !! "__proto__" = None →
  Client_new agent_fees (ArgOptions (with_fee fee fees (spread c))) =
  Some {| c_agent_fees := agent_fees; c_address := c_address c;
          c_name := or_str (c_name c) None; c_label := or_str (c_label c) None;
          c_codeHash := or_str (c_codeHash c) None;
          c_codeId := or_str (c_codeId c) None;
          c_fee := fee; c_fees := fees |}.
Proof.
  intros Hfees. unfold Client_new, with_fee, spread. cbn.
  rewrite (assign_plain _ Hfees). cbn. by destruct fee.
Qed.

(** X5: [withFee(fee)] makes a client that answers [getFee] with [fee] for
    no message, and for every string and every object with one root key,
    whatever fees the original had by key, unless the key is the name of a
    member of [Object.prototype], for which it answers with that member; it
    throws on the same messages as the original.  If the fees of the
    original have no key [__proto__], [withFee(undefined)] and [withAgent]
    (for an agent with the same fees) make a client that answers [getFee] as
    the original does, and copying a copy changes nothing more.  Each of the
    copies keeps the address, and keeps name, label, code hash and code id
    unless they are the empty string, which the constructor drops. *)
Theorem withFee_overrides_every_fee (c : Client) (fee : IFee) :
  let kept (a b : option string) :=
    (∀ s, a = Some s → s ≠ "" → b = Some s) ∧ (a = None ∨ a = Some "" → b = None) in
  let same_contract (copy : Client) :=
    c_address copy = c_address c ∧
    kept (c_name c) (c_name copy) ∧ kept (c_label c) (c_label copy) ∧
    kept (c_codeHash c) (c_codeHash copy) ∧ kept (c_codeId c) (c_codeId copy) in
  (∃ copy, withFee (Some fee) c = Some copy ∧ same_contract copy ∧
     getFee copy None = Ok (Some (Fee fee)) ∧
     (∀ key v, key ∉ Object_prototype →
        getFee copy (Some (MsgStr key)) = Ok (Some (Fee fee)) ∧
        getFee copy (Some (MsgObj [(key, v)])) = Ok (Some (Fee fee))) ∧
     (∀ key v, key ∈ Object_prototype →
        getFee copy (Some (MsgStr key)) = Ok (Some (Inherited key)) ∧
        getFee copy (Some (MsgObj [(key, v)])) = Ok (Some (Inherited key))) ∧
     (∀ msg, is_Throw (getFee copy msg) = is_Throw (getFee c msg))) ∧
  (c_fees c !! "__proto__" = None →
     (∃ copy, withFee None c = Some copy ∧ same_contract copy ∧
        c_fee copy = c_fee c ∧ c_fees copy = c_fees c ∧
        (∀ msg, getFee copy msg = getFee c msg) ∧
        withFee None copy = Some copy) ∧
     (∀ agent, ∃ copy, withAgent agent c = Some copy ∧ same_contract copy ∧
        c_fee copy = c_fee c ∧ c_fees copy = c_fees c ∧
        c_agent_fees copy = agent_fees agent ∧
        (agent_fees agent = c_agent_fees c → ∀ msg, getFee copy msg = getFee c msg))).
Proof.
  intros kept same_contract.
  assert (Hkept : ∀ a, kept a (or_str a None)) by (intros a; apply or_str_kept).
  assert (Hsame : ∀ agent_fees fee' fees,
            same_contract {| c_agent_fees := agent_fees; c_address := c_address c;
                             c_name := or_str (c_name c) None;
                             c_label := or_str (c_label c) None;
                             c_codeHash := or_str (c_codeHash c) None;
                             c_codeId := or_str (c_codeId c) None;
                             c_fee := fee'; c_fees := fees |}).
  { intros. unfold same_contract. cbn. auto 10. }
  clearbody kept. subst same_contract.
  split.
  - eexists. split; [unfold withFee; by apply Client_new_spread|].
    split; [apply Hsame|]. split; [done|].
    split; [|split].
    + intros key v Hkey.
      assert (getFee
                {| c_agent_fees := c_agent_fees c; c_address := c_address c;
                   c_name := or_str (c_name c) None; c_label := or_str (c_label c) None;
                   c_codeHash := or_str (c_codeHash c) None;
                   c_codeId := or_str (c_codeId c) None;
                   c_fee := Some fee; c_fees := ∅ |} (Some (MsgStr key))
              = Ok (Some (Fee fee))) as H; [|by split].
      unfold getFee. cbn. by rewrite fees_get_none.
    + intros key v Hkey.
      assert (getFee
                {| c_agent_fees := c_agent_fees c; c_address := c_address c;
                   c_name := or_str (c_name c) None; c_label := or_str (c_label c) None;
                   c_codeHash := or_str (c_codeHash c) None;
                   c_codeId := or_str (c_codeId c) None;
                   c_fee := Some fee; c_fees := ∅ |} (Some (MsgStr key))
              = Ok (Some (Inherited key))) as H; [|by split].
      unfold getFee. cbn. by rewrite fees_get_inherited.
    + intros [[s|entries]|]; [done| |done]. cbn. by destruct (negb _).
  - intros Hproto. split.
    + eexists. split; [unfold withFee; by apply Client_new_spread|].
      split; [apply Hsame|]. split; [done|]. split; [done|].
      split; [intros msg; by apply getFee_ext|].
      unfold withFee. rewrite Client_new_spread by done. cbn.
      by rewrite !or_str_None.
    + intros agent. eexists.
      split; [unfold withAgent; exact (Client_new_spread c _ (c_fee c) (c_fees c) Hproto)|].
      split; [apply Hsame|]. split; [done|]. split; [done|]. split; [done|].
      intros Hagent msg. by apply getFee_ext.
Qed.

End ClientCopies.

Lemma withFee_overrides_every_fee_witness :
  ∃ copy, Client.withFee (Some Samples.fee_high) Samples.client = Some copy ∧
    Client.getFee Samples.client (Some (MsgStr "transfer"))
      = Ok (Some (Client.Fee Samples.fee_transfer)) ∧
    Client.getFee copy (Some (MsgStr "transfer")) = Ok (Some (Client.Fee Samples.fee_high)) ∧
    Client.getFee copy (Some (MsgObj [("mint", JNull)]))
      = Ok (Some (Client.Fee Samples.fee_high)) ∧
    Client.getFee copy (Some (MsgStr "toString")) = Ok (Some (Client.Inherited "toString")) ∧
    Client.c_name Samples.client = Some "" ∧ Client.c_name copy = None ∧
    Client.c_label copy = Some "token" ∧ Client.c_codeHash copy = None ∧
    Client.c_codeId copy = Some "7" ∧ Client.c_address copy = Some "secret1address".
Proof.
  destruct (withFee_overrides_every_fee Samples.client Samples.fee_high)
    as ((copy & Hcopy & (Haddr & Hname & Hlabel & Hhash & Hid) & _ & Hkey & Hin & _) & _).
  assert (Htransfer : "transfer" ∉ Client.Object_prototype)
    by (apply (proj1 (bool_decide_eq_false _)); vm_compute; reflexivity).
  assert (Hmint : "mint" ∉ Client.Object_prototype)
    by (apply (proj1 (bool_decide_eq_false _)); vm_compute; reflexivity).
  assert (HtoString : "toString" ∈ Client.Object_prototype) by in_list.
  exists copy. split; [exact Hcopy|].
  split; [vm_compute; reflexivity|].
  split; [exact (proj1 (Hkey "transfer" JNull Htransfer))|].
  split; [exact (proj2 (Hkey "mint" JNull Hmint))|].
  split; [exact (proj1 (Hin "toString" JNull HtoString))|].
  split; [reflexivity|].
  split; [apply (proj2 Hname); by right|].
  split; [by apply (proj1 Hlabel)|].
  split; [apply (proj2 Hhash); by left|].
  split; [by apply (proj1 Hid)|exact Haddr].
Defined.

(** ** Client: the fee of a transaction *)

Section ClientExecute.
Import Client.
Variable agent_execute : Client → Message → ExecOpts → Result JsVal.

(** X6: [Client.execute] hands exactly one transaction to the agent, with
    the message, coins and memo it was given and with the fee of the options
    if there is one, else the fee that [getFee] gives for the message; what
    the agent answers is the result.  With a fee in the options [getFee] is
    not consulted, so any message goes through; without one, a message that
    is an object with no root key or with several makes [execute] throw
    before anything is handed to the agent. *)
Theorem execute_chooses_the_fee (c : Client) (msg : Message) (opt : ExecOpts)
    (sent : list (Message * ExecOpts)) :
  let with_fee fee := {| eo_fee := fee; eo_send := eo_send opt; eo_memo := eo_memo opt |} in
  (∀ fee, eo_fee opt = Some fee →
     Client_execute agent_execute c msg opt sent =
       (agent_execute c msg (with_fee (Some fee)), sent ++ [(msg, with_fee (Some fee))])) ∧
  (∀ fee, eo_fee opt = None → getFee c (Some msg) = Ok fee →
     Client_execute agent_execute c msg opt sent =
       (agent_execute c msg (with_fee fee), sent ++ [(msg, with_fee fee)])) ∧
  (eo_fee opt = None →
   (∃ entries, msg = MsgObj entries ∧ length entries ≠ 1%nat) →
     ∃ e, Client_execute agent_execute c msg opt sent = (Throw e, sent)) ∧
  (∀ r sent', Client_execute agent_execute c msg opt sent = (r, sent') →
     sent' = sent ∨ ∃ o, sent' = sent ++ [(msg, o)] ∧ r = agent_execute c msg o ∧
                         eo_send o = eo_send opt ∧ eo_memo o = eo_memo opt).
Proof.
  intros with_fee. unfold Client_execute.
  split; [|split; [|split]].
  - intros fee ->. reflexivity.
  - intros fee -> Hfee. m_simpl. by rewrite Hfee.
  - intros -> (entries & -> & Hlen). m_simpl. rewrite length_fmap.
    destruct (Nat.eqb_spec (length entries) 1); [done|]. cbn. eauto.
  - intros r sent'. destruct (eo_fee opt) as [fee|].
    + intros [= <- <-]. right. eexists. by repeat split.
    + destruct (getFee c (Some msg)) as [fee|e].
      * intros [= <- <-]. right. eexists. by repeat split.
      * intros [= <- <-]. by left.
Qed.

End ClientExecute.

(** ** Bundle: many instantiations at once *)

Section BundleInstantiateMany.
Import Client.

Lemma do_calls_app (cs1 cs2 : list Call) (b : Bundle) :
  do_calls (cs1 ++ cs2) b = do_calls cs2 (do_calls cs1 b).
Proof. apply foldl_app. Qed.

Lemma instantiateMany_run (configs : list (Template * Label * Message)) (b : Bundle) :
  instantiateMany configs b =
  (Ok (provisional (agent b) <$> configs),
   do_calls ((λ config, CallInstantiate config.1.1 config.1.2 config.2 []) <$> configs) b).
Proof.
  revert b. induction configs as [|[[t l] m] configs IH]; intros b; [done|].
  change (instantiateMany ((t, l, m) :: configs)) with
    (instantiate t l m [] ≫= λ instance,
       instantiateMany configs ≫= λ instances, mret (instance :: instances)).
  rewrite M_bind_run.
  change (instantiate t l m [] b)
    with (Ok (provisional (agent b) (t, l, m)), do_call (CallInstantiate t l m []) b).
  cbv beta iota. rewrite M_bind_run, IH. reflexivity.
Qed.

(** X7: on a bundle that has served any sequence of calls,
    [instantiateMany] writes one [init] record per triple behind the records
    already there, in the order of the triples and at consecutive ids, and
    returns the provisional instances in that same order: each with the code
    id and code hash of its template, the chain id of the agent, and a null
    address.  It never fails. *)
Theorem instantiateMany_keeps_order (a : Agent) (cs : list Call)
    (configs : list (Template * Label * Message)) :
  let b := do_calls cs (Bundle_new a) in
  ∃ b', instantiateMany configs b = (Ok (provisional a <$> configs), b') ∧
        msgs b' = msgs b ++ (Some <$> (init_of b <$> configs)) ∧
        id b' = (id b + length configs)%nat ∧
        (∀ i config, configs !! i = Some config →
           msgs b' !! (id b + i)%nat = Some (Some (init_of b config))).
Proof.
  intros b.
  set (calls := (λ config : Template * Label * Message,
                   CallInstantiate config.1.1 config.1.2 config.2 []) <$> configs).
  destruct (do_calls_log a cs) as (Ha & Hid & Hm). fold b in Ha, Hid, Hm.
  destruct (do_calls_log a (cs ++ calls)) as (_ & Hid' & Hm').
  rewrite do_calls_app in Hid', Hm'. fold b in Hid', Hm'.
  assert (Hrec : omap (record_of (Bundle_new a)) calls = init_of b <$> configs).
  { unfold calls. clear -Ha. induction configs as [|[[t l] m] configs IH]; [done|].
    cbn. rewrite IH. do 2 f_equal. unfold address. by rewrite Ha. }
  rewrite omap_app, fmap_app, <- Hm, Hrec in Hm'.
  exists (do_calls calls b). rewrite instantiateMany_run, Ha. split; [done|].
  split; [done|]. split.
  - rewrite Hid', Hm', Hid, length_app, !length_fmap. done.
  - intros i config Hi. rewrite Hm', Hid, lookup_app_r by lia.
    replace (length (msgs b) + i - length (msgs b))%nat with i by lia.
    by rewrite !list_lookup_fmap, Hi.
Qed.

End BundleInstantiateMany.

(** ** Devnet: construction *)

Section DevnetConstruction.
Import Devnet.

(** X8: [new Devnet(options)] fails only when the chain id is given as the
    empty string, with the devnet's [NoChainId]; no options are as good as
    the empty options object.  Otherwise the chain id is the given one or
    [fadroma-devnet]; a given port is kept (zero as well), and without one
    the port is 1317 for port mode [lcp] and 9091 for any other port mode
    and for none at all; the host is the given one, else the one of the
    environment, else [localhost]; and the state is kept at the given path,
    or else under [state] at the chain id. *)
Theorem Devnet_new_defaults (env_host : option string) (o : DevnetOpts) :
  Devnet_new env_host None = Devnet_new env_host (Some no_options) ∧
  (is_Throw (Devnet_new env_host (Some o)) = true ↔ o_chainId o = Some "") ∧
  (o_chainId o = Some "" → Devnet_new env_host (Some o) = Throw DevnetNoChainId) ∧
  (∀ d path, Devnet_new env_host (Some o) = Ok (d, path) →
     chainId d = default "fadroma-devnet" (o_chainId o) ∧ chainId d ≠ "" ∧
     (∀ p, o_port o = Some p → port d = PortNum p) ∧
     (o_port o = None →
        port d = PortNum (if bool_decide (o_portMode o = Some "lcp")
                          then 1317 else 9091)) ∧
     portMode d = o_portMode o ∧
     host d = default (default "localhost" env_host) (o_host o) ∧
     protocol d = "http" ∧
     ephemeral d = default false (o_ephemeral o) ∧
     genesisAccounts d =
       default ["Admin"; "Alice"; "Bob"; "Charlie"; "Mallory"] (o_identities o) ∧
     ((∃ p, o_stateRoot o = Some p ∧ p ≠ "" ∧ path = PathGiven p) ∨
      ((o_stateRoot o = None ∨ o_stateRoot o = Some "") ∧
       path = PathDefault (chainId d)))).
Proof.
  split; [done|]. unfold Devnet_new. cbn [mbind option_bind].
  assert (Hpath : ∀ cid,
    (∃ p, o_stateRoot o = Some p ∧ p ≠ "" ∧
          (if truthy_str (o_stateRoot o) then PathGiven (default "" (o_stateRoot o))
           else PathDefault cid) = PathGiven p) ∨
    ((o_stateRoot o = None ∨ o_stateRoot o = Some "") ∧
     (if truthy_str (o_stateRoot o) then PathGiven (default "" (o_stateRoot o))
      else PathDefault cid) = PathDefault cid)).
  { intros cid. destruct (o_stateRoot o) as [p|]; cbn; [|right; auto].
    destruct (String.eqb_spec p "") as [->|Hp]; cbn; [right; auto|left; eauto]. }
  destruct (o_chainId o) as [cid|] eqn:Hid; cbn.
  - destruct (String.eqb_spec cid "") as [->|Hne]; cbn.
    + split; [done|]. split; [done|]. discriminate.
    + split; [split; [done|by intros [= ->]]|]. split; [by intros [= ->]|].
      intros d path [= <- <-]. cbn. split; [done|]. split; [done|].
      split; [by intros p ->|]. split; [by intros ->|]. repeat (split; [done|]).
      apply Hpath.
  - cbn. split; [done|]. split; [done|].
    intros d path [= <- <-]. cbn. split; [done|]. split; [done|].
    split; [by intros p ->|]. split; [by intros ->|]. repeat (split; [done|]).
    apply Hpath.
Qed.

End DevnetConstruction.

Lemma Devnet_new_defaults_witness :
  Devnet.Devnet_new None None =
    Ok ({| Devnet.ephemeral := false; Devnet.chainId := "fadroma-devnet";
           Devnet.protocol := "http"; Devnet.host := "localhost";
           Devnet.port := Devnet.PortNum 9091; Devnet.portMode := None;
           Devnet.genesisAccounts := ["Admin"; "Alice"; "Bob"; "Charlie"; "Mallory"] |},
        Devnet.PathDefault "fadroma-devnet").
Proof.
  destruct (Devnet_new_defaults None Devnet.no_options) as (-> & _). reflexivity.
Defined.

(** ** Devnet: saving and restoring the state *)

Section DevnetSaveLoad.
Import Devnet.

(** [load] on a [devnet.json] that can be read. *)
Lemma load_readable (w : World) (data : DevnetState) :
  nodeState w = Some (Json data) →
  load w = (Ok (Some data),
            {| dev := set_port (st_port data) (dev w); fs := fs w;
               log := log w ++ if String.eqb (chainId (dev w)) (st_chainId data)
                               then [] else [loadingState (st_chainId data) (chainId (dev w))] |}).
Proof.
  intros Hnode.
  assert (Hroot : is_Some (stateRoot (fs w))).
  { unfold nodeState in Hnode. destruct (stateRoot (fs w)); [eauto|discriminate]. }
  unfold load. m_simpl. rewrite Hnode.
  rewrite !bool_decide_eq_true_2 by eauto. m_simpl.
  destruct (String.eqb (chainId (dev w)) (st_chainId data)); m_simpl; [|done].
  by rewrite app_nil_r.
Qed.

(** X9: what [save] writes, [load] reads back.  With the state directory in
    place, [save(extraData)] writes to [devnet.json] the chain id and the
    port of the devnet object, overridden by those of [extraData], and the
    other fields of [extraData]; it leaves the devnet object, the log and
    the other files alone, and replaces a [devnet.json] that was there,
    readable or not.  A [load] that follows returns exactly that data and
    does not fail; it leaves the files alone; and when [extraData] overrides
    neither the chain id nor the port, it leaves the devnet object as it
    was and logs nothing. *)
Theorem save_then_load (w : World) (extraData : ExtraData) :
  is_Some (stateRoot (fs w)) →
  let data := {| st_containerId := x_containerId extraData;
                 st_chainId := default (chainId (dev w)) (x_chainId extraData);
                 st_host := x_host extraData;
                 st_port := default (port (dev w)) (x_port extraData) |} in
  ∃ w1 w2,
    save extraData w = (Ok tt, w1) ∧
    dev w1 = dev w ∧ log w1 = log w ∧
    nodeState w1 = Some (Json data) ∧
    (∀ dir name, stateRoot (fs w) = Some dir → name ≠ "devnet.json" →
       (stateRoot (fs w1) ≫= λ dir1, dir1 !! name) = dir !! name) ∧
    load w1 = (Ok (Some data), w2) ∧
    fs w2 = fs w1 ∧
    port (dev w2) = st_port data ∧
    (x_chainId extraData = None → log w2 = log w) ∧
    (x_port extraData = None → dev w2 = dev w).
Proof.
  intros [dir Hdir] data.
  set (w1 := JSONFile_save data w).
  assert (Hnode : nodeState w1 = Some (Json data)).
  { unfold nodeState, w1. cbn. by rewrite lookup_insert_eq. }
  assert (Hroot : is_Some (stateRoot (fs w1))) by (by eexists).
  exists w1. eexists. split; [reflexivity|]. split; [done|]. split; [done|].
  split; [done|]. split.
  { intros dir' name Hd Hne. unfold w1. cbn. rewrite Hd. cbn.
    by rewrite lookup_insert_ne. }
  rewrite (load_readable w1 data Hnode).
  split; [reflexivity|]. cbn. split; [done|]. split; [done|]. split.
  - intros Hx. unfold data. cbn. rewrite Hx. cbn. rewrite String.eqb_refl.
    by rewrite app_nil_r.
  - intros ->. cbn. by destruct (dev w).
Qed.

End DevnetSaveLoad.

Lemma save_then_load_witness :
  let w := Samples.devnet_world (Some ∅) in
  (Devnet.load (Devnet.save Devnet.no_extra w).2).1 =
    Ok (Some {| Devnet.st_containerId := None; Devnet.st_chainId := "fadroma-devnet";
                Devnet.st_host := None; Devnet.st_port := Devnet.PortNum 1317 |}).
Proof.
  intros w.
  destruct (save_then_load w Devnet.no_extra (mk_is_Some _ _ eq_refl))
    as (w1 & w2 & Hs & _ & _ & _ & _ & Hl & _).
  rewrite Hs. cbn [snd]. rewrite Hl. reflexivity.
Defined.

(** ** Build script: names of artifacts *)

Section BuildNames.
Import BuildScript.








(** ** Build script: the environment *)

(** X11: [env] reads a variable as a string, except that the strings [0]
    and [false] are read as the number zero and as false, and gives the
    default (read the same way) when the variable is not set.  So verbose
    mode is off exactly when [_VERBOSE] is not set or is set to the empty
    string, to [0] or to [false]; every other value turns it on. *)
Theorem verbose_off_values (process_env : gmap string string) :
  (∀ key def, process_env !! key = None → def ≠ JStr "0" → def ≠ JStr "false" →
     env process_env key def = def) ∧
  (∀ key def v, process_env !! key = Some v → v ≠ "0" → v ≠ "false" →
     env process_env key def = JStr v) ∧
  (∀ key def, process_env !! key = Some "0" → env process_env key def = JNum 0) ∧
  (∀ key def, process_env !! key = Some "false" → env process_env key def = JBool false) ∧
  (verbose process_env = false ↔
   process_env !! "_VERBOSE" = None ∨
   ∃ v, process_env !! "_VERBOSE" = Some v ∧ (v = "" ∨ v = "0" ∨ v = "false")).
Proof.
  split; [|split; [|split; [|split]]].
  - intros key def Hk H0 Hf. unfold env. rewrite Hk. cbv zeta.
    rewrite (bool_decide_eq_false_2 (def = JStr "0")) by done. cbv iota.
    by rewrite bool_decide_eq_false_2.
  - intros key def v Hk H0 Hf. unfold env. rewrite Hk. cbv zeta.
    rewrite (bool_decide_eq_false_2 (JStr v = JStr "0")) by (intros [= Hv]; auto).
    cbv iota. rewrite bool_decide_eq_false_2 by (intros [= Hv]; auto). done.
  - intros key def Hk. unfold env. by rewrite Hk.
  - intros key def Hk. unfold env. by rewrite Hk.
  - unfold verbose, env. cbv zeta.
    destruct (process_env !! "_VERBOSE") as [v|]; [|by split; auto].
    destruct (decide (v = "0")) as [->|H0]; [split; eauto 6|].
    destruct (decide (v = "false")) as [->|Hf]; [split; eauto 6|].
    rewrite (bool_decide_eq_false_2 (JStr v = JStr "0")) by (intros [= Hv]; auto).
    cbv iota. rewrite bool_decide_eq_false_2 by (intros [= Hv]; auto). cbn.
    destruct (String.eqb_spec v "") as [->|He]; cbn.
    + split; eauto 6.
    + split; [done|]. intros [|(v' & [= <-] & [?|[?|?]])]; done.
Qed.

End BuildNames.

(** ** Receipts *)

Section ReceiptsCumulative.
Import Receipts.

Ltac lookup_key :=
  repeat first [ rewrite lookup_insert_eq | rewrite lookup_insert_ne by done
               | rewrite lookup_empty ].

(** X12: the three receipts are cumulative: every entry of the build
    receipt is in the upload receipt, and every entry of the upload receipt
    is in the instance receipt, unchanged.  The scalar fields are copied
    from the object as they are; of the builder and the uploader only the
    ids are written, the entries [builder] and [uploader] being always
    undefined; the features are written as one string, joined by a comma
    and a space. *)
Theorem receipts_are_cumulative (s : Source) :
  toBuildReceipt s ⊆ toUploadReceipt s ∧
  toUploadReceipt s ⊆ toInstanceReceipt s ∧
  (∀ key, key ∈ ["repository"; "revision"; "dirty"; "workspace"; "crate"; "codeHash";
                 "chainId"; "uploadBy"; "uploadTx"; "codeId";
                 "initBy"; "initMsg"; "initTx"; "address"; "label"; "prefix"; "name";
                 "suffix"] →
     toInstanceReceipt s !! key = Some (field s key)) ∧
  toInstanceReceipt s !! "builder" = Some JUndefined ∧
  toInstanceReceipt s !! "uploader" = Some JUndefined ∧
  toInstanceReceipt s !! "builderId" = Some (id_of (builder s)) ∧
  toInstanceReceipt s !! "uploaderId" = Some (id_of (uploader s)) ∧
  toInstanceReceipt s !! "artifact" = Some (opt_str (artifact s)) ∧
  toInstanceReceipt s !! "features" = Some (opt_str (join ", " <$> features s)) ∧
  size (toBuildReceipt s) = 10%nat ∧
  size (toUploadReceipt s) = 16%nat ∧
  size (toInstanceReceipt s) = 24%nat.
Proof.
  assert (Hb : ∀ key, key ∈ ["chainId"; "uploaderId"; "uploader"; "uploadBy"; "uploadTx";
                              "codeId"; "initBy"; "initMsg"; "initTx"; "address"; "label";
                              "prefix"; "name"; "suffix"] →
                      toBuildReceipt s !! key = None).
  { intros key Hk. unfold toBuildReceipt.
    repeat (apply elem_of_cons in Hk as [->|Hk]; [by lookup_key|]).
    by apply not_elem_of_nil in Hk. }
  assert (Hu : ∀ key, key ∈ ["initBy"; "initMsg"; "initTx"; "address"; "label";
                              "prefix"; "name"; "suffix"] →
                      toUploadReceipt s !! key = None).
  { intros key Hk. unfold toUploadReceipt.
    repeat (apply elem_of_cons in Hk as [->|Hk];
            [lookup_key; apply Hb; in_list|]).
    by apply not_elem_of_nil in Hk. }
  split; [|split; [|split]].
  - unfold toUploadReceipt.
    repeat (etrans; [|apply insert_subseteq; lookup_key; apply Hb; in_list]). done.
  - unfold toInstanceReceipt.
    repeat (etrans; [|apply insert_subseteq; lookup_key; apply Hu; in_list]). done.
  - intros key Hk. unfold toInstanceReceipt, toUploadReceipt, toBuildReceipt.
    repeat (apply elem_of_cons in Hk as [->|Hk]; [by lookup_key|]).
    by apply not_elem_of_nil in Hk.
  - unfold toInstanceReceipt, toUploadReceipt, toBuildReceipt.
    repeat (split; [by lookup_key|]).
    rewrite !map_size_insert_None; [done|by lookup_key..].
Qed.

End ReceiptsCumulative.

(** ** Contract: deploying what is already uploaded, and failing uploads *)

Section ContractDeploy.
Import Contract.
Variable E : Env.

Local Arguments await_uploaded : simpl never.

(** The checks at the head of the body of the deploy task, passed. *)
Lemma deployContract_checked (arg : JsVal) (w : World) :
  truthy (prop (this w) "agent") = true →
  truthy (prop (this w) "id") = true →
  truthy (writeLabel E (this w)) = true →
  truthy (prop (this w) "initMsg") = true →
  let wl := set_this (<["label" := writeLabel E (this w)]> (this w)) w in
  deployContract E arg w =
  (await_uploaded E ≫= λ _,
     w ← get;
     if negb (truthy (prop (this w) "codeId")) then throw NoInitCodeId else
     (if nullish (prop (this w) "initMsg")
      then v ← lift (into E arg);
           modify (λ w, set_this (<["initMsg" := v]> (this w)) w)
      else mret tt);;
     w ← get;
     modify (put_call CInstantiate);;
     contract ← lift (Agent_instantiate E (prop (this w) "agent") (this w));
     define E contract;;
     w ← get;
     (if truthy (prop (this w) "context")
      then modify (put_call (CRegister (prop (this w) "id")))
      else mret tt);;
     w ← get;
     mret (VClient (client_of (this w)))) wl.
Proof.
  intros Ha Hi Hl Hm wl. unfold deployContract.
  unfold mbind at 1, M_bind at 1, bind at 1. cbn [get].
  rewrite Ha. cbn [negb]. rewrite Hi. cbn [negb].
  unfold mbind at 1, M_bind at 1, bind at 1. cbn [modify]. fold wl.
  unfold mbind at 1, M_bind at 1, bind at 1. cbn [get].
  assert (Hlabel : prop (this wl) "label" = writeLabel E (this w)).
  { unfold wl, prop. cbn. by rewrite lookup_insert_eq. }
  assert (Hmsg : prop (this wl) "initMsg" = prop (this w) "initMsg").
  { unfold wl, prop. cbn. by rewrite lookup_insert_ne. }
  rewrite Hlabel, Hl, Hmsg, Hm. reflexivity.
Qed.


Lemma truthy_not_nullish (v : JsVal) : truthy v = true → nullish v = false.
Proof. by destruct v. Qed.

(** Awaiting [uploaded] on an object that has its code id and has not
    started an upload task. *)
Lemma await_uploaded_resolved (w : World) :
  own_uploaded w = None → truthy (prop (this w) "codeId") = true →
  await_uploaded E w = (Ok VThis, w).
Proof.
  intros Hown Hc. unfold await_uploaded. rewrite M_bind_run.
  unfold uploaded. m_simpl. by rewrite Hown, Hc.
Qed.

(** X13: deploying a contract that is configured (agent, id, label, init
    message) and already has its code id, with no upload started: nothing is
    built or uploaded, and the agent is asked exactly once to instantiate the
    object as it is with its label written.  When the agent answers, the
    answer is merged into the object, the contract is registered with its
    deployment if it has one, and the task gives the client of the object's
    address and code hash; when the agent fails, the task fails with the
    agent's error and the object keeps its fields.  The argument of
    [deploy()] has no part in this: the message instantiated is the
    [initMsg] of the object. *)
Theorem deploy_of_uploaded_contract (w : World) (initMsg : JsVal) :
  truthy (prop (this w) "agent") = true →
  truthy (prop (this w) "id") = true →
  truthy (writeLabel E (this w)) = true →
  truthy (prop (this w) "initMsg") = true →
  truthy (prop (this w) "codeId") = true →
  own_uploaded w = None →
  let o := <["label" := writeLabel E (this w)]> (this w) in
  let r := deploy_await E initMsg w in
  match Agent_instantiate E (prop (this w) "agent") o with
  | Ok contract =>
      let o' := override E o contract in
      r.1 = Ok (VClient (client_of o')) ∧
      this r.2 = o' ∧
      calls r.2 = calls w ++ CInstantiate ::
                    (if truthy (prop o' "context") then [CRegister (prop o' "id")] else [])
  | Throw e =>
      r.1 = Throw e ∧ this r.2 = o ∧ calls r.2 = calls w ++ [CInstantiate]
  end.
Proof.
  intros Ha Hi Hl Hm Hc Hown o r. subst r. rewrite deploy_await_run. cbn zeta.
  set (w0 := (deploy initMsg w).2).
  set (arg := default_param initMsg (prop (this w) "initMsg")).
  assert (Hthis : this w0 = this w) by done.
  rewrite deployContract_checked by (by rewrite Hthis).
  rewrite Hthis. fold o. set (wl := set_this o w0).
  assert (Hagent : prop o "agent" = prop (this w) "agent").
  { unfold o, prop. by rewrite lookup_insert_ne. }
  assert (Hcode : prop o "codeId" = prop (this w) "codeId").
  { unfold o, prop. by rewrite lookup_insert_ne. }
  assert (Hmsg : prop o "initMsg" = prop (this w) "initMsg").
  { unfold o, prop. by rewrite lookup_insert_ne. }
  rewrite M_bind_run, await_uploaded_resolved by (by cbn; rewrite ?Hcode).
  cbv beta iota.
  assert (Hcalls : calls wl = calls w) by done.
  assert (Hwl : this wl = o) by done.
  rewrite <- Hagent. apply truthy_not_nullish in Hm.
  rewrite <- Hcode in Hc. rewrite <- Hmsg in Hm.
  clearbody wl o. clear Hagent Hcode Hmsg. subst o.
  unfold define. m_simpl. rewrite Hc, Hm. m_simpl.
  destruct (Agent_instantiate E _ _) as [contract|e]; m_simpl; [|by rewrite Hcalls].
  destruct (truthy (prop (override E (this wl) contract) "context")); m_simpl;
    by rewrite Hcalls, <- ?app_assoc.
Qed.

(** X14: when the upload stage fails, the deploy task fails with the error
    of the upload stage, and it does nothing more: the agent is not called,
    the calls made and the fields of the object are those the upload stage
    left. *)
Theorem deploy_fails_with_the_upload (w : World) (initMsg : JsVal) :
  truthy (prop (this w) "agent") = true →
  truthy (prop (this w) "id") = true →
  truthy (writeLabel E (this w)) = true →
  truthy (prop (this w) "initMsg") = true →
  ∀ e w2, await_uploaded E (at_upload E initMsg w) = (Throw e, w2) →
    (deploy_await E initMsg w).1 = Throw e ∧
    calls (deploy_await E initMsg w).2 = calls w2 ∧
    this (deploy_await E initMsg w).2 = this w2.
Proof.
  intros Ha Hi Hl Hm e w2 Hup. rewrite deploy_await_run. cbn zeta.
  set (w0 := (deploy initMsg w).2).
  assert (Hthis : this w0 = this w) by done.
  rewrite deployContract_checked by (by rewrite Hthis).
  rewrite Hthis. unfold at_upload in Hup. fold w0 in Hup.
  by rewrite M_bind_run, Hup.
Qed.

End ContractDeploy.

Lemma deploy_of_uploaded_contract_witness :
  let w := Contract.World_new Contract.ClsContract Samples.uploaded in
  let r := Contract.deploy_await Samples.env JUndefined w in
  Contract.cl_address <$> (match r.1 with
                           | Ok (Contract.VClient c) => Some c
                           | _ => None
                           end) = Some (JStr "secret1address") ∧
  Contract.calls r.2 = [Contract.CInstantiate].
Proof.
  intros w r.
  assert (Ha : truthy (Contract.prop (Contract.this w) "agent") = true)
    by (vm_compute; reflexivity).
  assert (Hi : truthy (Contract.prop (Contract.this w) "id") = true)
    by (vm_compute; reflexivity).
  assert (Hl : truthy (Contract.writeLabel Samples.env (Contract.this w)) = true)
    by (vm_compute; reflexivity).
  assert (Hm : truthy (Contract.prop (Contract.this w) "initMsg") = true)
    by (vm_compute; reflexivity).
  assert (Hc : truthy (Contract.prop (Contract.this w) "codeId") = true)
    by (vm_compute; reflexivity).
  pose proof (deploy_of_uploaded_contract Samples.env w JUndefined Ha Hi Hl Hm Hc eq_refl)
    as H.
  cbv zeta in H. cbn [Samples.env Contract.Agent_instantiate] in H.
  destruct H as (H1 & _ & H3). fold r in H1, H3. rewrite H1, H3.
  split; vm_compute; reflexivity.
Defined.

Lemma deploy_fails_with_the_upload_witness :
  let w := Contract.World_new Contract.ClsContract Samples.configured in
  let r := Contract.deploy_await Samples.env_upload_fails JUndefined w in
  r.1 = Throw (BackendError "upload failed") ∧
  Contract.calls r.2 = [Contract.CUpload].
Proof.
  intros w r.
  assert (Ha : truthy (Contract.prop (Contract.this w) "agent") = true)
    by (vm_compute; reflexivity).
  assert (Hi : truthy (Contract.prop (Contract.this w) "id") = true)
    by (vm_compute; reflexivity).
  assert (Hl : truthy (Contract.writeLabel Samples.env_upload_fails (Contract.this w)) = true)
    by (vm_compute; reflexivity).
  assert (Hm : truthy (Contract.prop (Contract.this w) "initMsg") = true)
    by (vm_compute; reflexivity).
  set (up := Contract.await_uploaded Samples.env_upload_fails
               (Contract.at_upload Samples.env_upload_fails JUndefined w)).
  assert (Hup1 : up.1 = Throw (BackendError "upload failed")) by (vm_compute; reflexivity).
  assert (Hup : up = (Throw (BackendError "upload failed"), up.2)).
  { rewrite <- Hup1. apply surjective_pairing. }
  destruct (deploy_fails_with_the_upload Samples.env_upload_fails w JUndefined
              Ha Hi Hl Hm _ _ Hup) as (H1 & H2 & _).
  fold r in H1, H2. rewrite H1, H2. split; [reflexivity|]. vm_compute. reflexivity.
Defined.

(** ** Contract: the outcome of a stage is final *)

Section ContractOutcomes.
Import Contract.
Variable E : Env.

Lemma task_mono_refl (w : World) : task_mono w w.
Proof. intros t task Ht. by exists task. Qed.

Lemma task_mono_trans (w1 w2 w3 : World) :
  task_mono w1 w2 → task_mono w2 w3 → task_mono w1 w3.
Proof.
  intros H12 H23 t task Ht.
  destruct (H12 t task Ht) as (task2 & Ht2 & Hr2).
  destruct (H23 t task2 Ht2) as (task3 & Ht3 & Hr3).
  exists task3. split; [done|]. intros r Hr. by apply Hr3, Hr2.
Qed.

Lemma task_mono_tasks (w w' : World) : tasks w' = tasks w → task_mono w w'.
Proof. intros Heq t task Ht. exists task. by rewrite Heq. Qed.

Lemma task_mono_add_task (task : Task) (w : World) :
  task_mono w (set_tasks (tasks w ++ [task]) w).
Proof.
  intros t task' Ht. exists task'. split; [|done]. cbn. by apply lookup_app_l_Some.
Qed.

(** Awaiting a task records its outcome and keeps what was recorded. *)
Lemma task_mono_await_task (body : JsVal → M World Value) (t : nat) (w : World) :
  (∀ a, task_mono w (body a w).2) → task_mono w (await_task body t w).2.
Proof.
  intros Hbody. destruct (tasks w !! t) as [task|] eqn:Htask;
    [|rewrite await_task_missing by done; apply task_mono_refl].
  destruct (task_result task) as [r|] eqn:Hr.
  { rewrite (await_task_settled _ _ _ task r) by done. apply task_mono_refl. }
  rewrite (await_task_fresh _ _ _ task) by done. cbn.
  specialize (Hbody (task_arg task)).
  set (w2 := (body (task_arg task) w).2) in *. set (r := (body (task_arg task) w).1).
  intros t' task' Ht'. destruct (Hbody t' task' Ht') as (task2 & Ht2 & Hr2).
  unfold settle. cbn. destruct (decide (t = t')) as [<-|Hne].
  - rewrite list_lookup_alter_eq, Ht2. cbn. eexists. split; [done|].
    intros r'. rewrite Htask in Ht'. injection Ht' as <-. by rewrite Hr.
  - rewrite list_lookup_alter_ne by done. eauto.
Qed.

Lemma await_task_records (body : JsVal → M World Value) (t : nat) (w : World) :
  is_Some (tasks w !! t) → (∀ a, task_mono w (body a w).2) →
  ∃ task, tasks (await_task body t w).2 !! t = Some task ∧
          task_result task = Some (await_task body t w).1.
Proof.
  intros [task Htask] Hbody. destruct (task_result task) as [r|] eqn:Hr.
  { rewrite (await_task_settled _ _ _ task r) by done. by exists task. }
  rewrite (await_task_fresh _ _ _ task) by done. cbn.
  destruct (Hbody (task_arg task) t task Htask) as (task2 & Ht2 & _).
  unfold settle. cbn. rewrite list_lookup_alter_eq, Ht2. cbn. by eexists.
Qed.

Lemma task_mono_buildContract (w : World) : task_mono w (buildContract E w).2.
Proof. apply task_mono_tasks, buildContract_tasks. Qed.

Lemma task_mono_compiled (w : World) : task_mono w (compiled w).2.
Proof.
  unfold compiled, build, defineTask. m_simpl.
  destruct (truthy (prop (this w) "artifact")); m_simpl;
    [apply task_mono_refl|apply task_mono_add_task].
Qed.

Lemma task_mono_await_compiled (w : World) : task_mono w (await_compiled E w).2.
Proof.
  unfold await_compiled. rewrite M_bind_run.
  pose proof (task_mono_compiled w) as H1.
  destruct (compiled w) as [[[v|t]|e] w1]; cbn in *; [done| |done].
  eapply task_mono_trans; [exact H1|]. apply task_mono_await_task.
  intros _. apply task_mono_buildContract.
Qed.

Lemma task_mono_uploadContract (w : World) : task_mono w (uploadContract E w).2.
Proof.
  unfold uploadContract. rewrite M_bind_run.
  pose proof (task_mono_await_compiled w) as H1.
  destruct (await_compiled E w) as [[v|e] w1]; cbn in *; [|done].
  eapply task_mono_trans; [exact H1|]. apply task_mono_tasks.
  unfold define. m_simpl. by destruct (core_upload E (this w1)).
Qed.

Lemma task_mono_uploaded (w : World) : task_mono w (uploaded w).2.
Proof.
  unfold uploaded, upload, defineTask. m_simpl.
  destruct (own_uploaded w); m_simpl; [apply task_mono_refl|].
  destruct (truthy _); m_simpl; [apply task_mono_refl|].
  eapply task_mono_trans; [apply task_mono_add_task|]. by apply task_mono_tasks.
Qed.

Lemma task_mono_await_uploaded (w : World) : task_mono w (await_uploaded E w).2.
Proof.
  unfold await_uploaded. rewrite M_bind_run.
  pose proof (task_mono_uploaded w) as H1.
  destruct (uploaded w) as [[[v|t]|e] w1]; cbn in *; [done| |done].
  eapply task_mono_trans; [exact H1|]. apply task_mono_await_task.
  intros _. apply task_mono_uploadContract.
Qed.

Local Arguments await_uploaded : simpl never.

Lemma task_mono_deployContract (arg : JsVal) (w : World) :
  task_mono w (deployContract E arg w).2.
Proof.
  unfold deployContract, define. m_simpl.
  destruct (truthy (prop (this w) "agent")); cbn; [|apply task_mono_refl].
  destruct (truthy (prop (this w) "id")); cbn; [|apply task_mono_refl].
  set (wl := set_this (<["label":=writeLabel E (this w)]> (this w)) w).
  assert (Hwl : task_mono w wl) by (by apply task_mono_tasks).
  destruct (truthy (prop _ "label")); cbn; [|done].
  destruct (truthy (prop _ "initMsg")); cbn; [|done].
  pose proof (task_mono_await_uploaded wl) as H2.
  destruct (await_uploaded E wl) as [[v|e] w2]; cbn in *;
    [|exact (task_mono_trans _ _ _ Hwl H2)].
  assert (Hw2 : task_mono w w2) by exact (task_mono_trans _ _ _ Hwl H2).
  repeat case_match; simplify_eq/=;
    (eapply task_mono_trans; [exact Hw2|]); by apply task_mono_tasks.
Qed.

Lemma task_mono_deployed (w : World) : task_mono w (deployed w).2.
Proof.
  unfold deployed, deploy, defineTask. m_simpl.
  destruct (own_deployed w); m_simpl; [apply task_mono_refl|].
  destruct (truthy _); m_simpl; [apply task_mono_refl|].
  eapply task_mono_trans; [apply task_mono_add_task|]. by apply task_mono_tasks.
Qed.

Lemma task_mono_await_deployed (w : World) : task_mono w (await_deployed E w).2.
Proof.
  unfold await_deployed. rewrite M_bind_run.
  pose proof (task_mono_deployed w) as H1.
  destruct (deployed w) as [[[v|t]|e] w1]; cbn in *; [done| |done].
  eapply task_mono_trans; [exact H1|]. apply task_mono_await_task.
  intros a. apply task_mono_deployContract.
Qed.

Lemma task_mono_step (w : World) (op : Op) : task_mono w (step E w op).
Proof.
  destruct op as [[]|[]]; cbn.
  - apply task_mono_compiled.
  - apply task_mono_uploaded.
  - apply task_mono_deployed.
  - apply task_mono_await_compiled.
  - apply task_mono_await_uploaded.
  - apply task_mono_await_deployed.
Qed.

Lemma task_mono_steps (ops : list Op) (w : World) : task_mono w (steps E ops w).
Proof.
  revert w. induction ops as [|op ops IH]; intros w; [apply task_mono_refl|].
  cbn. eapply task_mono_trans; [apply task_mono_step|apply IH].
Qed.

(** Awaiting a stage property that holds a task: the outcome is recorded in
    the task, and stays the answer of the property. *)
Lemma await_own_final (side : Side) (w : World) (t : nat) (ops : list Op) :
  let await_side w :=
    match side with
    | SideUpload => await_uploaded E w
    | SideDeploy => await_deployed E w
    end in
  Inv w → own_of side (await_side w).2 = Some t →
  await_side (steps E ops (await_side w).2) =
    ((await_side w).1, steps E ops (await_side w).2).
Proof.
  intros await_side HI Hown1.
  set (body := match side with
               | SideUpload => λ _ : JsVal, uploadContract E
               | SideDeploy => deployContract E
               end).
  set (getter := match side with SideUpload => uploaded | SideDeploy => deployed end).
  assert (Hawait : ∀ w0, await_side w0 =
            match getter w0 with
            | (Ok (Resolved v), w1) => (Ok v, w1)
            | (Ok (Pending t), w1) => await_task body t w1
            | (Throw e, w1) => (Throw e, w1)
            end).
  { intros w0. unfold await_side, getter, body.
    destruct side; unfold await_uploaded, await_deployed; rewrite M_bind_run;
      by destruct (uploaded w0) as [[[]|]], (deployed w0) as [[[]|]]. }
  assert (Hbody : ∀ a w0, task_mono w0 (body a w0).2).
  { intros a w0. destruct side; [apply task_mono_uploadContract|apply task_mono_deployContract]. }
  assert (Hbody_own : ∀ a w0, own_mono w0 (body a w0).2).
  { intros a w0. destruct side;
      [apply own_mono_uploadContract|apply own_mono_deployContract]. }
  assert (Hgetter : (∃ th, (getter w).1 = Ok th ∧
                       ∀ t, th = Pending t → own_of side (getter w).2 = Some t) ∧
                    side_inv side (getter w).2 ∧
                    (own_of side w = None → ∀ v, (getter w).1 = Ok (Resolved v) →
                       (getter w).2 = w)).
  { destruct side; unfold getter.
    - destruct (uploaded_run w) as (H1 & H2 & _). split; [done|]. split; [by apply H2, HI|].
      cbn. intros Hn v. unfold uploaded. m_simpl. rewrite Hn.
      by destruct (truthy _); m_simpl.
    - destruct (deployed_run w) as (H1 & H2 & _). split; [done|]. split; [by apply H2, HI|].
      cbn. intros Hn v. unfold deployed. m_simpl. rewrite Hn.
      by destruct (truthy _); m_simpl. }
  destruct Hgetter as ((th & Hth & Hpend) & Hinv & Hres).
  assert (Hmemo : ∀ w0 t0, own_of side w0 = Some t0 → getter w0 = (Ok (Pending t0), w0)).
  { intros w0 t0. destruct side; [apply uploaded_memo|apply deployed_memo]. }
  rewrite (Hawait w) in Hown1 |- *.
  destruct (getter w) as [r0 w1] eqn:Hg. cbn in Hth, Hpend, Hinv, Hres. subst r0.
  destruct th as [v|t1].
  { (* nothing was started: the accessor is not installed *)
    cbn in Hown1. destruct (own_of side w) as [t0|] eqn:Hown0.
    - rewrite (Hmemo w t0 Hown0) in Hg. discriminate.
    - rewrite (Hres eq_refl v eq_refl) in Hown1. congruence. }
  specialize (Hpend t1 eq_refl).
  assert (Ht1 : t1 = t).
  { pose proof (own_mono_await_task body t1 w1 (λ a, Hbody_own a w1) side t1 Hpend).
    congruence. }
  subst t1.
  assert (Hexists : is_Some (tasks w1 !! t)).
  { unfold side_inv in Hinv. rewrite Hpend in Hinv. destruct Hinv as (Hst & _).
    unfold stages in Hst. rewrite list_lookup_fmap in Hst.
    destruct (tasks w1 !! t); [eauto|discriminate]. }
  destruct (await_task_records body t w1 Hexists (λ a, Hbody a w1))
    as (task & Htask & Hresult).
  set (w2 := (await_task body t w1).2) in *. set (r := (await_task body t w1).1) in *.
  destruct (task_mono_steps ops w2 t task Htask) as (task' & Htask' & Hr').
  pose proof (own_mono_steps E ops w2 side t Hown1) as Hown'.
  rewrite Hawait, (Hmemo _ t Hown').
  apply (await_task_settled _ _ _ task'); [done|]. by apply Hr'.
Qed.

(** X16: the outcome of a stage is final.  Once awaiting [deployed]
    (resp. [uploaded]) has run or joined the task of the property, every later
    await of the property, whatever was read and awaited in between, gives
    that same outcome, the value or the error, and does nothing: a failed
    deployment or upload is not tried again through the property. *)
Theorem stage_outcome_is_final (c : Class) (fields : gmap string JsVal)
    (before between : list Op) :
  let w := steps E before (World_new c fields) in
  (is_Some (own_deployed (await_deployed E w).2) →
     await_deployed E (steps E between (await_deployed E w).2) =
       ((await_deployed E w).1, steps E between (await_deployed E w).2)) ∧
  (is_Some (own_uploaded (await_uploaded E w).2) →
     await_uploaded E (steps E between (await_uploaded E w).2) =
       ((await_uploaded E w).1, steps E between (await_uploaded E w).2)).
Proof.
  intros w. assert (HI : Inv w) by apply steps_inv, Inv_new.
  split; intros [t Ht].
  - exact (await_own_final SideDeploy w t between HI Ht).
  - exact (await_own_final SideUpload w t between HI Ht).
Qed.

End ContractOutcomes.

Lemma stage_outcome_is_final_witness :
  let w := Contract.World_new Contract.ClsContract Samples.configured in
  let w1 := (Contract.await_deployed Samples.env_upload_fails w).2 in
  let w2 := Contract.steps Samples.env_upload_fails
              [Contract.Await Contract.Uploaded; Contract.Read Contract.Compiled] w1 in
  (Contract.await_deployed Samples.env_upload_fails w).1 =
    Throw (BackendError "upload failed") ∧
  Contract.await_deployed Samples.env_upload_fails w2 =
    (Throw (BackendError "upload failed"), w2).
Proof.
  intros w w1 w2.
  assert (H1 : (Contract.await_deployed Samples.env_upload_fails w).1 =
               Throw (BackendError "upload failed")) by (vm_compute; reflexivity).
  split; [exact H1|].
  destruct (stage_outcome_is_final Samples.env_upload_fails Contract.ClsContract
              Samples.configured []
              [Contract.Await Contract.Uploaded; Contract.Read Contract.Compiled])
    as [H _].
  rewrite <- H1. apply H. exists 0%nat. vm_compute. reflexivity.
Defined.

(** ** Contract: the upload stage *)

Section ContractUpload.
Import Contract.
Variable E : Env.

(** The body of the build task reads the fields and the class of the
    object, and adds to the calls at most the call of the builder. *)
Lemma buildContract_ext (w w' : World) :
  this w' = this w → cls w' = cls w →
  (buildContract E w').1 = (buildContract E w).1 ∧
  this (buildContract E w').2 = this (buildContract E w).2 ∧
  ∃ added, calls (buildContract E w').2 = calls w' ++ added ∧
           calls (buildContract E w).2 = calls w ++ added ∧
           (added = [] ∨ added = [CBuild]) ∧
           (is_Throw (buildContract E w).1 = false → added = [CBuild]).
Proof.
  intros Hthis Hcls. unfold buildContract, define. m_simpl. rewrite Hthis, Hcls.
  destruct (bool_decide (cls w = ClsTemplate) && negb (truthy (prop (this w) "crate")));
    m_simpl.
  { split; [done|]. split; [done|]. exists []. rewrite !app_nil_r. repeat split; first [done | by left]. }
  destruct (assertBuilder E (this w)) as [builder|e]; m_simpl.
  2:{ split; [done|]. split; [done|]. exists []. rewrite !app_nil_r. repeat split; first [done | by left]. }
  destruct (Builder_build E builder (this w)) as [result|e]; m_simpl.
  - rewrite ?Hthis. split; [done|]. split; [done|]. exists [CBuild]. repeat split; first [done | by right].
  - split; [done|]. split; [done|]. exists [CBuild]. repeat split; first [done | by right].
Qed.

(** Awaiting a task that was just made. *)
Lemma await_new_task (body : JsVal → M World Value) (task : Task) (w w1 : World) :
  tasks w1 = tasks w ++ [task] → task_result task = None →
  await_task body (length (tasks w)) w1 =
  ((body (task_arg task) w1).1,
   settle (length (tasks w)) (body (task_arg task) w1).1 (body (task_arg task) w1).2).
Proof.
  intros Ht Hr. apply await_task_fresh; [|done].
  by rewrite Ht, lookup_app_r, Nat.sub_diag.
Qed.

(** Awaiting [compiled], as far as the fields, the class and the calls go. *)
Lemma await_compiled_run (w : World) :
  (truthy (prop (this w) "artifact") = true → await_compiled E w = (Ok VThis, w)) ∧
  (truthy (prop (this w) "artifact") = false →
     (await_compiled E w).1 = (buildContract E w).1 ∧
     this (await_compiled E w).2 = this (buildContract E w).2 ∧
     calls (await_compiled E w).2 = calls (buildContract E w).2).
Proof.
  unfold await_compiled. rewrite M_bind_run. unfold compiled, build, defineTask. m_simpl.
  split; intros Ha; rewrite Ha; m_simpl; [done|].
  match goal with |- context [set_tasks (tasks w ++ [?task]) w] =>
    set (bt := task); set (w1 := set_tasks (tasks w ++ [bt]) w) end.
  rewrite (await_new_task _ bt w w1) by done. cbn.
  destruct (buildContract_ext w w1 eq_refl eq_refl) as (H1 & H2 & added & H3 & H4 & _).
  split; [done|]. split; [done|]. by rewrite H3, H4.
Qed.


(** The body of the upload task after the build stage. *)
Lemma uploadContract_after (w : World) :
  match await_compiled E w with
  | (Ok _, wc) =>
      (uploadContract E w).1 =
        match core_upload E (this wc) with Ok _ => Ok VThis | Throw e => Throw e end ∧
      this (uploadContract E w).2 =
        match core_upload E (this wc) with
        | Ok result => override E (this wc) result
        | Throw _ => this wc
        end ∧
      calls (uploadContract E w).2 = calls wc ++ [CUpload]
  | (Throw e, wc) =>
      (uploadContract E w).1 = Throw e ∧
      this (uploadContract E w).2 = this wc ∧
      calls (uploadContract E w).2 = calls wc
  end.
Proof.
  unfold uploadContract. rewrite M_bind_run.
  destruct (await_compiled E w) as [[v|e] wc]; [|done].
  unfold define. m_simpl. by destruct (core_upload E (this wc)).
Qed.

(** Reading [uploaded] on an object without code id starts the task. *)
Lemma uploaded_starts (w : World) :
  own_uploaded w = None → truthy (prop (this w) "codeId") = false →
  ∃ ut w1, uploaded w = (Ok (Pending (length (tasks w))), w1) ∧
           tasks w1 = tasks w ++ [ut] ∧ task_result ut = None ∧
           this w1 = this w ∧ cls w1 = cls w ∧ calls w1 = calls w ∧
           own_uploaded w1 = Some (length (tasks w)).
Proof.
  intros Hown Hcode. unfold uploaded, upload, defineTask. m_simpl.
  rewrite Hown, Hcode. m_simpl. do 2 eexists. split; [reflexivity|]. by cbn.
Qed.

(** X15: the upload stage of an object that has no code id and has not
    started an upload.  With the artifact present the builder is not called,
    and the uploader is called once, on the object as it is.  Without the
    artifact the build stage runs first: when it fails, the upload stage
    fails with the same error and the uploader is not called; when it
    succeeds, the builder has been called once and the uploader is called
    once after it, on the object as the build left it.  What the uploader
    answers is merged into the object; its failure is the failure of the
    stage.  In every case the property [uploaded] now holds the task. *)
Theorem upload_builds_first (w : World) :
  own_uploaded w = None → truthy (prop (this w) "codeId") = false →
  let r := await_uploaded E w in
  let uploads (o : gmap string JsVal) (before : list Call) :=
    r.1 = match core_upload E o with Ok _ => Ok VThis | Throw e => Throw e end ∧
    this r.2 = match core_upload E o with
               | Ok result => override E o result
               | Throw _ => o
               end ∧
    calls r.2 = before ++ [CUpload] in
  (truthy (prop (this w) "artifact") = true → uploads (this w) (calls w)) ∧
  (truthy (prop (this w) "artifact") = false →
     match buildContract E w with
     | (Ok _, wb) => calls wb = calls w ++ [CBuild] ∧ uploads (this wb) (calls wb)
     | (Throw e, wb) =>
         r.1 = Throw e ∧ this r.2 = this wb ∧ calls r.2 = calls wb ∧
         (calls wb = calls w ∨ calls wb = calls w ++ [CBuild])
     end) ∧
  own_uploaded r.2 = Some (length (tasks w)).
Proof.
  intros Hown Hcode r uploads. subst r uploads. cbv beta.
  destruct (uploaded_starts w Hown Hcode)
    as (ut & w1 & Hup & Htasks & Hnone & Hthis1 & Hcls1 & Hcalls1 & Hown1).
  unfold await_uploaded. rewrite M_bind_run, Hup. cbn [await].
  rewrite (await_new_task _ ut w w1) by done. cbn [fst snd].
  change (this (settle ?t ?r ?w0)) with (this w0).
  change (calls (settle ?t ?r ?w0)) with (calls w0).
  change (own_uploaded (settle ?t ?r ?w0)) with (own_uploaded w0).
  pose proof (uploadContract_after w1) as Hafter.
  destruct (await_compiled_run w1) as [Hart Hnoart].
  rewrite Hthis1 in Hart, Hnoart.
  split; [|split].
  - intros Ha. rewrite (Hart Ha), Hthis1, Hcalls1 in Hafter. exact Hafter.
  - intros Ha. destruct (Hnoart Ha) as (Hr & Hthis & Hcalls).
    destruct (buildContract_ext w w1 Hthis1 Hcls1)
      as (H1 & H2 & added & H3 & H4 & Hadded & Hok).
    rewrite H1 in Hr. rewrite H2 in Hthis. rewrite H3, Hcalls1 in Hcalls.
    destruct (buildContract E w) as [rb wb]. cbn in Hr, Hthis, H4, Hok.
    destruct (await_compiled E w1) as [rc wc]. cbn in Hr, Hthis, Hcalls. subst rc.
    destruct rb as [v|e].
    + rewrite (Hok eq_refl) in H4, Hcalls. split; [done|].
      destruct Hafter as (Ha1 & Ha2 & Ha3). rewrite Hthis in Ha1, Ha2.
      by rewrite Hcalls, <- H4 in Ha3.
    + destruct Hafter as (Ha1 & Ha2 & Ha3). split; [done|]. split; [congruence|].
      split; [congruence|]. destruct Hadded as [->| ->]; [left|right]; [|done].
      by rewrite app_nil_r in H4.
  - exact (own_mono_uploadContract E w1 SideUpload (length (tasks w)) Hown1).
Qed.

End ContractUpload.

Lemma upload_builds_first_witness :
  let built := Contract.World_new Contract.ClsContract Samples.configured in
  let unbuilt := Contract.World_new Contract.ClsContract Samples.source in
  Contract.calls (Contract.await_uploaded Samples.env built).2 = [Contract.CUpload] ∧
  Contract.calls (Contract.await_uploaded Samples.env unbuilt).2 =
    [Contract.CBuild; Contract.CUpload].
Proof.
  intros built unbuilt.
  assert (Hc1 : truthy (Contract.prop (Contract.this built) "codeId") = false)
    by (vm_compute; reflexivity).
  assert (Hc2 : truthy (Contract.prop (Contract.this unbuilt) "codeId") = false)
    by (vm_compute; reflexivity).
  assert (Ha1 : truthy (Contract.prop (Contract.this built) "artifact") = true)
    by (vm_compute; reflexivity).
  assert (Ha2 : truthy (Contract.prop (Contract.this unbuilt) "artifact") = false)
    by (vm_compute; reflexivity).
  destruct (upload_builds_first Samples.env built eq_refl Hc1) as (H1 & _).
  destruct (upload_builds_first Samples.env unbuilt eq_refl Hc2) as (_ & H2 & _).
  destruct (H1 Ha1) as (_ & _ & E1). specialize (H2 Ha2).
  split; [exact E1|].
  assert (Hb : (Contract.buildContract Samples.env unbuilt).1 = Ok Contract.VThis)
    by (vm_compute; reflexivity).
  destruct (Contract.buildContract Samples.env unbuilt) as [rb wb]. cbn in Hb. subst rb.
  destruct H2 as (Hcalls & _ & _ & E2). rewrite E2, Hcalls. reflexivity.
Defined.

(** ** Configuration from the environment *)

Section ConfigFromEnv.
Import Config.
Variable homedir : string.
Variable resolve : string → string.





End ConfigFromEnv.
